(** * msAnalyzer: natural-abundance correction and ion clustering

    A shallow embedding of [msAnalyzer/msAnalyzer.py]: the class
    [NAProcess], and of the class [MSDataContainer] the resolution of the
    columns into ion clusters and the fits of the standard curves.  The Tk
    interface and the reading and writing of spreadsheets are left out.

    Python values are modelled as follows.
    - [int] is [Z]; a count that comes out of [len] or [enumerate] is [nat].
    - [float] is an exact rational ([Qc]); where NaN can occur, [None]
      stands for it.
    - [str] is [string]; the names of the rows of a table, which two
      patterns read digit by digit, are lists of code points.
    - a [dict] that the code iterates over is an association list in
      insertion order.
    - an exception is a constructor of [exn], and a function that can raise
      returns a [result].
    - [np.linalg.pinv], [scipy.optimize.minimize] and
      [scipy.stats.linregress] are variables of the sections that call
      them. *)

From Stdlib Require Import List String Ascii ZArith Lia Bool Arith.
From Stdlib Require Import Permutation Sorted.
From Stdlib Require Import DecimalString DecimalPos.
From Stdlib Require Import QArith Qcanon.
Import ListNotations.

Close Scope Qc_scope.
Close Scope Q_scope.
Open Scope string_scope.
Open Scope list_scope.

(** ** Python exceptions *)

Module Py.

Inductive exn : Type :=
| KeyError
| IndexError
| ValueError
| UnboundLocalError
| AssertionError
| ZeroDivisionError.

Inductive result (A : Type) : Type :=
| Ok (a : A)
| Raise (e : exn).

Arguments Ok {A} a.
Arguments Raise {A} e.

Definition bind {A B : Type} (r : result A) (k : A -> result B) : result B :=
  match r with
  | Ok a => k a
  | Raise e => Raise e
  end.

(** [str(n)] for a Python int. *)
Definition str_nat (n : nat) : string :=
  NilEmpty.string_of_uint (Nat.to_uint n).

Definition str_int (z : Z) : string :=
  NilEmpty.string_of_int (Z.to_int z).

(** [enumerate(l)], counting from [start]. *)
Fixpoint enumerate_from {A : Type} (start : nat) (l : list A)
  : list (nat * A) :=
  match l with
  | [] => []
  | x :: l' => (start, x) :: enumerate_from (S start) l'
  end.

Definition enumerate {A : Type} (l : list A) : list (nat * A) :=
  enumerate_from 0 l.

(** [l[start:stop]] for indices that are not negative. *)
Definition slice {A : Type} (start stop : nat) (l : list A) : list A :=
  firstn (stop - start) (skipn start l).

(** [itertools.groupby(l, key)]: one group per maximal run of neighbours
    with equal keys, under the key of the run. *)
Fixpoint groupby {A : Type} (key : A -> string) (l : list A)
  : list (string * list A) :=
  match l with
  | [] => []
  | x :: l' =>
      match groupby key l' with
      | (k, g) :: rest =>
          if String.eqb (key x) k then (k, x :: g) :: rest
          else (key x, [x]) :: (k, g) :: rest
      | [] => [(key x, [x])]
      end
  end.

(** [sorted(l, key)]: a stable sort, here by insertion. *)
Fixpoint insert_sorted {A : Type} (key : A -> Z) (x : A) (l : list A)
  : list A :=
  match l with
  | [] => [x]
  | y :: l' =>
      if (key x <=? key y)%Z then x :: y :: l'
      else y :: insert_sorted key x l'
  end.

Definition sorted {A : Type} (key : A -> Z) (l : list A) : list A :=
  fold_right (insert_sorted key) [] l.

End Py.

Import Py.

Notation "x <- r ;; k" := (bind r (fun x => k))
  (at level 61, r at next level, right associativity).

(** ** MSDataContainer: ions and their parental groups *)

Module MSDataContainer.

(** The dictionary that [__parseIon] returns for one column name. *)
Record ion : Type := mkIon {
  ion_id : Z;
  mass : Z;
  description : string
}.

(** An ion with its column index, as [enumerate(ionsDetected)] yields it. *)
Definition indexed_ion : Type := (nat * ion)%type.

Definition imass (e : indexed_ion) : Z := mass (snd e).
Definition idescription (e : indexed_ion) : string := description (snd e).

(** [__isLabeledExperiment]: fewer than six distinct descriptions for ten
    columns. *)
Definition isLabeledExperiment (ionsDetected : list ion) : result bool :=
  let ionsList := map description ionsDetected in
  let uniqueIons := nodup string_dec ionsList in
  match List.length ionsList with
  | O => Raise ZeroDivisionError
  | S _ as n =>
      Ok (if Qlt_le_dec (Z.of_nat (List.length uniqueIons) # Pos.of_nat n)
                        0.6%Q
          then true else false)
  end.

(** [masses[1:] - masses[0:-1]] *)
Definition differences (masses : list Z) : list Z :=
  map (fun p => (fst p - snd p)%Z) (combine (tl masses) (removelast masses)).

(** [np.where(differences != 1)[0]], the positions counted from [i]. *)
Fixpoint where_not_one (i : nat) (ds : list Z) : list nat :=
  match ds with
  | [] => []
  | d :: ds' =>
      if (d =? 1)%Z then where_not_one (S i) ds'
      else i :: where_not_one (S i) ds'
  end.

(** The loop [for i in range(len(idx[0])+1)] of [__getIonParentedGroups]:
    [idx] is what is left of [idx[0]], [start] and [i] are the loop's
    variables. *)
Fixpoint split_loop (key : string) (group : list indexed_ion)
    (idx : list nat) (start i : nat) : list (string * list indexed_ion) :=
  match idx with
  | e :: idx' =>
      ((key ++ "-" ++ str_nat i)%string, slice start (e + 1) group)
        :: split_loop key group idx' (e + 1) (S i)
  | [] => [((key ++ "-" ++ str_nat i)%string, skipn start group)]
  end.

(** The body of the loop over [groupsIntraSorted]. *)
Definition split_group (key : string) (group : list indexed_ion)
  : list (string * list indexed_ion) :=
  if Nat.eqb (List.length group) 1 then [(key, group)]
  else
    let masses := map imass group in
    let idx := where_not_one 0 (differences masses) in
    match idx with
    | [] => [(key, group)]
    | _ :: _ => split_loop key group idx 0 0
    end.

Definition groupsIntraSorted (ionsDetected : list ion)
  : list (string * list indexed_ion) :=
  map (fun g => (fst g, sorted imass (snd g)))
      (groupby idescription (enumerate ionsDetected)).

Definition getIonParentedGroups (ionsDetected : list ion)
  : list (string * list indexed_ion) :=
  flat_map (fun g => split_group (fst g) (snd g))
           (groupsIntraSorted ionsDetected).

(** [s[:2]] and [s[2:]] *)
Definition str_take2 (s : string) : string := substring 0 2 s.
Definition str_drop2 (s : string) : string :=
  substring 2 (String.length s - 2) s.

(** The isotopologue label of the [n]-th ion of a group whose first ion is
    [first], as [_computeFileAttributes] writes it in [sortedIonNames]. *)
Definition ionName (first : indexed_ion) (n : nat) (e : indexed_ion) : string :=
  ("C" ++ str_take2 (idescription e) ++ ":" ++ str_drop2 (idescription e)
       ++ " (" ++ str_int (imass first) ++ ") M." ++ str_nat n)%string.

Definition groupIonNames (group : list indexed_ion) : list (nat * string) :=
  match group with
  | [] => []
  | first :: _ =>
      map (fun ne => (fst (snd ne), ionName first (fst ne) (snd ne)))
          (enumerate group)
  end.

(** [sortedIonNames] *)
Definition sortedIonNames (finalGroups : list (string * list indexed_ion))
  : list (nat * string) :=
  flat_map (fun g => groupIonNames (snd g)) finalGroups.

End MSDataContainer.

(** ** Regular expressions of the formula code *)

Module Re.

Local Open Scope nat_scope.

Definition is_digit (c : ascii) : bool :=
  let n := nat_of_ascii c in (48 <=? n) && (n <=? 57).

(** The longest prefix of digits, and what follows it: the greedy
    [[0-9]*]. *)
Fixpoint span_digits (s : string) : string * string :=
  match s with
  | EmptyString => (EmptyString, EmptyString)
  | String c s' =>
      if is_digit c then
        let (ds, r) := span_digits s' in (String c ds, r)
      else (EmptyString, s)
  end.

(** [s] without the prefix [p], when it has it. *)
Fixpoint strip_prefix (p s : string) : option string :=
  match p, s with
  | EmptyString, _ => Some s
  | String a p', String b s' =>
      if Ascii.eqb a b then strip_prefix p' s' else None
  | String _ _, EmptyString => None
  end.

(** [C([0-9]+):([0-9]+)] matched at the start of [s]: the two groups. *)
Definition match_chain (s : string) : option (string * string) :=
  match s with
  | String "C" s1 =>
      match span_digits s1 with
      | (String _ _ as d1, String ":" s2) =>
          match span_digits s2 with
          | (String _ _ as d2, _) => Some (d1, d2)
          | _ => None
          end
      | _ => None
      end
  | _ => None
  end.

(** [re.findall("C([0-9]+):([0-9]+)", entry)[0]]: the leftmost match. *)
Fixpoint first_chain (entry : string) : result (string * string) :=
  match match_chain entry with
  | Some groups => Ok groups
  | None =>
      match entry with
      | EmptyString => Raise IndexError
      | String _ entry' => first_chain entry'
      end
  end.

(** [(k1|k2|...)([0-9]{0,})] matched at the start of [s]: the first symbol
    of [symbols] that [s] starts with, and the digits after it. *)
Fixpoint match_element (symbols : list string) (s : string)
  : option (string * string) :=
  match symbols with
  | [] => None
  | k :: symbols' =>
      match strip_prefix k s with
      | Some r => Some (k, fst (span_digits r))
      | None => match_element symbols' s
      end
  end.

(** [re.findall] with that pattern: the matches from left to right, none
    overlapping another; [skip] characters belong to the match before. *)
Fixpoint findall_elements (symbols : list string) (skip : nat) (s : string)
  : list (string * string) :=
  match s with
  | EmptyString => []
  | String _ s' =>
      match skip with
      | S k => findall_elements symbols k s'
      | O =>
          match match_element symbols s with
          | Some (el, ds) =>
              (el, ds)
                :: findall_elements symbols
                     (String.length el + String.length ds - 1) s'
          | None => findall_elements symbols 0 s'
          end
      end
  end.

(** [int(s)] for a string of digits. *)
Definition int (s : string) : result Z :=
  match s with
  | EmptyString => Raise ValueError
  | _ =>
      match NilEmpty.uint_of_string s with
      | Some u => Ok (Z.of_uint u)
      | None => Raise ValueError
      end
  end.

End Re.

(** ** Arrays

    A number of the code is a double; it is modelled as an exact rational,
    so that the arithmetic of the model is the one the code approximates. *)

Module Np.

Local Open Scope nat_scope.

Abbreviation num := Qc.

(** A two-dimensional array with its shape, stored by rows. *)
Record ndarray : Type := mkArray {
  nrows : nat;
  ncols : nat;
  rows : list (list num)
}.

Definition shape (a : ndarray) : nat * nat := (nrows a, ncols a).

Definition well_shaped (a : ndarray) : Prop :=
  List.length (rows a) = nrows a
  /\ Forall (fun r => List.length r = ncols a) (rows a).

(** [np.zeros((r, c))] *)
Definition zeros (r c : nat) : ndarray :=
  mkArray r c (repeat (repeat 0%Qc c) r).

(** The sum of two vectors, the shorter one continued with zeros. *)
Fixpoint vadd (a b : list num) : list num :=
  match a, b with
  | [], _ => b
  | _, [] => a
  | x :: a', y :: b' => (x + y)%Qc :: vadd a' b'
  end.

(** The full discrete convolution: entry [k] is the sum of the products
    [a[i] * v[k - i]]. *)
Fixpoint convolve_full (a v : list num) : list num :=
  match a with
  | [] => []
  | x :: a' => vadd (map (Qcmult x) v) (0%Qc :: convolve_full a' v)
  end.

(** [np.convolve(a, v)]: an empty argument is refused. *)
Definition convolve (a v : list num) : result (list num) :=
  match a, v with
  | [], _ => Raise ValueError
  | _, [] => Raise ValueError
  | _, _ => Ok (convolve_full a v)
  end.

(** [a.resize(m)]: cut, or continued with zeros. *)
Definition resize (m : nat) (a : list num) : list num :=
  firstn m a ++ repeat 0%Qc (m - List.length a).

Fixpoint set_nth (i : nat) (x : num) (row : list num) : list num :=
  match row, i with
  | [], _ => []
  | _ :: row', O => x :: row'
  | y :: row', S i' => y :: set_nth i' x row'
  end.

(** [a[:, i] = column]; a column of one entry is broadcast. *)
Definition set_column (a : ndarray) (i : nat) (column : list num)
  : result ndarray :=
  if negb (i <? ncols a) then Raise IndexError
  else if List.length column =? nrows a then
    Ok (mkArray (nrows a) (ncols a)
          (map (fun p => set_nth i (snd p) (fst p)) (combine (rows a) column)))
  else
    match column with
    | [x] => Ok (mkArray (nrows a) (ncols a) (map (set_nth i x) (rows a)))
    | _ => Raise ValueError
    end.

(** [a[:, j]] *)
Definition column (a : ndarray) (j : nat) : list num :=
  map (fun r => nth j r 0%Qc) (rows a).

(** [a.transpose()] *)
Definition transpose (a : ndarray) : ndarray :=
  mkArray (ncols a) (nrows a) (map (column a) (seq 0 (ncols a))).

(** The sum of the products of the entries of two vectors. *)
Fixpoint vdot (a b : list num) : num :=
  match a, b with
  | x :: a', y :: b' => (x * y + vdot a' b')%Qc
  | _, _ => 0%Qc
  end.

(** [np.matmul(a, b)] *)
Definition matmul (a b : ndarray) : result ndarray :=
  if ncols a =? nrows b then
    Ok (mkArray (nrows a) (ncols b)
          (map (fun r => map (vdot r) (rows (transpose b))) (rows a)))
  else Raise ValueError.

(** [np.dot(a, v)] for a matrix and a vector. *)
Definition dot_mv (a : ndarray) (v : list num) : result (list num) :=
  if ncols a =? List.length v then Ok (map (fun r => vdot r v) (rows a))
  else Raise ValueError.

(** [a - b] for two vectors; a vector of one entry is broadcast. *)
Definition vsub (a b : list num) : result (list num) :=
  if List.length a =? List.length b then
    Ok (map (fun p => (fst p - snd p)%Qc) (combine a b))
  else
    match a, b with
    | [x], _ => Ok (map (fun y => (x - y)%Qc) b)
    | _, [y] => Ok (map (fun x => (x - y)%Qc) a)
    | _, _ => Raise ValueError
    end.

(** [a[a < 0] = 0] *)
Definition clamp (x : num) : num :=
  if Qclt_le_dec x 0 then 0%Qc else x.

(** [a[:, :d]] *)
Definition take_columns (d : nat) (a : ndarray) : ndarray :=
  mkArray (nrows a) (Nat.min d (ncols a)) (map (firstn d) (rows a)).

End Np.

(** ** NAProcess *)

Module NAProcess.

Local Open Scope nat_scope.

Import Re Np.

(** A [dict] in insertion order. *)
Definition dict (V : Type) : Type := list (string * V).

(** [d[k]] *)
Fixpoint dict_get {V : Type} (d : dict V) (k : string) : result V :=
  match d with
  | [] => Raise KeyError
  | (k', v) :: d' => if String.eqb k k' then Ok v else dict_get d' k
  end.

(** [d[k] += n] for a key of [d]. *)
Fixpoint dict_add (d : dict Z) (k : string) (n : Z) : dict Z :=
  match d with
  | [] => []
  | (k', v) :: d' =>
      if String.eqb k k' then (k', (v + n)%Z) :: d'
      else (k', v) :: dict_add d' k n
  end.

Definition keys {V : Type} (d : dict V) : list string := map fst d.

Definition q (x : Q) : num := Q2Qc x.

(** [__getNaturalAbundanceDistributions] *)
Definition getNaturalAbundanceDistributions : dict (list num) :=
  [("H", [q 0.999885; q 0.000115]);
   ("C", [q 0.9893; q 0.0107]);
   ("N", [q 0.99632; q 0.00368]);
   ("O", [q 0.99757; q 0.00038; q 0.00205]);
   ("Si", [q 0.922297; q 0.046832; q 0.030872]);
   ("S", [q 0.9493; q 0.0076; q 0.0429; q 0.0002])].

(** One entry of the list that [getFAFormulaString] joins: the letter and
    the count, when the count is positive. *)
Definition formula_part (letter : string) (n : Z) : string :=
  if (0 <? n)%Z then (letter ++ str_int n)%string else EmptyString.

Definition getFAFormulaString (entry : string) (FAMES CHOL : bool)
  : result string :=
  groups <- first_chain entry ;;
  carbon <- int (fst groups) ;;
  doubleBond <- int (snd groups) ;;
  let hydrogen := (3 + (carbon - 2) * 2 + 1 - 2 * doubleBond)%Z in
  let oxygen := 2%Z in
  let silicon := 0%Z in
  let carbon := if FAMES then (carbon + 1)%Z else carbon in
  let hydrogen := if FAMES then (hydrogen - 1 + 3)%Z else hydrogen in
  let carbon := if CHOL then 30%Z else carbon in
  let hydrogen := if CHOL then 54%Z else hydrogen in
  let oxygen := if CHOL then 1%Z else oxygen in
  let silicon := if CHOL then 1%Z else silicon in
  Ok (formula_part "C" carbon ++ formula_part "H" hydrogen
        ++ formula_part "Si" silicon ++ formula_part "O" oxygen)%string.

(** The two numbers of the chain notation that [getFAFormulaString] reads
    from [entry]. *)
Definition chain_numbers (entry : string) : result (Z * Z) :=
  groups <- first_chain entry ;;
  carbon <- int (fst groups) ;;
  doubleBond <- int (snd groups) ;;
  Ok (carbon, doubleBond).

(** The loop of [parseFormula] over the matches. *)
Fixpoint count_elements (found : list (string * string)) (elementDict : dict Z)
  : result (dict Z) :=
  match found with
  | [] => Ok elementDict
  | (element, n) :: found' =>
      match n with
      | EmptyString => count_elements found' (dict_add elementDict element 1)
      | _ =>
          v <- int n ;;
          count_elements found' (dict_add elementDict element v)
      end
  end.

Definition parseFormula (NADistributions : dict (list num)) (formula : string)
  : result (dict Z) :=
  let elementDict :=
    map (fun element => (element, 0%Z)) (keys NADistributions) in
  count_elements (findall_elements (keys NADistributions) 0 formula)
    elementDict.

(** The composition that [__init__] stores in [elementsDict]. *)
Definition resolve (entry : string) (FAMES CHOL : bool) : result (dict Z) :=
  formula <- getFAFormulaString entry FAMES CHOL ;;
  parseFormula getNaturalAbundanceDistributions formula.

(** [for i in range(n): column = np.convolve(column, v)[:m]], without the
    cut when [m] is [None]. *)
Fixpoint convolve_times (n : nat) (m : option nat) (column v : list num)
  : result (list num) :=
  match n with
  | O => Ok column
  | S n' =>
      c <- convolve column v ;;
      convolve_times n' m (match m with Some k => firstn k c | None => c end) v
  end.

(** The loop of [__calculateMassDistributionVector] over the items of
    [elementDict]. *)
Fixpoint mass_distribution_loop (items : dict Z) (atomTracer : string)
    (NADistributions : dict (list num)) (result : list num)
  : Py.result (list num) :=
  match items with
  | [] => Ok result
  | (atom, n) :: items' =>
      if String.eqb atom atomTracer then
        mass_distribution_loop items' atomTracer NADistributions result
      else
        match Z.to_nat n with
        | O => mass_distribution_loop items' atomTracer NADistributions result
        | S _ as k =>
            v <- dict_get NADistributions atom ;;
            r <- convolve_times k None result v ;;
            mass_distribution_loop items' atomTracer NADistributions r
        end
  end.

Definition calculateMassDistributionVector (elementDict : dict Z)
    (atomTracer : string) (NADistributions : dict (list num))
  : result (list num) :=
  mass_distribution_loop elementDict atomTracer NADistributions [1%Qc].

(** One column of the correction matrix: [i] tracer atoms carry the label. *)
Definition correction_column (correctionVector : list num) (m : nat)
    (nAtomTracer i : nat) (purityTracer tracerNADistribution : list num)
  : result (list num) :=
  let column := firstn m correctionVector in
  column <- convolve_times i (Some m) column purityTracer ;;
  convolve_times (nAtomTracer - i) (Some m) column tracerNADistribution.

(** The loop [for i in range(nAtomTracer+1)], over the values of [i] that
    are left. *)
Fixpoint fill_columns (indices : list nat) (correctionMatrix : ndarray)
    (correctionVector : list num) (m nAtomTracer : nat)
    (purityTracer tracerNADistribution : list num) : result ndarray :=
  match indices with
  | [] => Ok correctionMatrix
  | i :: indices' =>
      column <- correction_column correctionVector m nAtomTracer i
                  purityTracer tracerNADistribution ;;
      correctionMatrix <- set_column correctionMatrix i column ;;
      fill_columns indices' correctionMatrix correctionVector m nAtomTracer
        purityTracer tracerNADistribution
  end.

Definition computeCorrectionMatrix (elementDict : dict Z) (atomTracer : string)
    (NADistributions : dict (list num)) (purityTracer : list num)
  : result ndarray :=
  correctionVector <-
    calculateMassDistributionVector elementDict atomTracer NADistributions ;;
  (* try: nAtomTracer = elementDict[atomTracer]; except: print(...) *)
  let nAtomTracer : option Z :=
    match dict_get elementDict atomTracer with
    | Ok n => Some n
    | Raise _ => None
    end in
  tracerNADistribution <- dict_get NADistributions atomTracer ;;
  nAtomTracer <- match nAtomTracer with
                 | Some n => Ok n
                 | None => Raise UnboundLocalError
                 end ;;
  let m :=
    (1 + nAtomTracer
         * (Z.of_nat (List.length tracerNADistribution) - 1))%Z in
  let c := Z.of_nat (List.length correctionVector) in
  let correctionVector :=
    if (c <? m)%Z then resize (Z.to_nat m) correctionVector
    else correctionVector in
  (* np.zeros refuses a negative dimension *)
  if (m <? 0)%Z || (nAtomTracer + 1 <? 0)%Z then Raise ValueError
  else
    let correctionMatrix := zeros (Z.to_nat m) (Z.to_nat (nAtomTracer + 1)) in
    fill_columns (seq 0 (Z.to_nat (nAtomTracer + 1))) correctionMatrix
      correctionVector (Z.to_nat m) (Z.to_nat nAtomTracer)
      purityTracer tracerNADistribution.

(** A [pandas.DataFrame] of numbers: the column names and the values. *)
Record DataFrame : Type := mkDataFrame {
  columns : list string;
  values : ndarray
}.

Definition well_formed (df : DataFrame) : Prop :=
  well_shaped (values df) /\ ncols (values df) = List.length (columns df).

(** [pd.DataFrame(columns=columns, data=data)] *)
Definition newDataFrame (columns : list string) (data : ndarray)
  : result DataFrame :=
  if ncols data =? List.length columns then Ok (mkDataFrame columns data)
  else Raise ValueError.

(** The fields of the object. *)
Record self : Type := mkSelf {
  NaturalAbundanceDistributions : dict (list num);
  formula : string;
  elementsDict : dict Z;
  atomTracer : string;
  purityTracer : list num;
  correctionMatrix : ndarray
}.

Definition init (entry atomTracer : string) (purityTracer : list num)
    (FAMES CHOL : bool) : result self :=
  let NADistributions := getNaturalAbundanceDistributions in
  formula <- getFAFormulaString entry FAMES CHOL ;;
  elementsDict <- parseFormula NADistributions formula ;;
  correctionMatrix <-
    computeCorrectionMatrix elementsDict atomTracer NADistributions
      purityTracer ;;
  Ok (mkSelf NADistributions formula elementsDict atomTracer purityTracer
        correctionMatrix).

Definition computeCost (currentMID target : list num)
    (correctionMatrix : ndarray) : result (num * list num) :=
  product <- dot_mv correctionMatrix currentMID ;;
  difference <- vsub target product ;;
  gradient <- dot_mv (transpose correctionMatrix) difference ;;
  Ok (vdot difference difference, map (fun x => (x * Q2Qc (-2))%Qc) gradient).

(** A bound of the minimisation: the lower end, and the upper end when there
    is one. *)
Definition bound : Type := (num * option num)%type.

Definition within (x : num) (b : bound) : Prop :=
  (fst b <= x)%Qc
  /\ match snd b with Some hi => (x <= hi)%Qc | None => True end.

Section Correction.

(** [np.linalg.pinv] and [scipy.optimize.minimize] with the method L-BFGS-B
    are not part of the program; the program is modelled over them. *)
Variable pinv : ndarray -> ndarray.
Variable minimize :
  (list num -> result (num * list num)) -> list num -> list bound
  -> result (list num).

Definition minimizeCost
    (costFunction : list num -> list num -> ndarray -> result (num * list num))
    (initialMID target : list num) (correctionMatrix : ndarray)
  : result (list num) :=
  minimize (fun x => costFunction x target correctionMatrix) initialMID
    (repeat (0%Qc, None) (List.length initialMID)).

(** [for res in allRes], gathering [res.x]. *)
Fixpoint minimize_rows (targetMIDList : list (list num)) (initialMID : list num)
    (correctionMatrix : ndarray) : result (list (list num)) :=
  match targetMIDList with
  | [] => Ok []
  | targetMID :: rest =>
      x <- minimizeCost computeCost initialMID targetMID correctionMatrix ;;
      xs <- minimize_rows rest initialMID correctionMatrix ;;
      Ok (x :: xs)
  end.

(** [np.vstack]: the rows must have one length. *)
Definition vstack (xs : list (list num)) : result ndarray :=
  match xs with
  | [] => Raise ValueError
  | x :: _ =>
      if forallb (fun y => List.length y =? List.length x) xs
      then Ok (mkArray (List.length xs) (List.length x) xs)
      else Raise ValueError
  end.

(** A local variable that a branch may leave without a value. *)
Definition read {A : Type} (local : option A) : result A :=
  match local with
  | Some v => Ok v
  | None => Raise UnboundLocalError
  end.

Definition correctForNaturalAbundance (s : self) (dataFrame : DataFrame)
    (method : string) : result DataFrame :=
  correctionMatrix <-
    computeCorrectionMatrix (elementsDict s) (atomTracer s)
      (NaturalAbundanceDistributions s) (purityTracer s) ;;
  let nCols := ncols correctionMatrix in
  let d := ncols (values dataFrame) in
  let dfData : option ndarray :=
    if nCols <? d then None (* print(...) *)
    else
      Some (mkArray (nrows (values dataFrame)) nCols
              (map (fun r => r ++ repeat 0%Qc (nCols - List.length r))
                   (rows (values dataFrame)))) in
  correctedData <-
    (if String.eqb method "SMC" then
       let correctionMatrix := pinv correctionMatrix in
       dfData <- read dfData ;;
       correctedData <- matmul dfData (transpose correctionMatrix) ;;
       Ok (Some (mkArray (nrows correctedData) (ncols correctedData)
                   (map (map clamp) (rows correctedData))))
     else if String.eqb method "LSC" then
       dfData <- read dfData ;;
       let targetMIDList := rows dfData in
       first <- match targetMIDList with
                | [] => Raise IndexError
                | t :: _ => Ok t
                end ;;
       let initialMID := repeat 0%Qc (List.length first) in
       xs <- minimize_rows targetMIDList initialMID correctionMatrix ;;
       correctedData <- vstack xs ;;
       Ok (Some correctedData)
     else Ok None) ;;
  correctedData <- read correctedData ;;
  newDataFrame (columns dataFrame) (take_columns d correctedData).

End Correction.

End NAProcess.

(** ** MSDataContainer: the standard curves *)

Module Standards.

Import Np NAProcess.

Local Open Scope nat_scope.

(** An entry of a table: a number, or [None] for NaN. *)
Definition value : Type := option num.

Definition isnan (v : value) : bool :=
  match v with
  | None => true
  | Some _ => false
  end.

(** [y == 0] *)
Definition is_zero (v : value) : bool :=
  match v with
  | Some y => Qc_eq_bool y 0%Qc
  | None => false
  end.

(** [mask1], [mask2] and [mask] of [computeStandardFits]. *)
Definition originalMask (xvals yvals : list value) : list bool :=
  map (fun xy =>
         let mask1 := negb (isnan (fst xy) || isnan (snd xy)) in
         let mask2 := negb (isnan (fst xy) || is_zero (snd xy)) in
         mask1 && mask2)
      (combine xvals yvals).

(** [a[mask]] for a list of booleans: the lengths must agree. *)
Fixpoint select (a : list value) (mask : list bool) : result (list value) :=
  match a, mask with
  | [], [] => Ok []
  | v :: a', b :: mask' =>
      rest <- select a' mask' ;;
      Ok (if b then v :: rest else rest)
  | _, _ => Raise IndexError
  end.

(** [((len(xvalsToFit)<3)|len(yvalsToFit)<3)]: Python reads it as
    [((len(xvalsToFit) < 3) | len(yvalsToFit)) < 3], the bitwise or of a
    boolean and an integer, compared with 3. *)
Definition not_enough_values (lx ly : nat) : bool :=
  (Z.lor (Z.b2z (Nat.ltb lx 3)) (Z.of_nat ly) <? 3)%Z.

(** [slope], [intercept] and [rvalue**2]. *)
Definition fit : Type := (num * num * num)%type.

Section Fits.

(** [scipy.stats.linregress], which returns the slope, the intercept and
    [rvalue], and the search of [_checkIfParentalIonDataExistsFor] among the
    columns of the standards, are not modelled. *)
Variable linregress : list value -> list value -> result fit.
Variable parentalIonOf : string -> option string.

(** The body of the loop over the columns of [stdAbsorbance], for a column
    whose [xvals] and [yvals] are known. *)
Definition fit_column (xvals yvals : list value) : result (option fit) :=
  let mask := originalMask xvals yvals in
  xvalsToFit <- select xvals mask ;;
  yvalsToFit <- select yvals mask ;;
  if not_enough_values (List.length xvalsToFit) (List.length yvalsToFit)
  then Ok None (* print(...); continue *)
  else
    r <- linregress xvalsToFit yvalsToFit ;;
    Ok (Some (fst (fst r), snd (fst r), (snd r * snd r)%Qc)).

(** [computeStandardFits(useMask=False)], over the columns of
    [stdAbsorbance] that are left; [fitDf] holds the fits so far. *)
Fixpoint standard_fits_loop (stdAbsorbance : dict (list value))
    (standardDf_nMoles : dict (list value)) (fitDf : dict fit)
  : result (dict fit) :=
  match stdAbsorbance with
  | [] => Ok fitDf
  | (col, yvals) :: rest =>
      let xvals : option (list value) :=
        match dict_get standardDf_nMoles col with
        | Ok xvals => Some xvals
        | Raise _ =>
            match parentalIonOf col with
            | Some parentalIon =>
                match dict_get standardDf_nMoles parentalIon with
                | Ok xvals => Some xvals
                | Raise _ => None
                end
            | None => None
            end
        end in
      match xvals with
      | None => standard_fits_loop rest standardDf_nMoles fitDf
      | Some xvals =>
          f <- fit_column xvals yvals ;;
          match f with
          | None => standard_fits_loop rest standardDf_nMoles fitDf
          | Some f =>
              standard_fits_loop rest standardDf_nMoles (fitDf ++ [(col, f)])
          end
      end
  end.

(** [len(df)]: the number of rows, the length of a column. *)
Definition frame_len (df : dict (list value)) : nat :=
  match df with
  | [] => 0
  | (_, column) :: _ => List.length column
  end.

Definition computeStandardFits (stdAbsorbance standardDf_nMoles
                                : dict (list value)) : result (dict fit) :=
  if frame_len stdAbsorbance =? frame_len standardDf_nMoles then
    standard_fits_loop stdAbsorbance standardDf_nMoles []
  else Raise AssertionError.

(** [(signal - intercept) / slope]; a division by zero is not a number of
    the model. *)
Definition quantify (f : fit) (signal : value) : value :=
  match signal with
  | Some v =>
      if Qc_eq_bool (fst (fst f)) 0%Qc then None
      else Some ((v - snd (fst f)) / fst (fst f))%Qc
  | None => None
  end.

(** The loop of [computeQuantificationFromStandardFits] over the columns of
    the fits. *)
Fixpoint quantification_loop (standardFits : dict fit)
    (dataDf_norm : dict (list value)) : result (dict (list value)) :=
  match standardFits with
  | [] => Ok []
  | (col, f) :: rest =>
      signal <- dict_get dataDf_norm col ;;
      resultsDf <- quantification_loop rest dataDf_norm ;;
      Ok ((col, map (quantify f) signal) :: resultsDf)
  end.

Definition computeQuantificationFromStandardFits
    (stdAbsorbance standardDf_nMoles dataDf_norm : dict (list value))
  : result (dict (list value)) :=
  standardFits <- computeStandardFits stdAbsorbance standardDf_nMoles ;;
  quantification_loop standardFits dataDf_norm.

End Fits.

End Standards.

(** ** What the program relies on in numpy and scipy *)

Module Library.

Import Np NAProcess.

Local Open Scope nat_scope.

(** [np.linalg.pinv] of an [r] by [c] matrix is a [c] by [r] matrix. *)
Definition pinv_contract (pinv : ndarray -> ndarray) : Prop :=
  forall a, well_shaped a ->
            well_shaped (pinv a) /\ shape (pinv a) = (ncols a, nrows a).

(** [scipy.optimize.minimize] with L-BFGS-B: the point it returns has the
    length of the initial point and lies within the bounds; it evaluates the
    objective on points of that length only, first on the initial one, and
    from an initial point within the bounds it returns when the objective
    is defined on them. *)
Record minimize_contract
    (minimize : (list num -> result (num * list num)) -> list num
                -> list bound -> result (list num)) : Prop := {
  minimize_feasible :
    forall f x0 bounds x,
      minimize f x0 bounds = Ok x ->
      List.length x = List.length x0 /\ Forall2 within x bounds;
  minimize_returns :
    forall f x0 bounds,
      Forall2 within x0 bounds ->
      (forall x, List.length x = List.length x0 -> exists v, f x = Ok v) ->
      exists x, minimize f x0 bounds = Ok x
}.


Definition withinb (x : num) (b : bound) : bool :=
  (if Qclt_le_dec x (fst b) then false else true)
  && match snd b with
     | Some hi => if Qclt_le_dec hi x then false else true
     | None => true
     end.

Fixpoint all_within (x : list num) (bounds : list bound) : bool :=
  match x, bounds with
  | [], [] => true
  | xi :: x', b :: bounds' => withinb xi b && all_within x' bounds'
  | _, _ => false
  end.

(** Two functions that meet the contracts: the transpose has the shape of
    the pseudo-inverse, and a minimiser may stop at its initial point. *)
Definition transpose_as_pinv : ndarray -> ndarray := transpose.

Definition stop_at_start (f : list num -> result (num * list num))
    (x0 : list num) (bounds : list bound) : result (list num) :=
  if all_within x0 bounds then
    match f x0 with
    | Ok _ => Ok x0
    | Raise e => Raise e
    end
  else Raise ValueError.

End Library.

(** ** Notions used to state the properties of the grouping *)

Module Clusters.

Import MSDataContainer.

(** Ascending order of the keys. *)
Definition key_le {A : Type} (key : A -> Z) (a b : A) : Prop :=
  (key a <= key b)%Z.

(** The cut positions are increasing, seen from the loop's [start]. *)
Fixpoint ascending (start : nat) (idx : list nat) : Prop :=
  match idx with
  | [] => True
  | e :: idx' => start <= e + 1 /\ ascending (e + 1) idx'
  end.

(** Each ion is one mass unit above the one before it. *)
Fixpoint unit_steps (c : list indexed_ion) : Prop :=
  match c with
  | x :: (y :: _) as c' => (imass y - imass x = 1)%Z /\ unit_steps c'
  | _ => True
  end.

(** Between the last ion of a cluster and the first of the next the mass
    does not go up by one. *)
Fixpoint jumps (cs : list (list indexed_ion)) : Prop :=
  match cs with
  | c1 :: (c2 :: _) as cs' =>
      (forall l1 a b l2, c1 = l1 ++ [a] -> c2 = b :: l2 ->
                         (imass b - imass a <> 1)%Z)
      /\ jumps cs'
  | _ => True
  end.

(** The maximal runs of unit mass steps of a list of ions. *)
Fixpoint runs (g : list indexed_ion) : list (list indexed_ion) :=
  match g with
  | [] => [[]]
  | x :: g' =>
      match g' with
      | [] => [[x]]
      | y :: _ =>
          if (imass y - imass x =? 1)%Z then
            match runs g' with
            | r :: rs => (x :: r) :: rs
            | [] => [[x]]
            end
          else [x] :: runs g'
      end
  end.

(** The [n]-th ion of a cluster is named M.n after the cluster's first ion
    and lies [n] mass units above it. *)
Definition labelled_from_lowest (c : list indexed_ion) : Prop :=
  forall n e,
    nth_error c n = Some e ->
    exists first,
      hd_error c = Some first
      /\ imass e = (imass first + Z.of_nat n)%Z
      /\ nth_error (groupIonNames c) n = Some (fst e, ionName first n e).

End Clusters.

Import Clusters.

(** ** Notions used to state the properties of the formula and the matrix *)

Module Notions.

Import Re Np NAProcess.

Local Open Scope nat_scope.

(** [s] is made of digits. *)
Fixpoint all_digits (s : string) : bool :=
  match s with
  | EmptyString => true
  | String c s' => is_digit c && all_digits s'
  end.

(** [s] does not go on with a digit. *)
Definition no_digit_ahead (s : string) : Prop :=
  match s with
  | EmptyString => True
  | String c _ => is_digit c = false
  end.

(** The symbols of the table, in its order. *)
Definition symbols : list string := ["H"; "C"; "N"; "O"; "Si"; "S"].

(** Entry [k] of the convolution, as a sum over the entries of [a]. *)
Fixpoint conv_at (a v : list num) (k : nat) : num :=
  match a with
  | [] => 0%Qc
  | x :: a' =>
      (x * nth k v 0%Qc
       + match k with
         | O => 0%Qc
         | S k' => conv_at a' v k'
         end)%Qc
  end.

(** The convolution of two distributions, entry by entry: the entries of
    [a] and [v] have the indices [0] to [len a - 1] and [0] to [len v - 1],
    and entry [k] of the convolution is the sum of the products
    [a[i] * v[k - i]]. *)
Definition convolution (a v : list num) : list num :=
  map (conv_at a v) (seq 0 (List.length a + List.length v - 1)).

(** [a] convolved [k] times with [v]. *)
Definition convolved (k : nat) (v a : list num) : list num :=
  fold_left convolution (repeat v k) a.

(** The distributions that make the base correction vector: for each
    element of the composition but the tracer, its natural distribution,
    once for each of its atoms. *)
Definition non_tracer_distributions (elementDict : dict Z)
    (atomTracer : string) (NADistributions : dict (list num))
  : list (list num) :=
  flat_map (fun item =>
              if String.eqb (fst item) atomTracer then []
              else
                match dict_get NADistributions (fst item) with
                | Ok v => repeat v (Z.to_nat (snd item))
                | Raise _ => []
                end)
           elementDict.

(** The base correction vector: the convolution of these distributions,
    from the distribution [[1]] of no atom. *)
Definition base_correction_vector (elementDict : dict Z)
    (atomTracer : string) (NADistributions : dict (list num)) : list num :=
  fold_left convolution
    (non_tracer_distributions elementDict atomTracer NADistributions)
    [1%Qc].

(** Two vectors with the same entries below [m], past their ends read as
    zero. *)
Definition agree (m : nat) (a b : list num) : Prop :=
  forall i, i < m -> nth i a 0%Qc = nth i b 0%Qc.

(** An element can be counted in: it is the tracer, or the table has
    isotopes for it. *)
Definition countable (atomTracer : string) (NADistributions : dict (list num))
    (item : string * Z) : Prop :=
  fst item = atomTracer
  \/ exists v, dict_get NADistributions (fst item) = Ok v /\ v <> [].

(** One column written over the rows [rs]. *)
Definition write_column (i : nat) (rs : list (list num)) (col : list num)
  : list (list num) :=
  map (fun p => set_nth i (snd p) (fst p)) (combine rs col).

(** The height [m] of the matrix. *)
Definition matrix_height (n : Z) (t : list num) : Z :=
  (1 + n * (Z.of_nat (List.length t) - 1))%Z.

(** The correction vector after [resize]. *)
Definition padded (m : Z) (base : list num) : list num :=
  if (Z.of_nat (List.length base) <? m)%Z then resize (Z.to_nat m) base
  else base.

(** The matrix of the object, built again by [correctForNaturalAbundance]. *)
Definition matrix_of (s : self) : result ndarray :=
  computeCorrectionMatrix (elementsDict s) (atomTracer s)
    (NaturalAbundanceDistributions s) (purityTracer s).

(** [dfData]: the observed values, each row continued with zeros. *)
Definition extended (nCols : nat) (dataFrame : DataFrame) : ndarray :=
  mkArray (nrows (values dataFrame)) nCols
    (map (fun r => r ++ repeat 0%Qc (nCols - List.length r))
         (rows (values dataFrame))).


End Notions.

(** ** Inputs on which the program is run below *)

Module Examples.

Import Np NAProcess Standards Library.

(** The chain C2:0 with carbon as the tracer: two tracer atoms. *)
Definition acetate : dict Z :=
  [("H", 4%Z); ("C", 2%Z); ("N", 0%Z); ("O", 2%Z); ("Si", 0%Z); ("S", 0%Z)].

Definition acetate_matrix : ndarray :=
  match computeCorrectionMatrix acetate "C" getNaturalAbundanceDistributions
          [q 0; q 1] with
  | Ok M => M
  | Raise _ => zeros 0 0
  end.

(** The object for the chain C2:0 with carbon as the tracer. *)
Definition acetate_process : self :=
  mkSelf getNaturalAbundanceDistributions "C2H4O2" acetate "C" [q 0; q 1]
    acetate_matrix.



(** One sample observed on four, on three and on two isotopologues. *)
Definition wide_frame : DataFrame :=
  mkDataFrame ["M.0"; "M.1"; "M.2"; "M.3"]
    (mkArray 1 4 [[q 0.7; q 0.2; q 0.1; q 0]]).

Definition full_frame : DataFrame :=
  mkDataFrame ["M.0"; "M.1"; "M.2"]
    (mkArray 1 3 [[q 0.7; q 0.2; q 0.1]]).

Definition narrow_frame : DataFrame :=
  mkDataFrame ["M.0"; "M.1"] (mkArray 1 2 [[q 0.7; q 0.3]]).

Definition output_of (r : result DataFrame) : DataFrame :=
  match r with
  | Ok out => out
  | Raise _ => mkDataFrame [] (zeros 0 0)
  end.

Definition narrow_output : DataFrame :=
  output_of (correctForNaturalAbundance transpose_as_pinv stop_at_start
               acetate_process narrow_frame "SMC").

Definition full_output : DataFrame :=
  output_of (correctForNaturalAbundance transpose_as_pinv stop_at_start
               acetate_process full_frame "LSC").

(** Six standards of which two have a signal. *)
Definition two_point_nMoles : dict (list value) :=
  [("C16:0 (270)",
    [Some (q 1); Some (q 5); Some (q 10); Some (q 20); Some (q 40);
     Some (q 80)])].

Definition two_point_absorbance : dict (list value) :=
  [("C16:0 (270)",
    [Some (q 0.1); Some (q 0.5); Some (q 0); Some (q 0); None; Some (q 0)])].

End Examples.

(** ** MSDataContainer: the files and the names of the columns *)

Module Files.

Local Open Scope nat_scope.

(** [p in s] for two strings. *)
Fixpoint contains (p s : string) : bool :=
  String.prefix p s
  || match s with
     | EmptyString => false
     | String _ s' => contains p s'
     end.

(** [l[0]] *)
Definition first {A : Type} (l : list A) : result A :=
  match l with
  | [] => Raise IndexError
  | x :: _ => Ok x
  end.

(** [__getDataAndTemplateFileNames] *)
Definition getDataAndTemplateFileNames (fileNames : list string)
    (templateKeyword : string) : result (string * string) :=
  dataFileName <-
    first (filter (fun fileName => negb (contains templateKeyword fileName))
                  fileNames) ;;
  templateFileName <-
    first (filter (fun fileName => negb (String.eqb fileName dataFileName))
                  fileNames) ;;
  Ok (dataFileName, templateFileName).

(** The first lines of [__init__]: two files are asked for. *)
Definition init_fileNames (fileNames : list string)
  : result (string * string) :=
  if List.length fileNames =? 2
  then getDataAndTemplateFileNames fileNames "template"
  else Raise AssertionError.

End Files.

Module Columns.

Import Re MSDataContainer Files.

Local Open Scope nat_scope.

(** [(?:\.\d+)?_] matched at the start of [s]: what follows the underscore.
    A fraction that is begun has digits and the underscore after them. *)
Definition skip_fraction (s : string) : option string :=
  match s with
  | String "." s' =>
      match span_digits s' with
      | (String _ _, String "_" r) => Some r
      | _ => None
      end
  | String "_" r => Some r
  | _ => None
  end.

(** [(\d+)_(\d+)(?:\.\d+)?_(\d+)] matched at the start of [s]: the three
    groups.  A character is a code point below 256, among which the digits
    are [0] to [9]. *)
Definition match_colName (s : string) : option (string * string * string) :=
  match span_digits s with
  | (String _ _ as ionID, String "_" s1) =>
      match span_digits s1 with
      | (String _ _ as ionMass, s2) =>
          match skip_fraction s2 with
          | Some s3 =>
              match span_digits s3 with
              | (String _ _ as ionDescription, _) =>
                  Some (ionID, ionMass, ionDescription)
              | _ => None
              end
          | None => None
          end
      | _ => None
      end
  | _ => None
  end.

(** [re.findall(regex, ion)[0]]: the leftmost match. *)
Fixpoint first_colName (ion : string) : result (string * string * string) :=
  match match_colName ion with
  | Some groups => Ok groups
  | None =>
      match ion with
      | EmptyString => Raise IndexError
      | String _ ion' => first_colName ion'
      end
  end.

(** [__parseIon] *)
Definition parseIon (ion : string) : result MSDataContainer.ion :=
  groups <- first_colName ion ;;
  ionID <- int (fst (fst groups)) ;;
  ionMass <- int (snd (fst groups)) ;;
  Ok (mkIon ionID ionMass (snd groups)).

(** [__parseSampleColumns] *)
Fixpoint parseSampleColumns (columnNames : list string)
  : result (list MSDataContainer.ion) :=
  match columnNames with
  | [] => Ok []
  | name :: columnNames' =>
      ion <- parseIon name ;;
      ions <- parseSampleColumns columnNames' ;;
      Ok (ion :: ions)
  end.

(** The name that [_computeFileAttributes] gives the column of an ion. *)
Definition dataColName (ion : MSDataContainer.ion) : string :=
  ("C" ++ str_take2 (description ion) ++ ":" ++ str_drop2 (description ion)
       ++ " (" ++ str_int (mass ion) ++ ")")%string.

(** [s.split('-')[0]] *)
Fixpoint before_dash (s : string) : string :=
  match s with
  | EmptyString => EmptyString
  | String c s' =>
      if Ascii.eqb c "-" then EmptyString else String c (before_dash s')
  end.

(** The name of the parental ion of a final group. *)
Definition parentalName (g : string * list indexed_ion) : result string :=
  match snd g with
  | [] => Raise IndexError
  | first :: _ =>
      let carbon := before_dash (fst g) in
      Ok ("C" ++ str_take2 carbon ++ ":" ++ str_drop2 carbon
              ++ " (" ++ str_int (imass first) ++ ")")%string
  end.

Fixpoint parentalNames (finalGroups : list (string * list indexed_ion))
  : result (list string) :=
  match finalGroups with
  | [] => Ok []
  | g :: finalGroups' =>
      name <- parentalName g ;;
      names <- parentalNames finalGroups' ;;
      Ok (name :: names)
  end.

(** What [_computeFileAttributes] stores about the columns: the type of the
    experiment, the order in which the columns are taken when they are
    reordered, their names, and the names of the parental ions. *)
Record attributes : Type := mkAttributes {
  experimentType : string;
  orderedIdx : option (list nat);
  dataColNames : list string;
  internalRefList : list string
}.

(** The part of [_computeFileAttributes] that names the columns; [letter]
    is the first letter of the first sample name. *)
Definition computeFileAttributes (letter : string)
    (columnsOfInterest : list string) : result attributes :=
  ionsDetected <- parseSampleColumns columnsOfInterest ;;
  let dataColNames := map dataColName ionsDetected in
  labeled <- isLabeledExperiment ionsDetected ;;
  if labeled then
    let finalGroups := getIonParentedGroups ionsDetected in
    _ <- (if String.eqb letter "F" then Ok tt
          else if List.length finalGroups =? 2 then Ok tt
          else Raise AssertionError) ;;
    let sortedIonNames := sortedIonNames finalGroups in
    (* the two tuples that [zip] unpacks into [orderedIdx] and
       [orderedIonNames] *)
    _ <- match sortedIonNames with
         | [] => Raise ValueError
         | _ :: _ => Ok tt
         end ;;
    refs <- parentalNames finalGroups ;;
    Ok (mkAttributes "Labeled" (Some (map fst sortedIonNames))
          (map snd sortedIonNames) refs)
  else Ok (mkAttributes "Not Labeled" None dataColNames dataColNames).

(** The labels that [df.filter(like=parentalIon)] keeps. *)
Definition filter_like (parentalIon : string) (labels : list string)
  : list string :=
  filter (contains parentalIon) labels.

End Columns.

(** ** MSDataContainer: the correction of all the ions *)

Module Container.

Import Np NAProcess Files Columns.

Local Open Scope nat_scope.

(** The entries of [l] at the positions that [keep] marks. *)
Definition pick {A : Type} (keep : list bool) (l : list A) : list A :=
  map snd (filter fst (combine keep l)).

(** [df.filter(like=parentalIon)] on the columns of the data. *)
Definition filter_frame (parentalIon : string) (df : DataFrame) : DataFrame :=
  let keep := map (contains parentalIon) (columns df) in
  mkDataFrame (pick keep (columns df))
    (mkArray (nrows (values df)) (List.length (pick keep (columns df)))
       (map (pick keep) (rows (values df)))).

(** [pd.concat([a, b], axis=1)] for two frames over the same rows. *)
Definition concat_columns (a b : DataFrame) : DataFrame :=
  mkDataFrame (columns a ++ columns b)
    (mkArray (nrows (values a)) (ncols (values a) + ncols (values b))
       (map (fun r => fst r ++ snd r)
            (combine (rows (values a)) (rows (values b))))).

Section Correction.

Variable pinv : ndarray -> ndarray.
Variable minimize :
  (list num -> result (num * list num)) -> list num -> list bound
  -> result (list num).

(** The loop of [MSDataContainer.correctForNaturalAbundance] over the
    parental ions that are left; [dataDf] holds the columns of the data. *)
Fixpoint correction_loop (tracer : string) (tracerPurity : list num)
    (cholesterol : bool) (NACMethod : string) (dataDf : DataFrame)
    (internalRefList : list string) (correctedData : DataFrame)
  : result DataFrame :=
  match internalRefList with
  | [] => Ok correctedData
  | parentalIon :: internalRefList' =>
      let ionMID := filter_frame parentalIon dataDf in
      if ncols (values ionMID) <=? 1 then
        correction_loop tracer tracerPurity cholesterol NACMethod dataDf
          internalRefList' (concat_columns correctedData ionMID)
      else
        ionNA <- init parentalIon tracer tracerPurity true cholesterol ;;
        correctedIonData <-
          NAProcess.correctForNaturalAbundance pinv minimize ionNA ionMID
            NACMethod ;;
        correction_loop tracer tracerPurity cholesterol NACMethod dataDf
          internalRefList' (concat_columns correctedData correctedIonData)
  end.

(** [MSDataContainer.correctForNaturalAbundance]: [metaDf] stands for the
    columns of [dataDf] that come before the data, with which
    [correctedData] begins, and [dataDf] for the columns of the data; the
    filters are taken on the columns of the data. *)
Definition correctForNaturalAbundance (tracer : string)
    (tracerPurity : list num) (cholesterol : bool) (NACMethod : string)
    (metaDf dataDf : DataFrame) (internalRefList : list string)
  : result DataFrame :=
  correction_loop tracer tracerPurity cholesterol NACMethod dataDf
    internalRefList metaDf.

End Correction.

End Container.

(** ** MSDataContainer: samples and standards *)

Module Samples.

Local Open Scope N_scope.

(** The name of a row is a Python [str], here the list of its code points:
    the two patterns below tell digits of all scripts from the digits [0]
    to [9]. *)
Definition str : Type := list N.

(** The code points of a text written in ASCII. *)
Fixpoint text (s : string) : str :=
  match s with
  | EmptyString => []
  | String c s' => N_of_ascii c :: text s'
  end.

(** [[0-9]] *)
Definition ascii_digit (c : N) : bool := (48 <=? c) && (c <=? 57).

(** [s] begins with [p]. *)
Fixpoint starts_with (p s : str) : bool :=
  match p, s with
  | [], _ => true
  | a :: p', b :: s' => (a =? b) && starts_with p' s'
  | _ :: _, [] => false
  end.

(** [$]: the end of the string, or the newline that ends it. *)
Definition at_end (s : str) : bool :=
  match s with
  | [] => true
  | [c] => c =? 10
  | _ => false
  end.

Section Digits.

(** [\d] in a pattern that is a [str] matches the decimal digits of
    Unicode, the characters of the category Nd: [0] to [9] and the digits of
    other scripts, which the version of Unicode decides. *)
Variable decimal : N -> bool.

(** The longest prefix of decimal digits, and what follows it: the greedy
    [\d+]. *)
Fixpoint span_decimal (s : str) : str * str :=
  match s with
  | [] => ([], [])
  | c :: s' =>
      if decimal c then
        let (ds, r) := span_decimal s' in (c :: ds, r)
      else ([], s)
  end.

(** [S\d+$] matched at the start of [s]; [S] is the code point 83. *)
Definition standard_code (s : str) : bool :=
  match s with
  | c :: r =>
      (c =? 83)
      && match span_decimal r with
         | (_ :: _, rest) => at_end rest
         | _ => false
         end
  | [] => false
  end.

(** [str.match('^(?!neg|S\d+$)')]: the rows of the samples. *)
Definition isSample (sampleName : str) : bool :=
  negb (starts_with (text "neg") sampleName || standard_code sampleName).

End Digits.

(** [str.match('S[0-9]+')]: the rows of the standards. *)
Definition isStandard (sampleName : str) : bool :=
  match sampleName with
  | c :: d :: _ => (c =? 83) && ascii_digit d
  | _ => false
  end.

(** A class of decimal digits to run the patterns on: [0] to [9] and the
    fullwidth digits, U+FF10 to U+FF19. *)
Definition ascii_or_fullwidth (c : N) : bool :=
  ascii_digit c || ((65296 <=? c) && (c <=? 65305)).

(** [s] does not go on with a decimal digit. *)
Definition no_decimal_ahead (decimal : N -> bool) (s : str) : Prop :=
  match s with
  | [] => True
  | c :: _ => decimal c = false
  end.

End Samples.

(** ** MSDataContainer: the parental ion of a column of the standards *)

Module ParentalIon.

Import Re.

Local Open Scope nat_scope.

(** [(C[0-9]+:[0-9]+) \(([0-9]+)\)] matched at the start of [ion]: the two
    groups. *)
Definition match_ion (ion : string) : option (string * string) :=
  match ion with
  | String "C" s1 =>
      match span_digits s1 with
      | (String _ _ as d1, String ":" s2) =>
          match span_digits s2 with
          | (String _ _ as d2, String " " (String "(" s3)) =>
              match span_digits s3 with
              | (String _ _ as mass, String ")" _) =>
                  Some (("C" ++ d1 ++ ":" ++ d2)%string, mass)
              | _ => None
              end
          | _ => None
          end
      | _ => None
      end
  | _ => None
  end.

(** [carbon \(([0-9]+)\)] matched at the start of [ion], for a [carbon]
    that [match_ion] has returned: the group. *)
Definition match_mass (carbon ion : string) : option string :=
  match strip_prefix (carbon ++ " (")%string ion with
  | Some s =>
      match span_digits s with
      | (String _ _ as mass, String ")" _) => Some mass
      | _ => None
      end
  | None => None
  end.

(** [massOfMatchingCarbons]; an ion that does not match has no [groups]. *)
Fixpoint massOfMatchingCarbons (carbon : string)
    (matchingCarbons : list (nat * string)) : result (list (nat * Z)) :=
  match matchingCarbons with
  | [] => Ok []
  | (i, ion) :: rest =>
      match match_mass carbon ion with
      | Some mass =>
          mass <- int mass ;;
          masses <- massOfMatchingCarbons carbon rest ;;
          Ok ((i, mass) :: masses)
      | None => Raise ValueError
      end
  end.

(** [_checkIfParentalIonDataExistsFor], over the columns of
    [standardDf_nMoles]: [Some parentalIon] for [[True, parentalIon]] and
    [None] for [[False]]; whatever is raised is caught. *)
Definition checkIfParentalIonDataExistsFor (columns : list string)
    (ion : string) : option string :=
  match match_ion ion with
  | Some (carbon, mass) =>
      match int mass with
      | Ok _ =>
          let matchingCarbons := filter (String.prefix carbon) columns in
          match matchingCarbons with
          | _ :: _ =>
              match massOfMatchingCarbons carbon (enumerate matchingCarbons)
              with
              | Ok masses =>
                  match rev (sorted (fun entry => snd entry) masses) with
                  | (idxHeaviest, _) :: _ =>
                      nth_error matchingCarbons idxHeaviest
                  | [] => None
                  end
              | Raise _ => None
              end
          | [] => None
          end
      | Raise _ => None
      end
  | None => None
  end.

End ParentalIon.

(** ** MSDataContainer: the labeled proportion *)

Module Proportions.

Import Np Standards.

Local Open Scope nat_scope.

(** [row.sum()], which leaves the NaN out. *)
Fixpoint nansum (row : list value) : num :=
  match row with
  | [] => 0%Qc
  | Some x :: row' => (x + nansum row')%Qc
  | None :: row' => nansum row'
  end.

(** [calculateLabeledProportion] on one row of the frame, in exact
    arithmetic, where the doubles of the program round the sum, the
    difference and the quotient; a division by zero is not a number of the
    model. *)
Definition calculateLabeledProportion (row : list value) : result value :=
  let total := nansum row in
  match row with
  | [] => Raise IndexError
  | first :: _ =>
      Ok match first with
         | Some m0 =>
             if Qc_eq_bool total 0%Qc then None
             else Some ((total - m0) / total)%Qc
         | None => None
         end
  end.

End Proportions.

(** ** Notions used to state the further properties *)

Module Measures.

Import Re Np NAProcess Standards.

Local Open Scope nat_scope.

(** Each character of [s] passes the test [f]. *)
Fixpoint every (f : ascii -> bool) (s : string) : bool :=
  match s with
  | EmptyString => true
  | String c s' => f c && every f s'
  end.

(** [s] has no digit. *)
Definition no_digits (s : string) : bool :=
  every (fun c => negb (is_digit c)) s.

(** The columns that come before the data in [dataDf]. *)
Definition metaColumns : list string :=
  ["Name"; "Data File"; "SampleID"; "SampleName"; "SampleWeight"; "Comments"].

(** A group whose ions have the description that the key of the group
    begins with, up to the dash. *)
Definition named_after_key
    (g : string * list MSDataContainer.indexed_ion) : Prop :=
  snd g <> []
  /\ Forall (fun e => MSDataContainer.idescription e
                      = Columns.before_dash (fst g)) (snd g).

(** Points of a standard curve that can be fitted: as many [x] as [y]
    values, two points or more, none of them NaN and no [y] zero. *)
Definition calibration_points (xs ys : list value) : Prop :=
  List.length xs = List.length ys
  /\ 2 <= List.length xs
  /\ Forall (fun x => x <> None) xs
  /\ Forall (fun y => exists v, y = Some v /\ v <> 0%Qc) ys.

(** The sum of the entries. *)
Fixpoint vsum (a : list num) : num :=
  match a with
  | [] => 0%Qc
  | x :: a' => (x + vsum a')%Qc
  end.

(** The entries below [k] are zero. *)
Definition zero_below (k : nat) (a : list num) : Prop :=
  forall j, j < k -> nth j a 0%Qc = 0%Qc.

(** The atoms of [atom] that the mass distribution vector counts in: those
    of the items of [elementDict] under that name, unless it is the
    tracer. *)
Fixpoint counted (items : dict Z) (atomTracer atom : string) : nat :=
  match items with
  | [] => 0
  | (a, n) :: items' =>
      (if String.eqb a atom && negb (String.eqb a atomTracer)
       then Z.to_nat n else 0)
      + counted items' atomTracer atom
  end.

(** [l1] is [l2] with some entries left out. *)
Inductive subsequence {A : Type} : list A -> list A -> Prop :=
| subsequence_nil : subsequence [] []
| subsequence_skip (x : A) (l1 l2 : list A) :
    subsequence l1 l2 -> subsequence l1 (x :: l2)
| subsequence_keep (x : A) (l1 l2 : list A) :
    subsequence l1 l2 -> subsequence (x :: l1) (x :: l2).

End Measures.

(** * Facts about [MSDataContainer] *)

Module MSDataContainerFacts.

Import MSDataContainer.

(** ** The Python helpers *)

Section Helpers.

Context {A : Type}.

Lemma enumerate_from_fst (start : nat) (l : list A) :
  map fst (enumerate_from start l) = seq start (List.length l).
Proof.
  revert start; induction l as [|x l IH]; intros start; simpl.
  - reflexivity.
  - now rewrite IH.
Qed.

Lemma enumerate_from_snd (start : nat) (l : list A) :
  map snd (enumerate_from start l) = l.
Proof.
  revert start; induction l as [|x l IH]; intros start; simpl.
  - reflexivity.
  - now rewrite IH.
Qed.

Lemma enumerate_length (l : list A) :
  List.length (enumerate l) = List.length l.
Proof.
  unfold enumerate.
  rewrite <- (length_map snd), enumerate_from_snd; reflexivity.
Qed.

Lemma enumerate_NoDup_fst (l : list A) : NoDup (map fst (enumerate l)).
Proof. unfold enumerate; rewrite enumerate_from_fst; apply seq_NoDup. Qed.

Lemma enumerate_from_nth_error (start : nat) (l : list A) (n : nat) (x : A) :
  nth_error l n = Some x ->
  nth_error (enumerate_from start l) n = Some (start + n, x).
Proof.
  revert start n; induction l as [|y l IH]; intros start [|n] H; simpl in *;
    try discriminate.
  - inversion H; subst; now rewrite Nat.add_0_r.
  - rewrite (IH (S start) n H); f_equal; f_equal; lia.
Qed.

Lemma groupby_concat (key : A -> string) (l : list A) :
  List.concat (map snd (groupby key l)) = l.
Proof.
  induction l as [|x l IH]; simpl.
  - reflexivity.
  - destruct (groupby key l) as [|[k g] rest] eqn:E; simpl in *.
    + now subst.
    + destruct (String.eqb (key x) k); simpl; now rewrite <- IH.
Qed.

Lemma groupby_nonempty (key : A -> string) (l : list A) :
  Forall (fun g => snd g <> []) (groupby key l).
Proof.
  induction l as [|x l IH]; simpl.
  - constructor.
  - destruct (groupby key l) as [|[k g] rest] eqn:E.
    + repeat constructor; discriminate.
    + inversion IH; subst.
      destruct (String.eqb (key x) k); repeat constructor;
        simpl; try discriminate; assumption.
Qed.

Lemma insert_sorted_perm (key : A -> Z) (x : A) (l : list A) :
  Permutation (insert_sorted key x l) (x :: l).
Proof.
  induction l as [|y l IH]; simpl.
  - apply Permutation_refl.
  - destruct (key x <=? key y)%Z.
    + apply Permutation_refl.
    + eapply perm_trans; [apply perm_skip, IH | apply perm_swap].
Qed.

Lemma sorted_perm (key : A -> Z) (l : list A) : Permutation (sorted key l) l.
Proof.
  induction l as [|x l IH]; simpl.
  - constructor.
  - eapply perm_trans; [apply insert_sorted_perm | now apply perm_skip].
Qed.

Lemma insert_sorted_sorted (key : A -> Z) (x : A) (l : list A) :
  LocallySorted (key_le key) l ->
  LocallySorted (key_le key) (insert_sorted key x l).
Proof.
  induction 1 as [|y|y z l Hl IH Hyz]; simpl.
  - constructor.
  - destruct (Z.leb_spec (key x) (key y)); repeat constructor;
      unfold key_le; lia.
  - destruct (Z.leb_spec (key x) (key y)).
    + repeat constructor; assumption.
    + simpl in IH. destruct (Z.leb_spec (key x) (key z)).
      * repeat constructor; unfold key_le in *; try assumption; lia.
      * constructor; assumption.
Qed.

Lemma sorted_sorted (key : A -> Z) (l : list A) :
  LocallySorted (key_le key) (sorted key l).
Proof.
  induction l as [|x l IH]; simpl.
  - constructor.
  - now apply insert_sorted_sorted.
Qed.

Lemma slice_skipn (start stop : nat) (l : list A) :
  start <= stop -> slice start stop l ++ skipn stop l = skipn start l.
Proof.
  intros H. unfold slice.
  replace (skipn stop l) with (skipn (stop - start) (skipn start l)).
  - apply firstn_skipn.
  - rewrite skipn_skipn. f_equal. lia.
Qed.

End Helpers.

(** ** Splitting a group is a partition of it *)

Lemma where_not_one_ascending (ds : list Z) :
  forall i start, start <= i + 1 -> ascending start (where_not_one i ds).
Proof.
  induction ds as [|d ds IH]; intros i start H; simpl.
  - exact I.
  - destruct (d =? 1)%Z.
    + apply IH; lia.
    + simpl; split; [assumption | apply IH; lia].
Qed.

Lemma split_loop_concat (key : string) (group : list indexed_ion) :
  forall idx start i,
    ascending start idx ->
    List.concat (map snd (split_loop key group idx start i))
    = skipn start group.
Proof.
  induction idx as [|e idx IH]; intros start i Hasc; simpl.
  - apply app_nil_r.
  - destruct Hasc as [Hle Hasc].
    rewrite (IH _ _ Hasc). now apply slice_skipn.
Qed.

Lemma split_group_concat (key : string) (group : list indexed_ion) :
  List.concat (map snd (split_group key group)) = group.
Proof.
  unfold split_group.
  destruct (Nat.eqb (List.length group) 1); [apply app_nil_r|].
  destruct (where_not_one 0 (differences (map imass group))) as [|e idx] eqn:E.
  - apply app_nil_r.
  - rewrite <- E. rewrite split_loop_concat; [reflexivity|].
    apply where_not_one_ascending; lia.
Qed.

Lemma final_groups_concat (gs : list (string * list indexed_ion)) :
  List.concat (map snd (flat_map (fun g => split_group (fst g) (snd g)) gs))
  = List.concat (map snd gs).
Proof.
  induction gs as [|[k g] gs IH]; simpl.
  - reflexivity.
  - rewrite map_app, concat_app, IH, split_group_concat. reflexivity.
Qed.

Lemma intra_sorted_perm (gs : list (string * list indexed_ion)) :
  Permutation
    (List.concat (map snd (map (fun g => (fst g, sorted imass (snd g))) gs)))
    (List.concat (map snd gs)).
Proof.
  induction gs as [|[k g] gs IH]; simpl.
  - constructor.
  - apply Permutation_app; [apply sorted_perm | exact IH].
Qed.

Lemma getIonParentedGroups_perm (ionsDetected : list ion) :
  Permutation (List.concat (map snd (getIonParentedGroups ionsDetected)))
              (enumerate ionsDetected).
Proof.
  unfold getIonParentedGroups, groupsIntraSorted.
  rewrite final_groups_concat.
  eapply perm_trans; [apply intra_sorted_perm|].
  rewrite groupby_concat. apply Permutation_refl.
Qed.

Lemma NoDup_app_disjoint {A : Type} (l1 l2 : list A) (a : A) :
  NoDup (l1 ++ l2) -> In a l1 -> ~ In a l2.
Proof.
  induction l1 as [|b l1 IH]; intros Hnd Ha Hc.
  - contradiction.
  - simpl in Hnd. inversion Hnd as [|? ? Hb Hnd']; subst.
    destruct Ha as [->|Ha].
    + apply Hb, in_or_app. now right.
    + now apply IH.
Qed.

Lemma In_nth_concat {A : Type} (ls : list (list A)) (x : A) (n : nat) :
  In x (nth n ls []) -> In x (List.concat ls).
Proof.
  intros Hn. apply in_concat. exists (nth n ls []). split; [|assumption].
  destruct (Nat.lt_ge_cases n (List.length ls)) as [Hlt|Hge].
  - now apply nth_In.
  - rewrite nth_overflow in Hn by assumption. contradiction.
Qed.

(** An element of a duplicate-free concatenation lies in one block only. *)
Lemma NoDup_concat_unique {A : Type} (ls : list (list A)) (x : A) :
  NoDup (List.concat ls) ->
  forall j k, In x (nth j ls []) -> In x (nth k ls []) -> j = k.
Proof.
  induction ls as [|l ls IH]; intros Hnd j k Hj Hk.
  - destruct j; contradiction.
  - simpl in Hnd.
    destruct j as [|j], k as [|k]; simpl in *.
    + reflexivity.
    + exfalso. eapply NoDup_app_disjoint; eauto using In_nth_concat.
    + exfalso. eapply NoDup_app_disjoint; eauto using In_nth_concat.
    + f_equal. apply IH; try assumption.
      eapply NoDup_app_remove_l; eassumption.
Qed.

End MSDataContainerFacts.

(** ** Splitting cuts at every step that is not one, and nowhere else *)

Module ClusterFacts.

Import MSDataContainer MSDataContainerFacts.

Lemma runs_cons2 (x y : indexed_ion) (g : list indexed_ion) :
  runs (x :: y :: g)
  = if (imass y - imass x =? 1)%Z then
      match runs (y :: g) with
      | r :: rs => (x :: r) :: rs
      | [] => [[x]]
      end
    else [x] :: runs (y :: g).
Proof. reflexivity. Qed.

Lemma differences_cons2 (a b : Z) (l : list Z) :
  differences (a :: b :: l) = (b - a)%Z :: differences (b :: l).
Proof. reflexivity. Qed.

Lemma where_not_one_S (ds : list Z) :
  forall i, where_not_one (S i) ds = map S (where_not_one i ds).
Proof.
  induction ds as [|d ds IH]; intros i; simpl.
  - reflexivity.
  - destruct (d =? 1)%Z; simpl; now rewrite IH.
Qed.

Lemma split_loop_shift (key : string) (x : indexed_ion) (g : list indexed_ion) :
  forall idx start i,
    map snd (split_loop key (x :: g) (map S idx) (S start) i)
    = map snd (split_loop key g idx start i).
Proof.
  induction idx as [|e idx IH]; intros start i; simpl.
  - reflexivity.
  - f_equal. apply (IH (e + 1) (S i)).
Qed.

Lemma split_loop_head (key : string) (x : indexed_ion) (g : list indexed_ion) :
  forall idx i,
    map snd (split_loop key (x :: g) (map S idx) 0 i)
    = match map snd (split_loop key g idx 0 i) with
      | r :: rs => (x :: r) :: rs
      | [] => [[x]]
      end.
Proof.
  intros [|e idx] i; simpl.
  - reflexivity.
  - unfold slice; simpl. rewrite Nat.sub_0_r. f_equal.
    apply (split_loop_shift key x g idx (e + 1) (S i)).
Qed.

Lemma split_loop_runs (key : string) (g : list indexed_ion) :
  forall i,
    map snd (split_loop key g (where_not_one 0 (differences (map imass g))) 0 i)
    = runs g.
Proof.
  induction g as [|x g IH]; intros i.
  - reflexivity.
  - destruct g as [|y g].
    + reflexivity.
    + change (map imass (x :: y :: g))
        with (imass x :: imass y :: map imass g).
      rewrite differences_cons2.
      rewrite runs_cons2. cbn [where_not_one].
      rewrite where_not_one_S.
      destruct (imass y - imass x =? 1)%Z.
      * rewrite split_loop_head.
        change (imass y :: map imass g) with (map imass (y :: g)).
        now rewrite IH.
      * cbn [split_loop map snd]. f_equal.
        change 1 with (S 0).
        change (0 + S 0) with (S 0).
        rewrite split_loop_shift.
        change (imass y :: map imass g) with (map imass (y :: g)).
        apply IH.
Qed.

(** What [split_group] returns, without the keys. *)
Lemma split_group_runs (key : string) (g : list indexed_ion) :
  map snd (split_group key g) = runs g.
Proof.
  unfold split_group.
  destruct (Nat.eqb_spec (List.length g) 1) as [H1|H1].
  - destruct g as [|x [|y g]]; try discriminate. reflexivity.
  - pose proof (split_loop_runs key g 0) as H.
    destruct (where_not_one 0 (differences (map imass g))); exact H.
Qed.

Lemma runs_head (x : indexed_ion) (g : list indexed_ion) :
  exists r rs, runs (x :: g) = (x :: r) :: rs.
Proof.
  revert x; induction g as [|y g IH]; intros x.
  - now exists [], [].
  - rewrite runs_cons2. destruct (imass y - imass x =? 1)%Z.
    + destruct (IH y) as (r & rs & ->). now exists (y :: r), rs.
    + now exists [], (runs (y :: g)).
Qed.

Lemma runs_concat (g : list indexed_ion) : List.concat (runs g) = g.
Proof.
  induction g as [|x g IH].
  - reflexivity.
  - destruct g as [|y g]; [reflexivity|].
    rewrite runs_cons2. destruct (imass y - imass x =? 1)%Z.
    + destruct (runs_head y g) as (r & rs & E). rewrite E in *.
      simpl in *. now rewrite IH.
    + change (List.concat ([x] :: runs (y :: g)))
        with (x :: List.concat (runs (y :: g))).
      now rewrite IH.
Qed.

Lemma runs_nonempty (g : list indexed_ion) :
  g <> [] -> Forall (fun c => c <> []) (runs g).
Proof.
  induction g as [|x g IH]; intros Hne; [contradiction|].
  destruct g as [|y g].
  - repeat constructor; discriminate.
  - assert (Hy : Forall (fun c => c <> []) (runs (y :: g)))
      by (apply IH; discriminate).
    rewrite runs_cons2. destruct (imass y - imass x =? 1)%Z.
    + destruct (runs_head y g) as (r & rs & E). rewrite E in *.
      inversion Hy; subst. constructor; [discriminate | assumption].
    + constructor; [discriminate | assumption].
Qed.

Lemma runs_unit_steps (g : list indexed_ion) : Forall unit_steps (runs g).
Proof.
  induction g as [|x g IH].
  - repeat constructor.
  - destruct g as [|y g].
    + repeat constructor.
    + rewrite runs_cons2.
      destruct (Z.eqb_spec (imass y - imass x) 1) as [E1|E1].
      * destruct (runs_head y g) as (r & rs & E). rewrite E in *.
        inversion IH; subst. constructor; [|assumption].
        simpl. split; assumption.
      * constructor; [exact I | assumption].
Qed.

Lemma runs_jumps (g : list indexed_ion) : jumps (runs g).
Proof.
  induction g as [|x g IH].
  - exact I.
  - destruct g as [|y g].
    + exact I.
    + rewrite runs_cons2.
      destruct (Z.eqb_spec (imass y - imass x) 1) as [E1|E1].
      * destruct (runs_head y g) as (r & rs & E). rewrite E in *.
        destruct rs as [|c2 rs]; [exact I|].
        destruct IH as [Hb IH]. split; [|exact IH].
        intros l1 a b l2 Hl1 Hc2.
        destruct l1 as [|x' l1]; [discriminate|].
        inversion Hl1; subst. eapply Hb; eauto.
      * destruct (runs_head y g) as (r & rs & E). rewrite E in *.
        split; [|exact IH].
        intros l1 a b l2 Hl1 Hc2.
        destruct l1 as [|x' [|? ?]]; inversion Hl1; subst.
        inversion Hc2; subst. exact E1.
Qed.

(** In a run the [n]-th ion is [n] mass units above the first. *)
Lemma unit_steps_nth (c : list indexed_ion) :
  unit_steps c ->
  forall first rest n e,
    c = first :: rest -> nth_error c n = Some e ->
    imass e = (imass first + Z.of_nat n)%Z.
Proof.
  induction c as [|x c IH]; intros Hu first rest n e Hc Hn; [discriminate|].
  inversion Hc; subst. destruct n as [|n].
  - inversion Hn; subst. lia.
  - destruct rest as [|y rest]; [destruct n; discriminate|].
    destruct Hu as [Hxy Hu].
    rewrite (IH Hu y rest n e eq_refl Hn). lia.
Qed.

Lemma groupIonNames_nth (first : indexed_ion) (rest : list indexed_ion)
    (n : nat) (e : indexed_ion) :
  nth_error (first :: rest) n = Some e ->
  nth_error (groupIonNames (first :: rest)) n = Some (fst e, ionName first n e).
Proof.
  intros Hn.
  change (groupIonNames (first :: rest))
    with (map (fun ne : nat * indexed_ion =>
                 (fst (snd ne), ionName first (fst ne) (snd ne)))
              (enumerate_from 0 (first :: rest))).
  rewrite nth_error_map.
  now rewrite (enumerate_from_nth_error 0 _ n e Hn).
Qed.

Lemma split_loop_keys (key : string) (g : list indexed_ion) :
  forall idx start i,
    map fst (split_loop key g idx start i)
    = map (fun j => (key ++ "-" ++ str_nat j)%string)
          (seq i (S (List.length idx))).
Proof.
  induction idx as [|e idx IH]; intros start i; simpl.
  - reflexivity.
  - f_equal. apply IH.
Qed.

End ClusterFacts.

(** ** The claims about ion clustering *)

Module ClusterClaims.

Import MSDataContainer MSDataContainerFacts ClusterFacts.

(** C4.  [itertools.groupby] only joins neighbours.  Five columns, four of
    description 160 and one of description 180 between them, make a labeled
    experiment, and the columns of description 160 end up in two groups,
    both under the key 160. *)
Theorem groupby_keeps_non_adjacent_columns_apart :
  let ionsDetected :=
    [mkIon 1 270 "160"; mkIon 2 271 "160"; mkIon 3 298 "180";
     mkIon 4 272 "160"; mkIon 5 273 "160"] in
  isLabeledExperiment ionsDetected = Ok true
  /\ getIonParentedGroups ionsDetected
     = [("160", [(0, mkIon 1 270 "160"); (1, mkIon 2 271 "160")]);
        ("180", [(2, mkIon 3 298 "180")]);
        ("160", [(3, mkIon 4 272 "160"); (4, mkIon 5 273 "160")])].
Proof. split; reflexivity. Qed.

Lemma groupsIntraSorted_sorted (ionsDetected : list ion) :
  Forall (fun g => LocallySorted (key_le imass) (snd g) /\ snd g <> [])
         (groupsIntraSorted ionsDetected).
Proof.
  unfold groupsIntraSorted. apply Forall_map.
  eapply Forall_impl; [|apply groupby_nonempty].
  intros [k g] Hne; simpl in *. split.
  - apply sorted_sorted.
  - intros E. apply Hne.
    apply Permutation_nil. rewrite <- E. apply sorted_perm.
Qed.

Lemma runs_labelled (g : list indexed_ion) :
  g <> [] -> Forall labelled_from_lowest (runs g).
Proof.
  intros Hne.
  pose proof (runs_unit_steps g) as Hu.
  pose proof (runs_nonempty g Hne) as Hn.
  rewrite Forall_forall in *. intros c Hc n e He.
  destruct c as [|first rest]; [now destruct (Hn _ Hc)|].
  exists first. split; [reflexivity|]. split.
  - eapply unit_steps_nth; eauto.
  - now apply groupIonNames_nth.
Qed.

(** C5.  Whatever the group, [split_group] cuts it into consecutive
    clusters: inside a cluster every mass step is one, between two clusters
    the step is not one, and the [n]-th ion of a cluster, which is named
    M.n, is [n] mass units above the first one.  The groups that reach
    [split_group] are sorted by mass.  Masses 100, 101, 102, 105, 106 under
    one description give clusters of sizes 3 and 2, labelled M.0 to M.2 and
    M.0 to M.1. *)
Theorem clusters_split_at_non_unit_steps :
  (forall ionsDetected,
      Forall (fun g => LocallySorted (key_le imass) (snd g) /\ snd g <> [])
             (groupsIntraSorted ionsDetected))
  /\ (forall key group,
         let clusters := map snd (split_group key group) in
         List.concat clusters = group
         /\ Forall unit_steps clusters
         /\ jumps clusters
         /\ (group = [] \/ Forall labelled_from_lowest clusters))
  /\ (let ionsDetected :=
        map (fun m => mkIon 1 m "160") [100; 101; 102; 105; 106]%Z in
      isLabeledExperiment ionsDetected = Ok true
      /\ map (fun g => (fst g, map imass (snd g)))
             (getIonParentedGroups ionsDetected)
         = [("160-0", [100; 101; 102]%Z); ("160-1", [105; 106]%Z)]
      /\ sortedIonNames (getIonParentedGroups ionsDetected)
         = [(0, "C16:0 (100) M.0"); (1, "C16:0 (100) M.1");
            (2, "C16:0 (100) M.2");
            (3, "C16:0 (105) M.0"); (4, "C16:0 (105) M.1")]).
Proof.
  split; [exact groupsIntraSorted_sorted|]. split.
  - intros key group clusters. subst clusters.
    rewrite split_group_runs.
    split; [apply runs_concat|].
    split; [apply runs_unit_steps|].
    split; [apply runs_jumps|].
    destruct group as [|x group]; [now left|right].
    apply runs_labelled; discriminate.
  - repeat split; reflexivity.
Qed.

(** C10.  The final groups hold the columns of the input, each with its
    index, once: their concatenation is a permutation of
    [enumerate(ionsDetected)], the sizes add up to the number of columns, no
    index occurs twice, and every column lies in one group only. *)
Theorem ion_grouping_is_partition (ionsDetected : list ion) :
  let groups := map snd (getIonParentedGroups ionsDetected) in
  Permutation (List.concat groups) (enumerate ionsDetected)
  /\ list_sum (map (@List.length indexed_ion) groups) = List.length ionsDetected
  /\ NoDup (map fst (List.concat groups))
  /\ Forall (fun e => exists k, In e (nth k groups [])
                                /\ forall j, In e (nth j groups []) -> j = k)
            (enumerate ionsDetected).
Proof.
  intros groups.
  pose proof (getIonParentedGroups_perm ionsDetected) as Hperm.
  fold groups in Hperm.
  assert (Hnd : NoDup (map fst (List.concat groups))).
  { eapply Permutation_NoDup.
    - apply Permutation_map, Permutation_sym, Hperm.
    - apply enumerate_NoDup_fst. }
  split; [exact Hperm|]. split.
  - rewrite <- length_concat, (Permutation_length Hperm).
    apply enumerate_length.
  - split; [exact Hnd|].
    apply Forall_forall. intros e He.
    apply (Permutation_in _ (Permutation_sym Hperm)) in He.
    apply in_concat in He. destruct He as (l & Hl & Hel).
    destruct (In_nth _ _ [] Hl) as (k & _ & Hk).
    exists k. split; [now rewrite Hk|].
    intros j Hj. apply (NoDup_concat_unique groups e); try assumption.
    + eapply NoDup_map_inv; eassumption.
    + now rewrite Hk.
Qed.

End ClusterClaims.

(** * Facts about [NAProcess] *)

(** ** The formula of a fatty acid and its composition *)

Module FormulaFacts.

Import Re Np NAProcess Notions.

Local Open Scope nat_scope.

Lemma all_digits_string_of_uint (u : Decimal.uint) :
  all_digits (NilEmpty.string_of_uint u) = true.
Proof. induction u; simpl; auto. Qed.

Lemma span_digits_app (ds r : string) :
  all_digits ds = true -> no_digit_ahead r ->
  span_digits (ds ++ r) = (ds, r).
Proof.
  intros Hds Hr. induction ds as [|c ds IH]; simpl in *.
  - destruct r as [|c r]; simpl in *; [reflexivity | now rewrite Hr].
  - apply andb_prop in Hds. destruct Hds as [Hc Hds].
    now rewrite Hc, (IH Hds).
Qed.

Lemma span_digits_all (s : string) :
  all_digits (fst (span_digits s)) = true.
Proof.
  induction s as [|c s IH]; simpl.
  - reflexivity.
  - destruct (is_digit c) eqn:Hc; [|reflexivity].
    destruct (span_digits s) as [ds r]. simpl in *. now rewrite Hc.
Qed.

Lemma findall_elements_skip (symbols : list string) (p r : string) :
  findall_elements symbols (String.length p) (p ++ r)
  = findall_elements symbols 0 r.
Proof.
  induction p as [|c p IH]; simpl.
  - destruct r; reflexivity.
  - exact IH.
Qed.

(** [str] of a positive int is its digits, and [int] reads them back. *)
Lemma str_int_positive (z : Z) :
  (0 < z)%Z ->
  exists c ds,
    str_int z = String c ds
    /\ all_digits (str_int z) = true
    /\ int (str_int z) = Ok z.
Proof.
  intros Hz. destruct z as [|p|p]; try lia.
  unfold str_int. simpl Z.to_int. simpl NilEmpty.string_of_int.
  destruct (NilEmpty.string_of_uint (Pos.to_uint p)) as [|c ds] eqn:E.
  - exfalso. apply (Unsigned.to_uint_nonnil p).
    pose proof (NilEmpty.usu (Pos.to_uint p)) as H. rewrite E in H.
    simpl in H. now inversion H.
  - exists c, ds. split; [reflexivity|]. split.
    + rewrite <- E. apply all_digits_string_of_uint.
    + unfold int. rewrite <- E at 1. rewrite NilEmpty.usu.
      unfold Z.of_uint. now rewrite Unsigned.of_to.
Qed.

Lemma int_nonneg (s : string) (z : Z) : int s = Ok z -> (0 <= z)%Z.
Proof.
  unfold int. destruct s; [discriminate|].
  destruct (NilEmpty.uint_of_string _); [|discriminate].
  intros H; inversion H; subst. unfold Z.of_uint. lia.
Qed.

Lemma NA_keys :
  keys getNaturalAbundanceDistributions = ["H"; "C"; "N"; "O"; "Si"; "S"].
Proof. reflexivity. Qed.

(** The matches in a part of the formula followed by [r]. *)
Lemma findall_formula_part (letter : string) (n : Z) (r : string) :
  In letter ["C"; "H"; "O"] ->
  no_digit_ahead r ->
  findall_elements symbols 0 (formula_part letter n ++ r)
  = (if (0 <? n)%Z then [(letter, str_int n)] else [])
      ++ findall_elements symbols 0 r.
Proof.
  intros Hl Hr. unfold formula_part.
  destruct (0 <? n)%Z eqn:Hn; [|reflexivity].
  apply Z.ltb_lt in Hn.
  destruct (str_int_positive n Hn) as (c & ds & E & Hd & _).
  pose proof (span_digits_app (str_int n) r Hd Hr) as Hspan.
  pose proof (findall_elements_skip symbols (str_int n) r) as Hskip.
  simpl in Hl. destruct Hl as [<-|[<-|[<-|[]]]];
    cbn [append findall_elements symbols match_element strip_prefix
         Ascii.eqb Bool.eqb String.length];
    rewrite Hspan; cbn [fst app];
    rewrite (Nat.add_comm 1), Nat.add_sub;
    now rewrite Hskip.
Qed.

Lemma count_elements_positive (el : string) (z : Z)
    (found : list (string * string)) (d : dict Z) :
  (0 < z)%Z ->
  count_elements ((el, str_int z) :: found) d
  = count_elements found (dict_add d el z).
Proof.
  intros Hz. destruct (str_int_positive z Hz) as (c & ds & E & _ & Hint).
  rewrite E in *. cbn [count_elements]. now rewrite Hint.
Qed.

(** The composition read back from a formula that [getFAFormulaString]
    writes for a fatty acid: a count that is not positive is not written,
    and reads as zero. *)
Lemma parse_generated_formula (c h : Z) :
  (0 <= c)%Z ->
  parseFormula getNaturalAbundanceDistributions
    (formula_part "C" c ++ formula_part "H" h
       ++ formula_part "Si" 0 ++ formula_part "O" 2)%string
  = Ok [("H", Z.max 0 h); ("C", c); ("N", 0%Z); ("O", 2%Z);
        ("Si", 0%Z); ("S", 0%Z)].
Proof.
  intros Hc. unfold parseFormula. rewrite NA_keys. fold symbols.
  change (formula_part "Si" 0 ++ formula_part "O" 2)%string with "O2".
  assert (Hr : no_digit_ahead (formula_part "H" h ++ "O2")).
  { unfold formula_part. destruct (0 <? h)%Z; reflexivity. }
  rewrite (findall_formula_part "C" c _ (or_introl eq_refl) Hr).
  rewrite (findall_formula_part "H" h "O2"
             (or_intror (or_introl eq_refl)) eq_refl).
  change (findall_elements symbols 0 "O2") with [("O", "2")].
  destruct (Z.ltb_spec 0 c) as [Hc0|Hc0], (Z.ltb_spec 0 h) as [Hh0|Hh0];
    cbn [app map symbols];
    rewrite ?count_elements_positive by assumption;
    cbn; repeat f_equal; lia.
Qed.

Lemma composition_eq (h h' c c' : Z) (others : dict Z) :
  h = h' -> c = c' ->
  @Ok (dict Z) (("H", h) :: ("C", c) :: others)
  = Ok (("H", h') :: ("C", c') :: others).
Proof. now intros -> ->. Qed.

(** C6, as the code has it.  With the cholesterol flag unset, the chain
    notation Cn:d resolves to carbon [n], hydrogen [3+(n-2)*2+1-2d] and
    oxygen 2, with one carbon and two hydrogens more when the acid is
    derivatized; a hydrogen count that the rule makes negative resolves to
    zero, because [getFAFormulaString] writes positive counts only.  With the
    cholesterol flag set the composition is C30 H54 Si1 O1.  The chain C16:0,
    derivatized, resolves to C17 H34 O2. *)
Theorem chain_composition (entry : string) (FAMES : bool) (n d : Z) :
  chain_numbers entry = Ok (n, d) ->
  resolve entry FAMES false
  = Ok [("H", Z.max 0 (3 + (n - 2) * 2 + 1 - 2 * d
                       + (if FAMES then 2 else 0)));
        ("C", (n + (if FAMES then 1 else 0))%Z);
        ("N", 0%Z); ("O", 2%Z); ("Si", 0%Z); ("S", 0%Z)]
  /\ resolve entry FAMES true
     = Ok [("H", 54%Z); ("C", 30%Z); ("N", 0%Z); ("O", 1%Z);
           ("Si", 1%Z); ("S", 0%Z)]
  /\ resolve "C16:0" true false
     = Ok [("H", 34%Z); ("C", 17%Z); ("N", 0%Z); ("O", 2%Z);
           ("Si", 0%Z); ("S", 0%Z)].
Proof.
  intros H. unfold chain_numbers in H.
  destruct (first_chain entry) as [[s1 s2]|] eqn:Hchain; [|discriminate].
  cbn [bind fst snd] in H.
  destruct (int s1) as [c|] eqn:Hc; [|discriminate].
  destruct (int s2) as [b|] eqn:Hb; [|discriminate].
  cbn [bind] in H. inversion H; subst c b; clear H.
  pose proof (int_nonneg _ _ Hc) as Hn.
  split; [|split].
  - unfold resolve, getFAFormulaString.
    rewrite Hchain. cbn [bind fst snd]. rewrite Hc, Hb. cbn [bind].
    rewrite parse_generated_formula by (destruct FAMES; lia).
    destruct FAMES; apply composition_eq; lia.
  - unfold resolve, getFAFormulaString.
    rewrite Hchain. cbn [bind fst snd]. rewrite Hc, Hb. cbn [bind].
    destruct FAMES; reflexivity.
  - reflexivity.
Qed.

Lemma chain_composition_C16 :
  resolve "C16:0" true false
  = Ok [("H", Z.max 0 (3 + (16 - 2) * 2 + 1 - 2 * 0 + 2));
        ("C", (16 + 1)%Z); ("N", 0%Z); ("O", 2%Z); ("Si", 0%Z); ("S", 0%Z)].
Proof. exact (proj1 (chain_composition "C16:0" true 16 0 eq_refl)). Defined.

(** The chain C1:5 is read, and the rule gives it -8 hydrogens; its
    composition has none. *)
Lemma negative_hydrogen_resolves_to_zero :
  ~ (forall entry FAMES n d comp,
        chain_numbers entry = Ok (n, d) ->
        resolve entry FAMES false = Ok comp ->
        dict_get comp "H"
        = Ok (3 + (n - 2) * 2 + 1 - 2 * d + (if FAMES then 2 else 0))%Z).
Proof.
  intros H.
  specialize (H "C1:5" false 1%Z 5%Z _ eq_refl eq_refl).
  discriminate H.
Qed.

End FormulaFacts.

(** ** Convolution *)

Module ConvolveFacts.

Import Np Notions.

Local Open Scope nat_scope.

Lemma nth_vadd (a b : list num) (k : nat) :
  nth k (vadd a b) 0%Qc = (nth k a 0%Qc + nth k b 0%Qc)%Qc.
Proof.
  revert b k; induction a as [|x a IH]; intros b k.
  - destruct k; simpl; ring.
  - destruct b as [|y b], k as [|k]; simpl; try ring. apply IH.
Qed.

Lemma nth_scale (x : num) (v : list num) (k : nat) :
  nth k (map (Qcmult x) v) 0%Qc = (x * nth k v 0%Qc)%Qc.
Proof.
  revert k; induction v as [|y v IH]; intros k.
  - destruct k; simpl; ring.
  - destruct k as [|k]; simpl; [reflexivity | apply IH].
Qed.

Lemma nth_convolve_full (a v : list num) :
  forall k, nth k (convolve_full a v) 0%Qc = conv_at a v k.
Proof.
  induction a as [|x a IH]; intros k.
  - destruct k; reflexivity.
  - cbn [convolve_full conv_at].
    rewrite nth_vadd, nth_scale. f_equal.
    destruct k as [|k]; [reflexivity | apply IH].
Qed.

Lemma conv_at_unfold (a v : list num) (k : nat) :
  conv_at a v k
  = (nth 0 a 0%Qc * nth k v 0%Qc
     + match k with
       | O => 0%Qc
       | S k' => conv_at (tl a) v k'
       end)%Qc.
Proof.
  destruct a as [|x a]; [|reflexivity].
  destruct k; simpl; ring.
Qed.

Lemma nth_tl (a : list num) (i : nat) :
  nth i (tl a) 0%Qc = nth (S i) a 0%Qc.
Proof. destruct a; [destruct i|]; reflexivity. Qed.

Lemma conv_at_agree (v : list num) :
  forall k a b, agree (S k) a b -> conv_at a v k = conv_at b v k.
Proof.
  induction k as [|k IH]; intros a b H;
    rewrite (conv_at_unfold a), (conv_at_unfold b);
    rewrite (H 0 (Nat.lt_0_succ _)).
  - reflexivity.
  - f_equal. apply IH. intros i Hi. rewrite !nth_tl. apply H. lia.
Qed.

Lemma agree_le (m m' : nat) (a b : list num) :
  m' <= m -> agree m a b -> agree m' a b.
Proof. intros Hle H i Hi. apply H. lia. Qed.

Lemma agree_trans (m : nat) (a b c : list num) :
  agree m a b -> agree m b c -> agree m a c.
Proof. intros H1 H2 i Hi. now rewrite H1, H2. Qed.

Lemma convolve_full_agree (m : nat) (a b v : list num) :
  agree m a b -> agree m (convolve_full a v) (convolve_full b v).
Proof.
  intros H i Hi. rewrite !nth_convolve_full.
  apply conv_at_agree. eapply agree_le; [|exact H]. lia.
Qed.

Lemma firstn_agree (m : nat) (a : list num) : agree m (firstn m a) a.
Proof.
  intros i Hi. revert i a Hi.
  induction m as [|m IH]; intros i a Hi; [lia|].
  destruct a as [|x a]; [reflexivity|].
  destruct i as [|i]; simpl; [reflexivity|]. apply IH. lia.
Qed.

Lemma resize_agree (m : nat) (a : list num) :
  List.length a <= m -> agree m (resize m a) a.
Proof.
  intros Hle i Hi. unfold resize. rewrite firstn_all2 by assumption.
  destruct (Nat.lt_ge_cases i (List.length a)) as [Hlt|Hge].
  - now rewrite app_nth1.
  - rewrite app_nth2 by assumption. rewrite nth_repeat.
    now rewrite nth_overflow.
Qed.

Lemma agree_eq (m : nat) (a b : list num) :
  List.length a = m -> List.length b = m -> agree m a b -> a = b.
Proof.
  intros Ha Hb H. apply (nth_ext a b 0%Qc 0%Qc); [congruence|].
  intros i Hi. apply H. congruence.
Qed.

Lemma length_vadd (a b : list num) :
  List.length (vadd a b) = Nat.max (List.length a) (List.length b).
Proof.
  revert b; induction a as [|x a IH]; intros [|y b]; simpl; try reflexivity.
  now rewrite IH.
Qed.

Lemma length_convolve_full (a v : list num) :
  a <> [] -> v <> [] ->
  List.length (convolve_full a v) = List.length a + List.length v - 1.
Proof.
  intros Ha Hv. induction a as [|x a IH]; [contradiction|].
  cbn [convolve_full]. rewrite length_vadd, length_map.
  cbn [List.length].
  destruct a as [|y a].
  - destruct v; [contradiction|]. cbn [convolve_full List.length]. lia.
  - rewrite IH by discriminate. cbn [List.length]. lia.
Qed.

(** [np.convolve] computes the convolution entry by entry. *)
Lemma convolve_full_convolution (a v : list num) :
  a <> [] -> v <> [] -> convolve_full a v = convolution a v.
Proof.
  intros Ha Hv. unfold convolution.
  apply (nth_ext _ _ 0%Qc (conv_at a v 0)).
  - now rewrite length_convolve_full, length_map, length_seq.
  - intros k Hk. rewrite length_convolve_full in Hk by assumption.
    rewrite nth_convolve_full, map_nth, seq_nth by exact Hk.
    reflexivity.
Qed.

Lemma convolution_nonempty (a v : list num) :
  a <> [] -> v <> [] -> convolution a v <> [].
Proof.
  intros Ha Hv H. apply (f_equal (@List.length num)) in H.
  unfold convolution in H. rewrite length_map, length_seq in H.
  destruct a, v; try contradiction. simpl in H. lia.
Qed.

End ConvolveFacts.

(** ** The correction matrix *)

Module MatrixFacts.

Import Re Np NAProcess ConvolveFacts Notions.

Local Open Scope nat_scope.

Lemma convolve_Ok (a v c : list num) :
  convolve a v = Ok c -> a <> [] /\ v <> [] /\ c = convolve_full a v.
Proof.
  unfold convolve. destruct a as [|x a]; [discriminate|].
  destruct v as [|y v]; [discriminate|].
  intros H; inversion H. repeat split; discriminate.
Qed.

Lemma convolve_defined (a v : list num) :
  a <> [] -> v <> [] -> convolve a v = Ok (convolve_full a v).
Proof. destruct a, v; intros; try contradiction; reflexivity. Qed.

Lemma nonempty_length {A : Type} (l : list A) : l <> [] <-> 1 <= List.length l.
Proof. destruct l; simpl; split; intros; try lia; congruence. Qed.

(** The cut convolutions keep the length [m] of the column. *)
Lemma convolve_times_cut_length (v : list num) (m : nat) :
  forall n col out,
    convolve_times n (Some m) col v = Ok out ->
    List.length col = m -> List.length out = m.
Proof.
  induction n as [|n IH]; intros col out H Hlen; simpl in H.
  - now inversion H; subst.
  - destruct (convolve col v) as [c|] eqn:Hc; [|discriminate].
    cbn [bind] in H. apply (IH _ _ H).
    apply convolve_Ok in Hc. destruct Hc as (Ha & Hv & ->).
    rewrite length_firstn, length_convolve_full by assumption.
    apply nonempty_length in Hv. lia.
Qed.

Lemma convolve_times_cut_defined (v : list num) (m : nat) :
  v <> [] -> 1 <= m ->
  forall n col,
    List.length col = m ->
    exists out, convolve_times n (Some m) col v = Ok out.
Proof.
  intros Hv Hm. induction n as [|n IH]; intros col Hlen; simpl.
  - now exists col.
  - assert (Hc : col <> []) by (apply nonempty_length; lia).
    rewrite (convolve_defined _ _ Hc Hv). cbn [bind].
    apply IH. rewrite length_firstn, length_convolve_full by assumption.
    apply nonempty_length in Hv. lia.
Qed.

(** The cut convolutions agree, below [m], with the uncut ones. *)
Lemma convolve_times_agree (v : list num) (m : nat) :
  forall n col out whole,
    convolve_times n (Some m) col v = Ok out ->
    agree m col whole -> whole <> [] ->
    exists full,
      convolve_times n None whole v = Ok full
      /\ agree m out full
      /\ List.length full = List.length whole + n * (List.length v - 1).
Proof.
  induction n as [|n IH]; intros col out whole H Hag Hne; simpl in H.
  - inversion H; subst. exists whole. repeat split; [assumption | simpl; lia].
  - destruct (convolve col v) as [c|] eqn:Hc; [|discriminate].
    cbn [bind] in H. apply convolve_Ok in Hc. destruct Hc as (Ha & Hv & ->).
    assert (Hlen : List.length (convolve_full whole v)
                   = List.length whole + List.length v - 1)
      by now apply length_convolve_full.
    assert (Hne' : convolve_full whole v <> []).
    { apply nonempty_length. rewrite Hlen.
      apply nonempty_length in Hne, Hv. lia. }
    destruct (IH _ _ (convolve_full whole v) H) as (full & Hfull & Hagf & Hl).
    + eapply agree_trans; [apply firstn_agree|].
      now apply convolve_full_agree.
    + assumption.
    + exists full. cbn [convolve_times].
      rewrite (convolve_defined _ _ Hne Hv). cbn [bind].
      repeat split; try assumption.
      rewrite Hl, Hlen. apply nonempty_length in Hne, Hv. lia.
Qed.

Lemma convolve_times_nonempty (v : list num) :
  forall n col out,
    convolve_times n None col v = Ok out -> col <> [] -> out <> [].
Proof.
  induction n as [|n IH]; intros col out H Hne; simpl in H.
  - now inversion H; subst.
  - destruct (convolve col v) as [c|] eqn:Hc; [|discriminate].
    cbn [bind] in H. apply (IH _ _ H).
    apply convolve_Ok in Hc. destruct Hc as (Ha & Hv & ->).
    apply nonempty_length. rewrite length_convolve_full by assumption.
    apply nonempty_length in Ha, Hv. lia.
Qed.

Lemma mass_distribution_loop_nonempty (atomTracer : string)
    (NADistributions : dict (list num)) :
  forall items result out,
    mass_distribution_loop items atomTracer NADistributions result = Ok out ->
    result <> [] -> out <> [].
Proof.
  induction items as [|[atom n] items IH]; intros result out H Hne;
    cbn [mass_distribution_loop] in H.
  - now inversion H; subst.
  - destruct (String.eqb atom atomTracer); [now apply (IH _ _ H)|].
    destruct (Z.to_nat n) as [|k]; [now apply (IH _ _ H)|].
    destruct (dict_get NADistributions atom) as [v|]; [|discriminate].
    cbn [bind] in H.
    destruct (convolve_times (S k) None result v) as [r|] eqn:Hr;
      [|discriminate].
    cbn [bind] in H. apply (IH _ _ H).
    eapply convolve_times_nonempty; eassumption.
Qed.

Lemma calculateMassDistributionVector_nonempty (elementDict : dict Z)
    (atomTracer : string) (NADistributions : dict (list num))
    (base : list num) :
  calculateMassDistributionVector elementDict atomTracer NADistributions
  = Ok base ->
  base <> [].
Proof.
  intros H. eapply mass_distribution_loop_nonempty; [exact H | discriminate].
Qed.

Lemma convolve_times_defined (v : list num) :
  v <> [] ->
  forall n col, col <> [] -> exists out, convolve_times n None col v = Ok out.
Proof.
  intros Hv. induction n as [|n IH]; intros col Hc; simpl.
  - now exists col.
  - rewrite (convolve_defined _ _ Hc Hv). cbn [bind]. apply IH.
    apply nonempty_length. rewrite length_convolve_full by assumption.
    apply nonempty_length in Hc, Hv. lia.
Qed.

Lemma mass_distribution_loop_defined (atomTracer : string)
    (NADistributions : dict (list num)) :
  forall items result,
    Forall (countable atomTracer NADistributions) items ->
    result <> [] ->
    exists out,
      mass_distribution_loop items atomTracer NADistributions result = Ok out.
Proof.
  induction items as [|[atom n] items IH]; intros result Hall Hne;
    cbn [mass_distribution_loop].
  - now exists result.
  - inversion Hall as [|? ? Hit Hall']; subst.
    destruct (String.eqb_spec atom atomTracer) as [E|E]; [now apply IH|].
    destruct (Z.to_nat n) as [|k]; [now apply IH|].
    destruct Hit as [Hit|(v & Hv & Hvne)]; [contradiction|].
    cbn [fst] in Hv. rewrite Hv. cbn [bind].
    destruct (convolve_times_defined v Hvne (S k) result Hne) as (r & Hr).
    rewrite Hr. cbn [bind]. apply IH; [assumption|].
    eapply convolve_times_nonempty; eassumption.
Qed.

(** *** The loops compute convolutions *)

Lemma convolve_times_convolved (v : list num) :
  forall n col out,
    convolve_times n None col v = Ok out -> col <> [] ->
    out = convolved n v col.
Proof.
  induction n as [|n IH]; intros col out H Hne; simpl in H.
  - now inversion H.
  - destruct (convolve col v) as [c|] eqn:Hc; [|discriminate].
    cbn [bind] in H. apply convolve_Ok in Hc. destruct Hc as (_ & Hv & ->).
    rewrite convolve_full_convolution in H by assumption.
    unfold convolved. cbn [repeat fold_left].
    apply (IH _ _ H). now apply convolution_nonempty.
Qed.

Lemma mass_distribution_loop_convolution (atomTracer : string)
    (NADistributions : dict (list num)) :
  forall items result out,
    mass_distribution_loop items atomTracer NADistributions result = Ok out ->
    result <> [] ->
    out = fold_left convolution
            (non_tracer_distributions items atomTracer NADistributions)
            result.
Proof.
  induction items as [|[atom n] items IH]; intros result out H Hne;
    cbn [mass_distribution_loop] in H.
  - now inversion H.
  - unfold non_tracer_distributions. cbn [flat_map fst snd].
    fold (non_tracer_distributions items atomTracer NADistributions).
    destruct (String.eqb atom atomTracer); [now apply IH|].
    destruct (Z.to_nat n) as [|k] eqn:Hk.
    + destruct (dict_get NADistributions atom); now apply IH.
    + destruct (dict_get NADistributions atom) as [v|]; [|discriminate].
      cbn [bind] in H.
      destruct (convolve_times (S k) None result v) as [r|] eqn:Hr;
        [|discriminate].
      cbn [bind] in H. rewrite fold_left_app.
      pose proof (convolve_times_nonempty _ _ _ _ Hr Hne) as Hrne.
      apply convolve_times_convolved in Hr; [|exact Hne].
      unfold convolved in Hr. rewrite <- Hr. now apply IH.
Qed.

(** [__calculateMassDistributionVector] returns the base correction
    vector. *)
Lemma calculateMassDistributionVector_convolution (elementDict : dict Z)
    (atomTracer : string) (NADistributions : dict (list num))
    (base : list num) :
  calculateMassDistributionVector elementDict atomTracer NADistributions
  = Ok base ->
  base = base_correction_vector elementDict atomTracer NADistributions.
Proof.
  intros H. unfold base_correction_vector.
  apply (mass_distribution_loop_convolution _ _ _ _ _ H). discriminate.
Qed.

(** *** Writing the columns *)

Lemma zeros_well_shaped (r c : nat) : well_shaped (zeros r c).
Proof.
  split; simpl.
  - apply repeat_length.
  - apply Forall_forall. intros x Hx. apply repeat_spec in Hx. subst.
    apply repeat_length.
Qed.

Lemma length_set_nth (i : nat) (x : num) (row : list num) :
  List.length (set_nth i x row) = List.length row.
Proof.
  revert i; induction row as [|y row IH]; intros [|i]; simpl; auto.
Qed.

Lemma nth_set_nth_same (i : nat) (x : num) (row : list num) :
  i < List.length row -> nth i (set_nth i x row) 0%Qc = x.
Proof.
  revert i; induction row as [|y row IH]; intros [|i] H; simpl in *;
    try lia; [reflexivity | apply IH; lia].
Qed.

Lemma nth_set_nth_other (i j : nat) (x : num) (row : list num) :
  i <> j -> nth j (set_nth i x row) 0%Qc = nth j row 0%Qc.
Proof.
  revert i j; induction row as [|y row IH]; intros [|i] [|j] H; simpl;
    try reflexivity; try contradiction.
  apply IH. congruence.
Qed.

Lemma write_column_spec (i w : nat) :
  forall rs col,
    List.length col = List.length rs ->
    Forall (fun r => List.length r = w) rs ->
    i < w ->
    List.length (write_column i rs col) = List.length rs
    /\ Forall (fun r => List.length r = w) (write_column i rs col)
    /\ map (fun r => nth i r 0%Qc) (write_column i rs col) = col
    /\ (forall j, i <> j ->
         map (fun r => nth j r 0%Qc) (write_column i rs col)
         = map (fun r => nth j r 0%Qc) rs).
Proof.
  induction rs as [|r rs IH]; intros [|x col] Hlen Hw Hi;
    try discriminate.
  - repeat split; constructor.
  - inversion Hw as [|? ? Hr Hrs]; subst.
    destruct (IH col) as (H1 & H2 & H3 & H4); try assumption.
    { simpl in Hlen. lia. }
    unfold write_column in *. cbn [combine map fst snd List.length].
    repeat split.
    + now rewrite H1.
    + constructor; [now rewrite length_set_nth | assumption].
    + rewrite H3, nth_set_nth_same by assumption. reflexivity.
    + intros j Hj. rewrite (H4 j Hj), nth_set_nth_other by assumption.
      reflexivity.
Qed.

Lemma set_column_spec (a : ndarray) (i : nat) (col : list num) :
  well_shaped a -> i < ncols a -> List.length col = nrows a ->
  exists a',
    set_column a i col = Ok a'
    /\ well_shaped a' /\ shape a' = shape a
    /\ column a' i = col
    /\ (forall j, i <> j -> column a' j = column a j).
Proof.
  intros [Hr Hc] Hi Hlen. unfold set_column.
  apply Nat.ltb_lt in Hi as Hi'. rewrite Hi'. cbn [negb].
  rewrite (proj2 (Nat.eqb_eq _ _) Hlen).
  destruct (write_column_spec i (ncols a) (rows a) col)
    as (H1 & H2 & H3 & H4); try assumption; try congruence.
  eexists. split; [reflexivity|].
  repeat split; cbn [nrows ncols rows]; try assumption.
  now rewrite <- Hr.
Qed.

Lemma correction_column_length (cv : list num) (m n i : nat)
    (p t col : list num) :
  m <= List.length cv ->
  correction_column cv m n i p t = Ok col ->
  List.length col = m.
Proof.
  intros Hm H. unfold correction_column in H.
  destruct (convolve_times i (Some m) (firstn m cv) p) as [c|] eqn:Hc;
    [|discriminate].
  cbn [bind] in H.
  eapply convolve_times_cut_length; [exact H|].
  eapply convolve_times_cut_length; [exact Hc|].
  rewrite length_firstn. lia.
Qed.

(** What the loop over the columns leaves in the matrix. *)
Lemma fill_columns_spec (cv : list num) (m n : nat) (p t : list num) :
  m <= List.length cv ->
  forall indices a M,
    well_shaped a -> nrows a = m ->
    Forall (fun i => i < ncols a) indices -> NoDup indices ->
    fill_columns indices a cv m n p t = Ok M ->
    well_shaped M /\ shape M = shape a
    /\ (forall i, In i indices ->
         correction_column cv m n i p t = Ok (column M i))
    /\ (forall j, ~ In j indices -> column M j = column a j).
Proof.
  intros Hm. induction indices as [|i indices IH];
    intros a M Hwa Hra Hin Hnd H; cbn [fill_columns] in H.
  - inversion H; subst. repeat split; try apply Hwa. intros i [].
  - destruct (correction_column cv m n i p t) as [col|] eqn:Hcol;
      [|discriminate].
    cbn [bind] in H.
    inversion Hin as [|? ? Hi Hin']; subst.
    inversion Hnd as [|? ? Hni Hnd']; subst.
    pose proof (correction_column_length _ _ _ _ _ _ _ Hm Hcol) as Hlen.
    destruct (set_column_spec a i col Hwa Hi Hlen)
      as (a' & Ha' & Hwa' & Hsh & Hci & Hcj).
    rewrite Ha' in H. cbn [bind] in H.
    assert (Hsh' := Hsh). unfold shape in Hsh'. inversion Hsh' as [[Hr' Hc']].
    destruct (IH a' M Hwa') as (HwM & HshM & Hcols & Hrest);
      try assumption; try congruence.
    { now rewrite Hc'. }
    split; [exact HwM|]. split; [congruence|]. rewrite ?Hr'. split.
    + intros k [<-|Hk].
      * rewrite (Hrest i Hni), Hci. congruence.
      * now apply Hcols.
    + intros j Hj. rewrite Hrest by (intros Hj'; apply Hj; now right).
      apply Hcj. intros ->. apply Hj. now left.
Qed.

(** *** The matrix that [computeCorrectionMatrix] returns *)

Lemma padded_length (m : Z) (base : list num) :
  Z.to_nat m <= List.length (padded m base).
Proof.
  unfold padded. destruct (Z.ltb_spec (Z.of_nat (List.length base)) m).
  - unfold resize. rewrite length_app, length_firstn, repeat_length. lia.
  - lia.
Qed.

Lemma padded_agree (m : Z) (base : list num) :
  agree (Z.to_nat m) (padded m base) base.
Proof.
  unfold padded. destruct (Z.ltb_spec (Z.of_nat (List.length base)) m).
  - apply resize_agree. lia.
  - intros i _. reflexivity.
Qed.

Lemma computeCorrectionMatrix_spec (elementDict : dict Z) (atomTracer : string)
    (NADistributions : dict (list num)) (purityTracer : list num)
    (M : ndarray) :
  computeCorrectionMatrix elementDict atomTracer NADistributions purityTracer
  = Ok M ->
  exists base n t,
    calculateMassDistributionVector elementDict atomTracer NADistributions
    = Ok base
    /\ dict_get elementDict atomTracer = Ok n
    /\ dict_get NADistributions atomTracer = Ok t
    /\ (0 <= matrix_height n t)%Z /\ (0 <= n + 1)%Z
    /\ well_shaped M
    /\ shape M = (Z.to_nat (matrix_height n t), Z.to_nat (n + 1))
    /\ (forall i, i < Z.to_nat (n + 1) ->
         correction_column (padded (matrix_height n t) base)
           (Z.to_nat (matrix_height n t)) (Z.to_nat n) i purityTracer t
         = Ok (column M i)).
Proof.
  unfold computeCorrectionMatrix. intros H.
  destruct (calculateMassDistributionVector _ _ _) as [base|] eqn:Hbase;
    [|discriminate].
  cbn [bind] in H.
  destruct (dict_get NADistributions atomTracer) as [t|] eqn:Ht;
    [|discriminate].
  cbn [bind] in H.
  destruct (dict_get elementDict atomTracer) as [n|] eqn:Hn; [|discriminate].
  cbn [bind] in H.
  fold (matrix_height n t) in H. fold (padded (matrix_height n t) base) in H.
  destruct (Z.ltb_spec (matrix_height n t) 0) as [Hm|Hm]; [discriminate|].
  destruct (Z.ltb_spec (n + 1) 0) as [Hn1|Hn1]; [discriminate|].
  cbn [orb] in H.
  exists base, n, t. do 5 (split; [assumption || reflexivity|]).
  assert (Hin : Forall (fun i => i < ncols (zeros (Z.to_nat (matrix_height n t))
                                                 (Z.to_nat (n + 1))))
                      (seq 0 (Z.to_nat (n + 1)))).
  { apply Forall_forall. intros i Hi. apply in_seq in Hi.
    cbn [zeros ncols]. lia. }
  destruct (fill_columns_spec _ _ _ _ _ (padded_length _ base) _ _ _
              (zeros_well_shaped _ _) eq_refl Hin (seq_NoDup _ _) H)
    as (Hw & Hsh & Hcols & _).
  split; [exact Hw|]. split; [exact Hsh|].
  intros i Hi. apply Hcols. apply in_seq. lia.
Qed.

(** Column 0 for one tracer atom or more: nothing is convolved with the
    purity, and the cuts after each convolution come to one cut at the
    end. *)
Lemma first_column_uncut (elementDict : dict Z) (atomTracer : string)
    (NADistributions : dict (list num)) (purityTracer : list num)
    (M : ndarray) (n : Z) :
  computeCorrectionMatrix elementDict atomTracer NADistributions purityTracer
  = Ok M ->
  dict_get elementDict atomTracer = Ok n ->
  (1 <= n)%Z ->
  exists base t full,
    calculateMassDistributionVector elementDict atomTracer NADistributions
    = Ok base
    /\ dict_get NADistributions atomTracer = Ok t
    /\ convolve_times (Z.to_nat n) None base t = Ok full
    /\ nrows M = Z.to_nat (matrix_height n t)
    /\ column M 0 = firstn (nrows M) full.
Proof.
  intros HM Hn Hn1.
  destruct (computeCorrectionMatrix_spec _ _ _ _ _ HM)
    as (base & n' & t & Hbase & Hn' & Ht & Hm & _ & Hw & Hsh & Hcols).
  rewrite Hn in Hn'. inversion Hn'; subst n'; clear Hn'.
  unfold shape in Hsh. inversion Hsh as [[Hrows Hncols]].
  pose proof (calculateMassDistributionVector_nonempty _ _ _ _ Hbase) as Hne.
  specialize (Hcols 0 ltac:(lia)).
  unfold correction_column in Hcols. cbn [convolve_times bind] in Hcols.
  rewrite Nat.sub_0_r in Hcols.
  destruct (convolve_times_agree _ _ _ _ _ base Hcols)
    as (full & Hfull & Hag & Hlen).
  { eapply agree_trans; [apply firstn_agree | apply padded_agree]. }
  { exact Hne. }
  exists base, t, full.
  do 3 (split; [assumption|]). split; [exact Hrows|].
  rewrite Hrows.
  apply (agree_eq (Z.to_nat (matrix_height n t))).
  - unfold column. rewrite length_map. destruct Hw as [Hr _]. congruence.
  - rewrite length_firstn, Hlen. apply nonempty_length in Hne.
    unfold matrix_height in *. destruct t as [|y t].
    + simpl List.length. lia.
    + simpl List.length. nia.
  - eapply agree_trans; [exact Hag|].
    intros i Hi. symmetry. now apply firstn_agree.
Qed.

(** The matrix is built when the tracer and its purity have isotopes. *)
Lemma computeCorrectionMatrix_defined (elementDict : dict Z)
    (atomTracer : string) (NADistributions : dict (list num))
    (purityTracer base t : list num) (n : Z) :
  calculateMassDistributionVector elementDict atomTracer NADistributions
  = Ok base ->
  dict_get elementDict atomTracer = Ok n ->
  dict_get NADistributions atomTracer = Ok t ->
  (0 <= n)%Z -> t <> [] -> purityTracer <> [] ->
  exists M,
    computeCorrectionMatrix elementDict atomTracer NADistributions purityTracer
    = Ok M.
Proof.
  intros Hbase Hn Ht Hn0 Htne Hpne.
  unfold computeCorrectionMatrix. rewrite Hbase. cbn [bind].
  rewrite Ht, Hn. cbn [bind].
  fold (matrix_height n t). fold (padded (matrix_height n t) base).
  assert (Hm : (1 <= matrix_height n t)%Z).
  { unfold matrix_height. apply nonempty_length in Htne. nia. }
  destruct (Z.ltb_spec (matrix_height n t) 0); [lia|].
  destruct (Z.ltb_spec (n + 1) 0); [lia|]. cbn [orb].
  set (m := Z.to_nat (matrix_height n t)).
  set (cv := padded (matrix_height n t) base).
  assert (Hm1 : 1 <= m) by (subst m; lia).
  assert (Hcv : List.length (firstn m cv) = m).
  { rewrite length_firstn.
    pose proof (padded_length (matrix_height n t) base). subst m cv. lia. }
  assert (Hfill : forall indices a,
             well_shaped a -> nrows a = m ->
             Forall (fun i => i < ncols a) indices ->
             exists M, fill_columns indices a cv m (Z.to_nat n)
                         purityTracer t = Ok M).
  { induction indices as [|i indices IH]; intros a Hwa Hra Hin.
    - now exists a.
    - inversion Hin as [|i' l' Hi Hin']. clear Hin. subst i' l'.
      cbn [fill_columns]. unfold correction_column at 1.
      destruct (convolve_times_cut_defined purityTracer m Hpne Hm1 i
                  (firstn m cv) Hcv) as (c1 & Hc1).
      rewrite Hc1. cbn [bind].
      pose proof (convolve_times_cut_length _ _ _ _ _ Hc1 Hcv) as Hl1.
      destruct (convolve_times_cut_defined t m Htne Hm1 (Z.to_nat n - i)
                  c1 Hl1) as (c2 & Hc2).
      rewrite Hc2. cbn [bind].
      pose proof (convolve_times_cut_length _ _ _ _ _ Hc2 Hl1) as Hl2.
      destruct (set_column_spec a i c2 Hwa Hi) as (a' & Ha' & Hwa' & Hsh & _);
        [congruence|].
      rewrite Ha'. cbn [bind].
      unfold shape in Hsh. inversion Hsh as [[Hr' Hc']].
      apply IH; try assumption; try congruence.
      now rewrite Hc'. }
  apply Hfill; [apply zeros_well_shaped | reflexivity |].
  apply Forall_forall. intros i Hi. apply in_seq in Hi. cbn [zeros ncols]. lia.
Qed.

End MatrixFacts.

(** ** The claims about the correction matrix *)

Module MatrixClaims.

Import Re Np NAProcess ConvolveFacts MatrixFacts Notions Examples.

Local Open Scope nat_scope.

(** A composition that holds the tracer with the count zero gets a matrix
    of one entry, the first entry of the mass distribution vector. *)
Lemma zero_tracer_count_matrix (elementDict : dict Z) (atomTracer : string)
    (NADistributions : dict (list num)) (purityTracer base t : list num) :
  calculateMassDistributionVector elementDict atomTracer NADistributions
  = Ok base ->
  dict_get elementDict atomTracer = Ok 0%Z ->
  dict_get NADistributions atomTracer = Ok t ->
  computeCorrectionMatrix elementDict atomTracer NADistributions purityTracer
  = Ok (mkArray 1 1 [[nth 0 base 0%Qc]]).
Proof.
  intros Hbase Hn Ht.
  pose proof (calculateMassDistributionVector_nonempty _ _ _ _ Hbase) as Hne.
  unfold computeCorrectionMatrix. rewrite Hbase. cbn [bind].
  rewrite Ht, Hn. cbn [bind].
  destruct base as [|x base]; [contradiction|].
  cbn [Z.mul Z.add Z.ltb Z.compare orb Z.to_nat Pos.to_nat Pos.iter_op
       List.length].
  destruct (Z.ltb_spec (Z.of_nat (S (List.length base))) 1); [lia|].
  reflexivity.
Qed.

(** C2.  The composition of the chain C16:0, derivatized, holds nitrogen
    with the count zero; with nitrogen as the tracer
    [computeCorrectionMatrix] raises nothing and returns a matrix of one row
    and one column. *)
Theorem absent_tracer_builds_a_matrix :
  exists elementDict x,
    resolve "C16:0" true false = Ok elementDict
    /\ dict_get elementDict "N" = Ok 0%Z
    /\ computeCorrectionMatrix elementDict "N"
         getNaturalAbundanceDistributions [q 0; q 1]
       = Ok (mkArray 1 1 [[x]]).
Proof.
  eexists. 
  assert (Hbase : exists base,
             calculateMassDistributionVector
               [("H", 34%Z); ("C", 17%Z); ("N", 0%Z); ("O", 2%Z);
                ("Si", 0%Z); ("S", 0%Z)]
               "N" getNaturalAbundanceDistributions = Ok base).
  { apply mass_distribution_loop_defined; [|discriminate].
    repeat (apply Forall_cons;
            [right; eexists; split; [reflexivity | discriminate]|]).
    apply Forall_nil. }
  destruct Hbase as (base & Hbase).
  exists (nth 0 base 0%Qc).
  split; [reflexivity|]. split; [reflexivity|].
  now apply (zero_tracer_count_matrix _ _ _ _ base [q 0.99632; q 0.00368]).
Qed.

(** C7.  When the matrix is built for a tracer of [n >= 1] atoms, the
    mass distribution vector that the code computes is the base correction
    vector, the convolution of the natural distributions of the elements
    other than the tracer, each taken once for each of its atoms; and
    column 0 of the matrix is this vector convolved [n] times with the
    natural distribution of the tracer, cut to the
    [m = 1 + n * (isotopes - 1)] rows of the matrix. *)
Theorem first_column_is_natural_distribution (elementDict : dict Z)
    (atomTracer : string) (NADistributions : dict (list num))
    (purityTracer : list num) (M : ndarray) (n : Z) :
  computeCorrectionMatrix elementDict atomTracer NADistributions purityTracer
  = Ok M ->
  dict_get elementDict atomTracer = Ok n ->
  (1 <= n)%Z ->
  exists tracerNADistribution,
    dict_get NADistributions atomTracer = Ok tracerNADistribution
    /\ calculateMassDistributionVector elementDict atomTracer NADistributions
       = Ok (base_correction_vector elementDict atomTracer NADistributions)
    /\ nrows M
       = Z.to_nat (1 + n * (Z.of_nat (List.length tracerNADistribution) - 1))
    /\ column M 0
       = firstn (nrows M)
           (convolved (Z.to_nat n) tracerNADistribution
              (base_correction_vector elementDict atomTracer
                 NADistributions)).
Proof.
  intros HM Hn Hn1.
  destruct (first_column_uncut _ _ _ _ _ _ HM Hn Hn1)
    as (base & t & full & Hbase & Ht & Hfull & Hrows & Hcol).
  pose proof (calculateMassDistributionVector_nonempty _ _ _ _ Hbase) as Hne.
  pose proof (calculateMassDistributionVector_convolution _ _ _ _ Hbase)
    as Ebase.
  apply convolve_times_convolved in Hfull; [|exact Hne].
  exists t. split; [exact Ht|]. split; [now rewrite Hbase, Ebase|].
  split; [exact Hrows|].
  now rewrite Hcol, Hfull, Ebase.
Qed.

Lemma acetate_matrix_built :
  computeCorrectionMatrix acetate "C" getNaturalAbundanceDistributions
    [q 0; q 1]
  = Ok acetate_matrix.
Proof. vm_compute. reflexivity. Qed.

Lemma first_column_of_acetate :
  exists tracerNADistribution,
    dict_get getNaturalAbundanceDistributions "C" = Ok tracerNADistribution
    /\ calculateMassDistributionVector acetate "C"
         getNaturalAbundanceDistributions
       = Ok (base_correction_vector acetate "C"
               getNaturalAbundanceDistributions)
    /\ nrows acetate_matrix
       = Z.to_nat (1 + 2 * (Z.of_nat (List.length tracerNADistribution) - 1))
    /\ column acetate_matrix 0
       = firstn (nrows acetate_matrix)
           (convolved (Z.to_nat 2) tracerNADistribution
              (base_correction_vector acetate "C"
                 getNaturalAbundanceDistributions)).
Proof.
  apply (first_column_is_natural_distribution acetate "C"
           getNaturalAbundanceDistributions [q 0; q 1] acetate_matrix 2%Z).
  - exact acetate_matrix_built.
  - reflexivity.
  - lia.
Defined.

End MatrixClaims.

(** ** Correcting a frame *)

Module CorrectionFacts.

Import Re Np NAProcess Library ConvolveFacts MatrixFacts Notions.

Local Open Scope nat_scope.

Lemma withinb_within (x : num) (b : bound) :
  withinb x b = true <-> within x b.
Proof.
  unfold withinb, within. destruct b as [lo [hi|]]; cbn [fst snd];
    destruct (Qclt_le_dec x lo) as [Hlo|Hlo]; cbn [andb];
    try destruct (Qclt_le_dec hi x) as [Hhi|Hhi];
    split; intros H; try discriminate; try reflexivity;
    try (split; [assumption | assumption || exact I]);
    destruct H as [H1 H2];
    try (exfalso; apply (Qclt_not_le _ _ Hlo); exact H1);
    try (exfalso; apply (Qclt_not_le _ _ Hhi); exact H2).
Qed.

Lemma all_within_spec (x : list num) (bounds : list bound) :
  all_within x bounds = true <-> Forall2 within x bounds.
Proof.
  revert bounds; induction x as [|xi x IH]; intros [|b bounds]; simpl;
    split; intros H; try discriminate; try constructor; try inversion H;
    subst.
  - apply andb_prop in H. destruct H as [Hb Hr].
    now apply withinb_within.
  - apply andb_prop in H. destruct H as [Hb Hr]. now apply IH.
  - apply andb_true_intro. split; [now apply withinb_within | now apply IH].
Qed.

Lemma transpose_shape (a : ndarray) :
  well_shaped a ->
  well_shaped (transpose a) /\ shape (transpose a) = (ncols a, nrows a).
Proof.
  intros [Hr Hc]. split; [|reflexivity].
  split; cbn [transpose rows nrows ncols].
  - now rewrite length_map, length_seq.
  - apply Forall_forall. intros c Hin. apply in_map_iff in Hin.
    destruct Hin as (j & <- & _). unfold column. now rewrite length_map.
Qed.

Lemma transpose_meets_contract : pinv_contract transpose_as_pinv.
Proof. intros a Ha. now apply transpose_shape. Qed.

Lemma stop_at_start_meets_contract : minimize_contract stop_at_start.
Proof.
  split; unfold stop_at_start.
  - intros f x0 bounds x H.
    destruct (all_within x0 bounds) eqn:Hw; [|discriminate].
    destruct (f x0); [|discriminate]. inversion H; subst.
    split; [reflexivity | now apply all_within_spec].
  - intros f x0 bounds Hw Hf.
    rewrite (proj2 (all_within_spec _ _) Hw).
    destruct (Hf x0 eq_refl) as (v & ->). now exists x0.
Qed.













Section Correction.

Variable pinv : ndarray -> ndarray.
Variable minimize :
  (list num -> result (num * list num)) -> list num -> list bound
  -> result (list num).

Local Abbreviation correct := (correctForNaturalAbundance pinv minimize).

(** A frame with more columns than the matrix leaves [dfData] without a
    value, and each method reads it. *)
Lemma wide_frame_raises (s : self) (dataFrame : DataFrame) (method : string)
    (M : ndarray) :
  matrix_of s = Ok M ->
  ncols M < ncols (values dataFrame) ->
  correct s dataFrame method = Raise UnboundLocalError.
Proof.
  intros HM Hwide. unfold correctForNaturalAbundance.
  unfold matrix_of in HM. rewrite HM. cbn [bind].
  rewrite (proj2 (Nat.ltb_lt _ _) Hwide).
  destruct (String.eqb method "SMC"); [reflexivity|].
  destruct (String.eqb method "LSC"); reflexivity.
Qed.

Lemma minimize_rows_spec (M : ndarray) (initialMID : list num) :
  forall targets xs,
    minimize_rows minimize targets initialMID M = Ok xs ->
    Forall2 (fun target x =>
               minimizeCost minimize computeCost initialMID target M = Ok x)
            targets xs.
Proof.
  induction targets as [|target targets IH]; intros xs H;
    cbn [minimize_rows] in H.
  - inversion H. constructor.
  - destruct (minimizeCost minimize computeCost initialMID target M)
      as [x|] eqn:Hx; [|discriminate].
    cbn [bind] in H.
    destruct (minimize_rows minimize targets initialMID M) as [xs'|] eqn:Hxs;
      [|discriminate].
    cbn [bind] in H. inversion H; subst. constructor; [assumption|].
    now apply IH.
Qed.

Lemma vstack_spec (xs : list (list num)) (a : ndarray) :
  vstack xs = Ok a ->
  rows a = xs /\ nrows a = List.length xs /\ well_shaped a.
Proof.
  unfold vstack. destruct xs as [|x xs']; [discriminate|].
  destruct (forallb _ _) eqn:Hall; [|discriminate].
  intros H; inversion H; subst; clear H. cbn [rows nrows ncols].
  repeat split. cbn [rows ncols].
  apply Forall_forall. intros y Hy.
  rewrite forallb_forall in Hall. now apply Nat.eqb_eq, Hall.
Qed.

Lemma take_columns_shape (d : nat) (a : ndarray) :
  well_shaped a ->
  well_shaped (take_columns d a)
  /\ nrows (take_columns d a) = nrows a
  /\ ncols (take_columns d a) = Nat.min d (ncols a).
Proof.
  intros [Hr Hc]. repeat split; cbn [take_columns rows nrows ncols].
  - now rewrite length_map.
  - apply Forall_map. eapply Forall_impl; [|exact Hc].
    intros r Hlen. cbn beta. now rewrite length_firstn, Hlen.
Qed.

Lemma matmul_spec (a b c : ndarray) :
  List.length (rows a) = nrows a ->
  matmul a b = Ok c ->
  ncols a = nrows b
  /\ nrows c = nrows a /\ ncols c = ncols b /\ well_shaped c.
Proof.
  intros Hr. unfold matmul.
  destruct (Nat.eqb_spec (ncols a) (nrows b)) as [E|E]; [|discriminate].
  intros H; inversion H; subst; clear H. cbn [nrows ncols rows].
  repeat split; try assumption.
  - cbn [rows nrows]. now rewrite length_map.
  - cbn [rows ncols]. apply Forall_map, Forall_forall. intros r _.
    cbn beta. now rewrite !length_map, length_seq.
Qed.

Lemma extended_well_shaped (nCols : nat) (dataFrame : DataFrame) :
  well_formed dataFrame ->
  ncols (values dataFrame) <= nCols ->
  well_shaped (extended nCols dataFrame).
Proof.
  intros [[Hr Hc] _] Hle. split; cbn [extended rows nrows ncols].
  - now rewrite length_map.
  - apply Forall_map. eapply Forall_impl; [|exact Hc].
    intros r Hlen. cbn beta in *. rewrite length_app, repeat_length.
    cbn [ncols] in *. lia.
Qed.

(** What a frame returned under the method LSC is made of. *)
Lemma correct_LSC_inv (s : self) (dataFrame out : DataFrame) :
  correct s dataFrame "LSC" = Ok out ->
  exists M first xs cd,
    matrix_of s = Ok M
    /\ ncols (values dataFrame) <= ncols M
    /\ hd_error (rows (extended (ncols M) dataFrame)) = Some first
    /\ minimize_rows minimize (rows (extended (ncols M) dataFrame))
         (repeat 0%Qc (List.length first)) M = Ok xs
    /\ vstack xs = Ok cd
    /\ out = mkDataFrame (columns dataFrame)
               (take_columns (ncols (values dataFrame)) cd)
    /\ ncols (take_columns (ncols (values dataFrame)) cd)
       = List.length (columns dataFrame).
Proof.
  unfold correctForNaturalAbundance, matrix_of. intros H.
  destruct (computeCorrectionMatrix _ _ _ _) as [M|]; [|discriminate].
  cbn [bind] in H.
  destruct (Nat.ltb_spec (ncols M) (ncols (values dataFrame))) as [Hw|Hw];
    [discriminate|].
  cbn [String.eqb Ascii.eqb Bool.eqb read bind] in H.
  fold (extended (ncols M) dataFrame) in H.
  destruct (rows (extended (ncols M) dataFrame)) as [|first rest] eqn:Hrows;
    [discriminate|].
  cbn [bind] in H.
  destruct (minimize_rows minimize (first :: rest) _ M) as [xs|] eqn:Hxs;
    [|discriminate].
  cbn [bind] in H.
  destruct (vstack xs) as [cd|] eqn:Hcd; [|discriminate].
  cbn [bind read] in H. unfold newDataFrame in H.
  destruct (Nat.eqb_spec
              (ncols (take_columns (ncols (values dataFrame)) cd))
              (List.length (columns dataFrame))) as [E|E]; [|discriminate].
  inversion H; subst out; clear H.
  exists M, first, xs, cd. rewrite Hrows.
  repeat split; try assumption; reflexivity.
Qed.

(** What a frame returned under the method SMC is made of. *)
Lemma correct_SMC_inv (s : self) (dataFrame out : DataFrame) :
  correct s dataFrame "SMC" = Ok out ->
  exists M cd,
    matrix_of s = Ok M
    /\ ncols (values dataFrame) <= ncols M
    /\ matmul (extended (ncols M) dataFrame) (transpose (pinv M)) = Ok cd
    /\ out = mkDataFrame (columns dataFrame)
               (take_columns (ncols (values dataFrame))
                  (mkArray (nrows cd) (ncols cd)
                     (map (map clamp) (rows cd))))
    /\ Nat.min (ncols (values dataFrame)) (ncols cd)
       = List.length (columns dataFrame).
Proof.
  unfold correctForNaturalAbundance, matrix_of. intros H.
  destruct (computeCorrectionMatrix _ _ _ _) as [M|]; [|discriminate].
  cbn [bind] in H.
  destruct (Nat.ltb_spec (ncols M) (ncols (values dataFrame))) as [Hw|Hw];
    [discriminate|].
  cbn [String.eqb Ascii.eqb Bool.eqb read bind] in H.
  fold (extended (ncols M) dataFrame) in H.
  destruct (matmul (extended (ncols M) dataFrame) (transpose (pinv M)))
    as [cd|] eqn:Hcd; [|discriminate].
  cbn [bind read] in H. unfold newDataFrame in H.
  cbn [take_columns ncols] in H.
  destruct (Nat.eqb_spec (Nat.min (ncols (values dataFrame)) (ncols cd))
              (List.length (columns dataFrame))) as [E|E]; [|discriminate].
  inversion H; subst out; clear H.
  exists M, cd. repeat split; try assumption; reflexivity.
Qed.

(** No other method returns a frame. *)
Lemma correct_method (s : self) (dataFrame out : DataFrame) (method : string) :
  correct s dataFrame method = Ok out -> method = "SMC" \/ method = "LSC".
Proof.
  unfold correctForNaturalAbundance. intros H.
  destruct (computeCorrectionMatrix _ _ _ _) as [M|]; [|discriminate].
  cbn [bind] in H.
  destruct (String.eqb_spec method "SMC") as [E|E]; [now left|].
  destruct (String.eqb_spec method "LSC") as [E'|E']; [now right|].
  discriminate.
Qed.

(** The shape of a frame that comes back. *)
Lemma correct_Ok_shape (s : self) (dataFrame out : DataFrame)
    (method : string) (M : ndarray) :
  well_formed dataFrame ->
  matrix_of s = Ok M ->
  correct s dataFrame method = Ok out ->
  columns out = columns dataFrame
  /\ well_shaped (values out)
  /\ nrows (values out) = nrows (values dataFrame)
  /\ ncols (values out) = ncols (values dataFrame)
  /\ ncols (values dataFrame) <= ncols M.
Proof.
  intros Hwf HM H. destruct Hwf as [[Hr Hc] Hcols].
  destruct (correct_method _ _ _ _ H) as [-> | ->].
  - destruct (correct_SMC_inv _ _ _ H) as (M' & cd & HM' & Hle & Hcd & -> & E).
    rewrite HM in HM'. inversion HM'; subst M'; clear HM'.
    destruct (matmul_spec _ _ _
                (proj1 (extended_well_shaped _ _
                          (conj (conj Hr Hc) Hcols) Hle)) Hcd)
      as (_ & Hrc & Hcc & [Hcr Hcw]).
    assert (Hx : well_shaped (mkArray (nrows cd) (ncols cd)
                                (map (map clamp) (rows cd)))).
    { split; cbn [rows nrows ncols]; [now rewrite length_map|].
      apply Forall_map. eapply Forall_impl; [|exact Hcw].
      intros r Hl. cbn beta. now rewrite length_map. }
    destruct (take_columns_shape (ncols (values dataFrame)) _ Hx)
      as (Hw & Hn & Hm).
    cbn [columns values].
    split; [reflexivity|]. split; [exact Hw|].
    split; [rewrite Hn; cbn [nrows]; rewrite Hrc; reflexivity|].
    split; [|assumption].
    rewrite Hm. cbn [ncols]. congruence.
  - destruct (correct_LSC_inv _ _ _ H)
      as (M' & first & xs & cd & HM' & Hle & Hfirst & Hxs & Hcd & -> & E).
    rewrite HM in HM'. inversion HM'; subst M'; clear HM'.
    destruct (vstack_spec _ _ Hcd) as (Hrows & Hnr & Hwcd).
    destruct (take_columns_shape (ncols (values dataFrame)) _ Hwcd)
      as (Hw & Hn & Hm).
    cbn [columns values].
    split; [reflexivity|]. split; [exact Hw|].
    split; [|split; [congruence | assumption]].
    rewrite Hn, Hnr.
    rewrite <- (Forall2_length (minimize_rows_spec _ _ _ _ Hxs)).
    cbn [extended rows]. now rewrite length_map.
Qed.

Lemma computeCost_defined (M : ndarray) (x target : list num) :
  well_shaped M -> nrows M = ncols M ->
  List.length x = ncols M -> List.length target = ncols M ->
  exists v, computeCost x target M = Ok v.
Proof.
  intros [Hr Hc] Hsq Hx Ht. unfold computeCost.
  assert (H1 : dot_mv M x = Ok (map (fun r => vdot r x) (rows M))).
  { unfold dot_mv. now rewrite Hx, Nat.eqb_refl. }
  rewrite H1. cbn [bind].
  set (product := map (fun r => vdot r x) (rows M)).
  assert (Hp : List.length product = ncols M).
  { subst product. rewrite length_map. congruence. }
  assert (H2 : vsub target product
               = Ok (map (fun p => (fst p - snd p)%Qc)
                         (combine target product))).
  { unfold vsub. now rewrite Ht, Hp, Nat.eqb_refl. }
  rewrite H2. cbn [bind].
  set (difference := map (fun p => (fst p - snd p)%Qc)
                         (combine target product)).
  assert (Hd : List.length difference = ncols M).
  { subst difference. rewrite length_map, length_combine. lia. }
  assert (H3 : dot_mv (transpose M) difference
               = Ok (map (fun r => vdot r difference)
                         (rows (transpose M)))).
  { unfold dot_mv. cbn [transpose ncols]. now rewrite Hd, Hsq, Nat.eqb_refl. }
  rewrite H3. cbn [bind]. eexists. reflexivity.
Qed.

Lemma zeros_within (k : nat) :
  Forall2 within (repeat 0%Qc k) (repeat (0%Qc, @None Qc) k).
Proof.
  induction k as [|k IH]; simpl; constructor; [|exact IH].
  split; [apply Qcle_refl | exact I].
Qed.

Lemma minimize_rows_returns (M : ndarray) :
  minimize_contract minimize ->
  well_shaped M -> nrows M = ncols M ->
  forall targets,
    Forall (fun t => List.length t = ncols M) targets ->
    exists xs,
      minimize_rows minimize targets (repeat 0%Qc (ncols M)) M = Ok xs
      /\ List.length xs = List.length targets
      /\ Forall (fun x => List.length x = ncols M) xs.
Proof.
  intros Hmin HM Hsq. induction targets as [|t targets IH]; intros Hall.
  - exists []. repeat split. constructor.
  - inversion Hall as [|? ? Ht Hall']; subst.
    cbn [minimize_rows]. unfold minimizeCost at 1.
    destruct (minimize_returns _ Hmin
                (fun x => computeCost x t M) (repeat 0%Qc (ncols M))
                (repeat (0%Qc, None) (List.length (repeat 0%Qc (ncols M)))))
      as (x & Hx).
    { rewrite repeat_length. apply zeros_within. }
    { intros x Hx. rewrite repeat_length in Hx.
      now apply computeCost_defined. }
    rewrite Hx. cbn [bind].
    destruct (IH Hall') as (xs & Hxs & Hlen & Hlens).
    rewrite Hxs. cbn [bind]. exists (x :: xs).
    split; [reflexivity|]. split; [simpl; congruence|].
    constructor; [|assumption].
    destruct (minimize_feasible _ Hmin _ _ _ _ Hx) as [Hl _].
    now rewrite Hl, repeat_length.
Qed.

(** When a frame comes back. *)
Lemma correct_returns (s : self) (dataFrame : DataFrame) (method : string)
    (M : ndarray) :
  pinv_contract pinv -> minimize_contract minimize ->
  well_formed dataFrame ->
  matrix_of s = Ok M ->
  nrows M = ncols M ->
  ncols (values dataFrame) <= ncols M ->
  method = "SMC" \/ (method = "LSC" /\ 1 <= nrows (values dataFrame)) ->
  exists out, correct s dataFrame method = Ok out.
Proof.
  intros Hpinv Hmin Hwf HM Hsq Hle Hmethod.
  assert (HwM : well_shaped M).
  { unfold matrix_of in HM.
    destruct (computeCorrectionMatrix_spec _ _ _ _ _ HM)
      as (? & ? & ? & _ & _ & _ & _ & _ & Hw & _). exact Hw. }
  pose proof (extended_well_shaped _ _ Hwf Hle) as [Her Hec].
  destruct Hwf as [[Hr Hc] Hcols].
  unfold correctForNaturalAbundance. unfold matrix_of in HM. rewrite HM.
  cbn [bind].
  rewrite (proj2 (Nat.ltb_ge _ _) Hle).
  fold (extended (ncols M) dataFrame).
  destruct Hmethod as [-> | [-> Hrows]];
    cbn [String.eqb Ascii.eqb Bool.eqb read bind].
  - destruct (Hpinv M HwM) as [_ Hshape]. unfold shape in Hshape.
    injection Hshape as Hpr Hpc.
    unfold matmul. cbn [transpose nrows ncols extended].
    rewrite (proj2 (Nat.eqb_eq (ncols M) (ncols (pinv M))) ltac:(congruence)).
    cbn [bind read nrows ncols rows]. unfold newDataFrame.
    cbn [take_columns ncols].
    assert (Hd : Nat.min (ncols (values dataFrame)) (nrows (pinv M))
                 = List.length (columns dataFrame)).
    { rewrite Hpr, <- Hcols. apply Nat.min_l. exact Hle. }
    rewrite (proj2 (Nat.eqb_eq _ _) Hd).
    eexists. reflexivity.
  - cbn [extended nrows ncols rows] in Her, Hec.
    destruct (rows (extended (ncols M) dataFrame)) as [|first rest] eqn:E.
    { cbn [extended rows] in E. rewrite E in Her. simpl in Her. lia. }
    cbn [extended rows] in E. rewrite E in Hec, Her.
    cbn [bind].
    inversion Hec as [|? ? Hfirst Hrest]; subst.
    rewrite Hfirst.
    destruct (minimize_rows_returns M Hmin HwM Hsq (first :: rest) Hec)
      as (xs & Hxs & Hlen & Hlens).
    rewrite Hxs. cbn [bind].
    destruct xs as [|x xs]; [discriminate|].
    unfold vstack.
    assert (Hall : forallb (fun y => List.length y =? List.length x) (x :: xs)
                   = true).
    { apply forallb_forall. intros y Hy. apply Nat.eqb_eq.
      rewrite Forall_forall in Hlens.
      rewrite (Hlens y Hy), (Hlens x (or_introl eq_refl)). reflexivity. }
    rewrite Hall. cbn [bind read]. unfold newDataFrame.
    cbn [take_columns ncols].
    assert (Hd : Nat.min (ncols (values dataFrame)) (List.length x)
                 = List.length (columns dataFrame)).
    { rewrite Forall_forall in Hlens.
      rewrite (Hlens x (or_introl eq_refl)), <- Hcols.
      apply Nat.min_l. exact Hle. }
    rewrite (proj2 (Nat.eqb_eq _ _) Hd).
    eexists. reflexivity.
Qed.



End Correction.

End CorrectionFacts.

(** ** The claims about the correction *)

Module CorrectionClaims.

Import Re Np NAProcess Library MatrixFacts MatrixClaims CorrectionFacts.
Import Notions Examples.

Local Open Scope nat_scope.

Lemma acetate_process_init :
  init "C2:0" "C" [q 0; q 1] false false = Ok acetate_process.
Proof. vm_compute. reflexivity. Qed.

Lemma narrow_output_returned :
  correctForNaturalAbundance transpose_as_pinv stop_at_start
    acetate_process narrow_frame "SMC" = Ok narrow_output.
Proof. vm_compute. reflexivity. Qed.

Lemma full_output_returned :
  correctForNaturalAbundance transpose_as_pinv stop_at_start
    acetate_process full_frame "LSC" = Ok full_output.
Proof. vm_compute. reflexivity. Qed.

(** C1.  The matrix for the chain C2:0 with carbon as the tracer has three
    columns.  On a frame of four columns [correctForNaturalAbundance] prints
    its warning and then raises UnboundLocalError, whatever the method: it
    returns no frame. *)
Theorem wide_frame_is_not_corrected :
  forall pinv minimize method,
    (s <- init "C2:0" "C" [q 0; q 1] false false ;;
     correctForNaturalAbundance pinv minimize s wide_frame method)
    = Raise UnboundLocalError.
Proof.
  intros pinv minimize method.
  rewrite acetate_process_init. cbn [bind].
  apply (wide_frame_raises pinv minimize _ _ _ acetate_matrix).
  - exact acetate_matrix_built.
  - vm_compute. lia.
Qed.


Lemma narrow_frame_well_formed : well_formed narrow_frame.
Proof. repeat constructor. Qed.





Lemma bounded_below_by_zero (k : nat) (x : list num) :
  Forall2 within x (repeat (0%Qc, @None Qc) k) ->
  Forall (fun v => (0 <= v)%Qc) x.
Proof.
  revert k; induction x as [|v x IH]; intros k H; [constructor|].
  destruct k as [|k]; inversion H as [|? ? ? ? Hv Hx]; subst.
  constructor; [apply Hv | now apply (IH k)].
Qed.

Lemma Forall_firstn {A : Type} (P : A -> Prop) (d : nat) (l : list A) :
  Forall P l -> Forall P (firstn d l).
Proof.
  revert d; induction l as [|x l IH]; intros [|d] H; simpl;
    try constructor; inversion H; subst; auto.
Qed.

(** C8.  With a minimiser that keeps within the bounds it is given, no
    entry of a frame returned under the method LSC is negative: the code
    bounds every entry below by zero and returns what the minimiser gives,
    cut to the observed columns. *)
Theorem lsc_output_is_nonnegative
    (pinv : ndarray -> ndarray)
    (minimize : (list num -> result (num * list num)) -> list num
                -> list bound -> result (list num))
    (s : self) (dataFrame out : DataFrame) :
  minimize_contract minimize ->
  correctForNaturalAbundance pinv minimize s dataFrame "LSC" = Ok out ->
  Forall (Forall (fun v => (0 <= v)%Qc)) (rows (values out)).
Proof.
  intros Hmin H.
  destruct (correct_LSC_inv pinv minimize _ _ _ H)
    as (M & first & xs & cd & _ & _ & _ & Hxs & Hcd & -> & _).
  destruct (vstack_spec _ _ Hcd) as (Hrows & _ & _).
  cbn [values take_columns rows]. rewrite Hrows.
  apply Forall_map.
  pose proof (minimize_rows_spec minimize _ _ _ _ Hxs) as Hall.
  clear Hxs Hcd Hrows H.
  induction Hall as [|target x targets xs' Hx _ IH]; constructor; [|exact IH].
  apply Forall_firstn. unfold minimizeCost in Hx.
  destruct (minimize_feasible _ Hmin _ _ _ _ Hx) as [_ Hw].
  now apply bounded_below_by_zero in Hw.
Qed.

Lemma lsc_output_of_acetate :
  Forall (Forall (fun v => (0 <= v)%Qc)) (rows (values full_output)).
Proof.
  exact (lsc_output_is_nonnegative transpose_as_pinv stop_at_start
           acetate_process full_frame full_output
           stop_at_start_meets_contract full_output_returned).
Defined.

End CorrectionClaims.

(** * Facts about the standard curves *)

Module StandardsFacts.

Import Np NAProcess Standards Examples.

Local Open Scope nat_scope.

(** With as many [x] as [y] values the fit is skipped for none or one of
    them, not for two: [True | 2] is 3. *)
Lemma not_enough_values_below_two (l : nat) :
  not_enough_values l l = (l <? 2).
Proof.
  destruct l as [|[|[|l]]]; try reflexivity.
  unfold not_enough_values.
  change (S (S (S l)) <? 3) with false.
  change (S (S (S l)) <? 2) with false.
  cbn [Z.b2z Z.lor]. apply Z.ltb_ge. lia.
Qed.

Lemma select_length (a : list value) :
  forall mask r,
    select a mask = Ok r ->
    List.length r = List.length (filter (fun b => b) mask).
Proof.
  induction a as [|v a IH]; intros [|b mask] r H; cbn [select] in H;
    try discriminate.
  - now inversion H.
  - destruct (select a mask) as [rest|] eqn:E; [|discriminate].
    cbn [bind] in H. inversion H; subst.
    specialize (IH _ _ E). destruct b; simpl; now rewrite IH.
Qed.

(** Whatever the column, the fit is skipped when the mask leaves no point or
    one, and [linregress] is called when it leaves two or more. *)
Lemma fit_column_skips_below_two
    (linregress : list value -> list value -> result fit)
    (xvals yvals xs ys : list value) :
  select xvals (originalMask xvals yvals) = Ok xs ->
  select yvals (originalMask xvals yvals) = Ok ys ->
  fit_column linregress xvals yvals
  = if List.length xs <? 2 then Ok None
    else match linregress xs ys with
         | Ok r => Ok (Some (fst (fst r), snd (fst r), (snd r * snd r)%Qc))
         | Raise e => Raise e
         end.
Proof.
  intros Hx Hy. unfold fit_column. rewrite Hx, Hy. cbn [bind].
  rewrite (select_length _ _ _ Hy), <- (select_length _ _ _ Hx).
  rewrite not_enough_values_below_two.
  destruct (List.length xs <? 2); [reflexivity|].
  destruct (linregress xs ys); reflexivity.
Qed.

(** C9.  A column whose mask leaves two calibration points is not skipped:
    [linregress] is called on the two points, and what it returns becomes
    the entry of the column in the fits and a column of the
    quantification. *)
Theorem two_point_fit_is_not_skipped :
  forall (linregress : list value -> list value -> result fit)
         (parentalIonOf : string -> option string)
         (dataDf_norm : dict (list value)),
    originalMask [Some (q 1); Some (q 5); Some (q 10); Some (q 20);
                  Some (q 40); Some (q 80)]
                 [Some (q 0.1); Some (q 0.5); Some (q 0); Some (q 0); None;
                  Some (q 0)]
    = [true; true; false; false; false; false]
    /\ computeStandardFits linregress parentalIonOf
         two_point_absorbance two_point_nMoles
       = match linregress [Some (q 1); Some (q 5)]
                          [Some (q 0.1); Some (q 0.5)] with
         | Ok r =>
             Ok [("C16:0 (270)",
                  (fst (fst r), snd (fst r), (snd r * snd r)%Qc))]
         | Raise e => Raise e
         end
    /\ computeQuantificationFromStandardFits linregress parentalIonOf
         two_point_absorbance two_point_nMoles
         [("C16:0 (270)", [Some (q 0.3)])]
       = match linregress [Some (q 1); Some (q 5)]
                          [Some (q 0.1); Some (q 0.5)] with
         | Ok r =>
             Ok [("C16:0 (270)",
                  [quantify (fst (fst r), snd (fst r), (snd r * snd r)%Qc)
                     (Some (q 0.3))])]
         | Raise e => Raise e
         end.
Proof.
  intros linregress parentalIonOf dataDf_norm.
  split; [reflexivity|].
  unfold computeQuantificationFromStandardFits, computeStandardFits.
  change (frame_len two_point_absorbance =? frame_len two_point_nMoles)
    with true.
  cbn [standard_fits_loop two_point_absorbance two_point_nMoles dict_get
       String.eqb Ascii.eqb Bool.eqb].
  assert (Hfit : fit_column linregress
                   [Some (q 1); Some (q 5); Some (q 10); Some (q 20);
                    Some (q 40); Some (q 80)]
                   [Some (q 0.1); Some (q 0.5); Some (q 0); Some (q 0); None;
                    Some (q 0)]
                 = match linregress [Some (q 1); Some (q 5)]
                                    [Some (q 0.1); Some (q 0.5)] with
                   | Ok r => Ok (Some (fst (fst r), snd (fst r),
                                       (snd r * snd r)%Qc))
                   | Raise e => Raise e
                   end).
  { unfold fit_column.
    change (originalMask _ _) with [true; true; false; false; false; false].
    cbn [select bind List.length].
    change (not_enough_values 2 2) with false. cbn iota.
    destruct (linregress _ _); reflexivity. }
  rewrite Hfit.
  destruct (linregress _ _) as [r|e]; split; reflexivity.
Qed.

End StandardsFacts.

(** * Further facts about [NAProcess] *)

(** ** Formulas that are read and entries that are not *)

Module ParsingFacts.

Import Re Np NAProcess Notions FormulaFacts MatrixFacts.

Local Open Scope nat_scope.

Lemma digit_uint (c : ascii) (u : Decimal.uint) :
  is_digit c = true -> exists u', uint_of_char c (Some u) = Some u'.
Proof.
  destruct c as [[] [] [] [] [] [] [] []]; intros H;
    try discriminate H; eexists; reflexivity.
Qed.

Lemma all_digits_uint (s : string) :
  all_digits s = true -> exists u, NilEmpty.uint_of_string s = Some u.
Proof.
  induction s as [|c s IH]; intros H.
  - now exists Decimal.Nil.
  - cbn [all_digits] in H. apply andb_prop in H. destruct H as [Hc Hs].
    destruct (IH Hs) as (u & Hu). cbn [NilEmpty.uint_of_string].
    rewrite Hu. now apply digit_uint.
Qed.

(** [int] reads every string of digits that is not empty. *)
Lemma int_digits (s : string) :
  s <> EmptyString -> all_digits s = true ->
  exists z, int s = Ok z /\ (0 <= z)%Z.
Proof.
  intros Hne Hd. destruct (all_digits_uint s Hd) as (u & Hu).
  assert (H : int s = Ok (Z.of_uint u)).
  { unfold int. destruct s; [contradiction|]. now rewrite Hu. }
  exists (Z.of_uint u). split; [exact H | exact (int_nonneg _ _ H)].
Qed.

Lemma match_element_digits (syms : list string) (s el ds : string) :
  match_element syms s = Some (el, ds) ->
  In el syms /\ all_digits ds = true.
Proof.
  induction syms as [|k syms IH]; cbn [match_element]; [discriminate|].
  destruct (strip_prefix k s) as [r|].
  - intros H. inversion H; subst. split; [now left | apply span_digits_all].
  - intros H. destruct (IH H) as [Hin Hd]. split; [now right | exact Hd].
Qed.

Lemma findall_elements_digits (syms : list string) (s : string) :
  forall skip,
    Forall (fun m => In (fst m) syms /\ all_digits (snd m) = true)
           (findall_elements syms skip s).
Proof.
  induction s as [|c s IH]; intros skip; cbn [findall_elements].
  - constructor.
  - destruct skip as [|k]; [|apply IH].
    destruct (match_element syms (String c s)) as [[el ds]|] eqn:E;
      [|apply IH].
    constructor; [|apply IH]. exact (match_element_digits _ _ _ _ E).
Qed.

Lemma dict_add_keys (d : dict Z) (k : string) (n : Z) :
  keys (dict_add d k n) = keys d.
Proof.
  induction d as [|[k' v] d IH]; [reflexivity|]. cbn [dict_add].
  destruct (String.eqb k k'); [reflexivity|].
  unfold keys in *. cbn [map fst]. now rewrite IH.
Qed.

Lemma dict_add_nonneg (d : dict Z) (k : string) (n : Z) :
  (0 <= n)%Z ->
  Forall (fun kv => (0 <= snd kv)%Z) d ->
  Forall (fun kv => (0 <= snd kv)%Z) (dict_add d k n).
Proof.
  intros Hn. induction d as [|[k' v] d IH]; intros H; [constructor|].
  inversion H as [|? ? Hv Hd]; subst. cbn [dict_add snd] in *.
  destruct (String.eqb k k'); constructor; cbn [snd]; auto; lia.
Qed.

Lemma count_elements_returns (found : list (string * string)) :
  Forall (fun m => all_digits (snd m) = true) found ->
  forall d,
    Forall (fun kv => (0 <= snd kv)%Z) d ->
    exists d',
      count_elements found d = Ok d'
      /\ keys d' = keys d
      /\ Forall (fun kv => (0 <= snd kv)%Z) d'.
Proof.
  induction found as [|[el n] found IH]; intros Hall d Hd.
  - exists d. repeat split. exact Hd.
  - inversion Hall as [|? ? Hn Hall']; subst. cbn [snd] in Hn.
    cbn [count_elements]. destruct n as [|c n].
    + destruct (IH Hall' (dict_add d el 1)) as (d' & H1 & H2 & H3).
      { apply dict_add_nonneg; [lia | exact Hd]. }
      exists d'. rewrite H1, H2, dict_add_keys. repeat split. exact H3.
    + destruct (int_digits (String c n)) as (z & Hz & Hz0);
        [discriminate | exact Hn |].
      rewrite Hz. cbn [bind].
      destruct (IH Hall' (dict_add d el z)) as (d' & H1 & H2 & H3).
      { apply dict_add_nonneg; [exact Hz0 | exact Hd]. }
      exists d'. rewrite H1, H2, dict_add_keys. repeat split. exact H3.
Qed.

Lemma parseFormula_spec (NADistributions : dict (list num))
    (formula : string) :
  exists elementDict,
    parseFormula NADistributions formula = Ok elementDict
    /\ keys elementDict = keys NADistributions
    /\ Forall (fun kv => (0 <= snd kv)%Z) elementDict.
Proof.
  unfold parseFormula.
  destruct (count_elements_returns
              (findall_elements (keys NADistributions) 0 formula))
    with (d := map (fun element : string => (element, 0%Z))
                   (keys NADistributions))
    as (d' & H1 & H2 & H3).
  - eapply Forall_impl; [|apply findall_elements_digits].
    intros m [_ H]. exact H.
  - apply Forall_map, Forall_forall. intros k _. cbn [snd]. lia.
  - exists d'. split; [exact H1|]. split; [|exact H3].
    rewrite H2. unfold keys. rewrite map_map. cbn [fst]. apply map_id.
Qed.

Lemma dict_get_key {V : Type} (d : dict V) (k : string) :
  In k (keys d) -> exists v, dict_get d k = Ok v /\ In (k, v) d.
Proof.
  induction d as [|[k' v] d IH]; intros H; [contradiction|].
  cbn [dict_get]. destruct (String.eqb_spec k k') as [->|Hk].
  - exists v. split; [reflexivity | now left].
  - destruct H as [H|H]; [cbn [fst] in H; congruence|].
    destruct (IH H) as (v' & Hv & Hin). exists v'. split; [exact Hv|].
    now right.
Qed.

Lemma dict_get_no_key {V : Type} (d : dict V) (k : string) :
  ~ In k (keys d) -> dict_get d k = Raise KeyError.
Proof.
  induction d as [|[k' v] d IH]; intros H; [reflexivity|].
  cbn [dict_get]. destruct (String.eqb_spec k k') as [->|Hk].
  - exfalso. apply H. now left.
  - apply IH. intros Hin. apply H. now right.
Qed.


Lemma match_chain_digits (s d1 d2 : string) :
  match_chain s = Some (d1, d2) ->
  d1 <> EmptyString /\ all_digits d1 = true
  /\ d2 <> EmptyString /\ all_digits d2 = true.
Proof.
  unfold match_chain. destruct s as [|c s1]; [discriminate|].
  destruct (Ascii.eqb_spec c "C") as [->|Hc].
  2:{ destruct c as [[] [] [] [] [] [] [] []]; try discriminate.
      now contradiction Hc. }
  pose proof (span_digits_all s1) as H1.
  destruct (span_digits s1) as [[|a g1] r1]; [discriminate|].
  destruct r1 as [|b s2]; [discriminate|].
  destruct (Ascii.eqb_spec b ":") as [->|Hb].
  2:{ destruct b as [[] [] [] [] [] [] [] []]; try discriminate.
      now contradiction Hb. }
  pose proof (span_digits_all s2) as H2.
  destruct (span_digits s2) as [[|a2 g2] r2]; [discriminate|].
  intros H. inversion H; subst. cbn [fst] in *.
  repeat split; try discriminate; assumption.
Qed.

Lemma first_chain_digits (entry : string) (groups : string * string) :
  first_chain entry = Ok groups ->
  fst groups <> EmptyString /\ all_digits (fst groups) = true
  /\ snd groups <> EmptyString /\ all_digits (snd groups) = true.
Proof.
  induction entry as [|c entry IH]; cbn [first_chain].
  - discriminate.
  - destruct (match_chain (String c entry)) as [g|] eqn:E; [|exact IH].
    intros H. inversion H; subst. destruct groups as [d1 d2].
    exact (match_chain_digits _ _ _ E).
Qed.

Lemma first_chain_raises (entry : string) (e : exn) :
  first_chain entry = Raise e -> e = IndexError.
Proof.
  induction entry as [|c entry IH]; cbn [first_chain].
  - intros H. now inversion H.
  - destruct (match_chain (String c entry)); [discriminate | exact IH].
Qed.

(** The chain numbers are read whenever the notation is found. *)
Lemma chain_numbers_found (entry : string) (groups : string * string) :
  first_chain entry = Ok groups ->
  exists n d,
    int (fst groups) = Ok n /\ int (snd groups) = Ok d
    /\ (0 <= n)%Z /\ (0 <= d)%Z.
Proof.
  intros H. destruct (first_chain_digits _ _ H) as (N1 & D1 & N2 & D2).
  destruct (int_digits _ N1 D1) as (n & Hn & Hn0).
  destruct (int_digits _ N2 D2) as (d & Hd & Hd0).
  now exists n, d.
Qed.

(** X2.  An entry for which [getFAFormulaString] raises has no chain notation:
    the exception is an [IndexError], and it is raised whatever the flags,
    also for cholesterol, where the numbers of the chain are not used. *)
Theorem getFAFormulaString_raises_IndexError (entry : string)
    (FAMES CHOL : bool) (e : exn) :
  getFAFormulaString entry FAMES CHOL = Raise e ->
  e = IndexError
  /\ first_chain entry = Raise IndexError
  /\ forall FAMES' CHOL',
       getFAFormulaString entry FAMES' CHOL' = Raise IndexError.
Proof.
  unfold getFAFormulaString.
  destruct (first_chain entry) as [groups|e'] eqn:Hchain.
  - destruct (chain_numbers_found _ _ Hchain) as (n & d & Hn & Hd & _).
    cbn [bind]. rewrite Hn, Hd. discriminate.
  - cbn [bind]. intros H. inversion H; subst e'.
    pose proof (first_chain_raises _ _ Hchain) as ->.
    repeat split.
Qed.

Lemma getFAFormulaString_raises_on_a_name :
  getFAFormulaString "cholesterol" true true = Raise IndexError.
Proof.
  exact (proj2 (proj2 (getFAFormulaString_raises_IndexError
                         "cholesterol" true false IndexError eq_refl))
           true true).
Defined.

End ParsingFacts.

(** ** The mass distribution vector and the shape of the matrix *)

Module DistributionFacts.

Import Re Np NAProcess Notions Measures ConvolveFacts MatrixFacts.

Local Open Scope nat_scope.

Lemma nonneg_plus (a b : num) :
  (0 <= a)%Qc -> (0 <= b)%Qc -> (0 <= a + b)%Qc.
Proof.
  intros Ha Hb. replace 0%Qc with (0 + 0)%Qc by ring.
  now apply Qcplus_le_compat.
Qed.

Lemma nonneg_mult (a b : num) :
  (0 <= a)%Qc -> (0 <= b)%Qc -> (0 <= a * b)%Qc.
Proof.
  intros Ha Hb. rewrite <- (Qcmult_0_l b).
  now apply Qcmult_le_compat_r.
Qed.

Lemma power_plus (x : num) (n m : nat) :
  (x ^ (n + m) = x ^ n * x ^ m)%Qc.
Proof.
  induction n as [|n IH]; cbn [Nat.add Qcpower]; [ring|]. rewrite IH. ring.
Qed.

Lemma vsum_vadd (a b : list num) :
  vsum (vadd a b) = (vsum a + vsum b)%Qc.
Proof.
  revert b; induction a as [|x a IH]; intros [|y b]; cbn [vadd vsum];
    try ring.
  rewrite IH. ring.
Qed.

Lemma vsum_scale (x : num) (v : list num) :
  vsum (map (Qcmult x) v) = (x * vsum v)%Qc.
Proof.
  induction v as [|y v IH]; cbn [map vsum]; [ring|]. rewrite IH. ring.
Qed.

(** The entries of a convolution add up to the product of the sums. *)
Lemma vsum_convolve_full (a v : list num) :
  vsum (convolve_full a v) = (vsum a * vsum v)%Qc.
Proof.
  induction a as [|x a IH]; cbn [convolve_full vsum]; [ring|].
  rewrite vsum_vadd, vsum_scale. cbn [vsum]. rewrite IH. ring.
Qed.

Lemma nonneg_vadd (a b : list num) :
  Forall (fun x => (0 <= x)%Qc) a -> Forall (fun x => (0 <= x)%Qc) b ->
  Forall (fun x => (0 <= x)%Qc) (vadd a b).
Proof.
  intros Ha. revert b. induction Ha as [|x a Hx Ha IH]; intros b Hb.
  - exact Hb.
  - destruct b as [|y b]; cbn [vadd]; [now constructor|].
    inversion Hb; subst. constructor; [now apply nonneg_plus | now apply IH].
Qed.

Lemma nonneg_convolve_full (a v : list num) :
  Forall (fun x => (0 <= x)%Qc) a -> Forall (fun x => (0 <= x)%Qc) v ->
  Forall (fun x => (0 <= x)%Qc) (convolve_full a v).
Proof.
  intros Ha Hv. induction Ha as [|x a Hx Ha IH]; cbn [convolve_full].
  - constructor.
  - apply nonneg_vadd.
    + apply Forall_map. eapply Forall_impl; [|exact Hv].
      intros y Hy. now apply nonneg_mult.
    + constructor; [apply Qcle_refl | exact IH].
Qed.

Lemma convolve_times_total (v : list num) :
  Forall (fun x => (0 <= x)%Qc) v ->
  forall n col out,
    convolve_times n None col v = Ok out ->
    Forall (fun x => (0 <= x)%Qc) col ->
    vsum out = (vsum col * vsum v ^ n)%Qc
    /\ Forall (fun x => (0 <= x)%Qc) out.
Proof.
  intros Hv. induction n as [|n IH]; intros col out H Hcol;
    cbn [convolve_times] in H.
  - inversion H; subst. split; [cbn [Qcpower]; ring | exact Hcol].
  - destruct (convolve col v) as [c|] eqn:Hc; [|discriminate].
    cbn [bind] in H. apply convolve_Ok in Hc. destruct Hc as (_ & _ & ->).
    destruct (IH _ _ H) as [Hs Hp]; [now apply nonneg_convolve_full|].
    split; [|exact Hp].
    rewrite Hs, vsum_convolve_full. cbn [Qcpower]. ring.
Qed.

(** The rows of the table: the isotopes of an element have proportions that
    are not negative; they add up to one, but for silicon, whose three
    proportions add up to 1.000001. *)
Lemma table_row (atom : string) (v : list num) :
  dict_get getNaturalAbundanceDistributions atom = Ok v ->
  Forall (fun x => (0 <= x)%Qc) v
  /\ v <> []
  /\ vsum v = if String.eqb atom "Si" then q 1.000001 else 1%Qc.
Proof.
  unfold getNaturalAbundanceDistributions. cbn [dict_get].
  destruct (String.eqb_spec atom "H") as [->|_].
  { intros H; inversion H; subst; clear H.
    split; [repeat constructor; discriminate|].
    split; [discriminate|]. apply Qc_is_canon. reflexivity. }
  destruct (String.eqb_spec atom "C") as [->|_].
  { intros H; inversion H; subst; clear H.
    split; [repeat constructor; discriminate|].
    split; [discriminate|]. apply Qc_is_canon. reflexivity. }
  destruct (String.eqb_spec atom "N") as [->|_].
  { intros H; inversion H; subst; clear H.
    split; [repeat constructor; discriminate|].
    split; [discriminate|]. apply Qc_is_canon. reflexivity. }
  destruct (String.eqb_spec atom "O") as [->|_].
  { intros H; inversion H; subst; clear H.
    split; [repeat constructor; discriminate|].
    split; [discriminate|]. apply Qc_is_canon. reflexivity. }
  destruct (String.eqb_spec atom "Si") as [->|_].
  { intros H; inversion H; subst; clear H.
    split; [repeat constructor; discriminate|].
    split; [discriminate|]. apply Qc_is_canon. reflexivity. }
  destruct (String.eqb_spec atom "S") as [->|_].
  { intros H; inversion H; subst; clear H.
    split; [repeat constructor; discriminate|].
    split; [discriminate|]. apply Qc_is_canon. reflexivity. }
  discriminate.
Qed.

Lemma mass_distribution_loop_total (atomTracer : string) :
  forall items result out,
    mass_distribution_loop items atomTracer getNaturalAbundanceDistributions
      result = Ok out ->
    Forall (fun x => (0 <= x)%Qc) result ->
    vsum out
    = (vsum result * q 1.000001 ^ counted items atomTracer "Si")%Qc
    /\ Forall (fun x => (0 <= x)%Qc) out.
Proof.
  induction items as [|[atom n] items IH]; intros result out H Hres;
    cbn [mass_distribution_loop counted] in *.
  - inversion H; subst. split; [cbn [Qcpower]; ring | exact Hres].
  - destruct (String.eqb atom atomTracer) eqn:Et.
    { rewrite andb_false_r. now apply IH. }
    rewrite andb_true_r.
    destruct (Z.to_nat n) as [|k] eqn:Ek.
    { destruct (String.eqb atom "Si"); now apply IH. }
    destruct (dict_get getNaturalAbundanceDistributions atom) as [v|] eqn:Hv;
      [|discriminate].
    cbn [bind] in H.
    destruct (convolve_times (S k) None result v) as [r|] eqn:Hr;
      [|discriminate].
    cbn [bind] in H.
    destruct (table_row _ _ Hv) as (Hv0 & _ & Hv1).
    destruct (convolve_times_total v Hv0 _ _ _ Hr Hres) as [Hs Hp].
    destruct (IH _ _ H Hp) as [Hs' Hp']. split; [|exact Hp'].
    rewrite Hs', Hs, Hv1.
    destruct (String.eqb atom "Si").
    + rewrite power_plus. ring.
    + rewrite Qcpower_1. cbn [Nat.add]. ring.
Qed.

(** X3.  The mass distribution vector that the table gives has no negative
    entry, and its entries add up to 1.000001 to the power of the number of
    silicon atoms counted in: to one when there is no silicon beside the
    tracer. *)
Theorem mass_distribution_adds_up (elementDict : dict Z)
    (atomTracer : string) (base : list num) :
  calculateMassDistributionVector elementDict atomTracer
    getNaturalAbundanceDistributions = Ok base ->
  Forall (fun x => (0 <= x)%Qc) base
  /\ vsum base = (q 1.000001 ^ counted elementDict atomTracer "Si")%Qc
  /\ (counted elementDict atomTracer "Si" = 0 -> vsum base = 1%Qc).
Proof.
  intros H. unfold calculateMassDistributionVector in H.
  destruct (mass_distribution_loop_total atomTracer _ _ _ H) as [Hs Hp].
  { repeat constructor. discriminate. }
  assert (Hsum : vsum base
                 = (q 1.000001 ^ counted elementDict atomTracer "Si")%Qc).
  { rewrite Hs. cbn [vsum]. ring. }
  split; [exact Hp|]. split; [exact Hsum|].
  intros H0. rewrite Hsum, H0. reflexivity.
Qed.

Lemma mass_distribution_of_acetate :
  exists base,
    calculateMassDistributionVector Examples.acetate "C"
      getNaturalAbundanceDistributions = Ok base
    /\ Forall (fun x => (0 <= x)%Qc) base
    /\ vsum base = 1%Qc.
Proof.
  eexists. split; [vm_compute; reflexivity|].
  split.
  - eapply (mass_distribution_adds_up Examples.acetate "C").
    vm_compute. reflexivity.
  - eapply (mass_distribution_adds_up Examples.acetate "C");
      vm_compute; reflexivity.
Defined.

End DistributionFacts.

(** ** The object and its matrix *)

Module ShapeFacts.

Import Re Np NAProcess Notions Measures ConvolveFacts MatrixFacts ParsingFacts
       DistributionFacts.

Local Open Scope nat_scope.

Lemma zero_below_firstn (j m : nat) (a : list num) :
  zero_below j a -> zero_below j (firstn m a).
Proof.
  intros H i Hi. destruct (Nat.lt_ge_cases i m) as [Hlt|Hge].
  - rewrite (firstn_agree m a i Hlt). now apply H.
  - apply nth_overflow. rewrite length_firstn. lia.
Qed.

(** A convolution has the leading zeros of its first argument. *)
Lemma zero_below_convolve (v : list num) :
  forall a j, zero_below j a -> zero_below j (convolve_full a v).
Proof.
  intros a j H k Hk. rewrite nth_convolve_full.
  rewrite (conv_at_agree v k a []).
  - reflexivity.
  - intros i Hi. rewrite (H i) by lia. now destruct i.
Qed.

(** With a second argument that begins with zero it has one more. *)
Lemma conv_at_shift (v : list num) :
  nth 0 v 0%Qc = 0%Qc ->
  forall a j k, zero_below j a -> k <= j -> conv_at a v k = 0%Qc.
Proof.
  intros Hv. induction a as [|x a IH]; intros j k H Hk; [reflexivity|].
  cbn [conv_at]. destruct j as [|j].
  - assert (k = 0) as -> by lia. rewrite Hv. ring.
  - assert (Hx : x = 0%Qc) by (apply (H 0); lia). subst x.
    destruct k as [|k]; [ring|].
    rewrite (IH j k); [ring | | lia].
    intros i Hi. apply (H (S i)). lia.
Qed.

Lemma zero_below_convolve_shift (v a : list num) (j : nat) :
  nth 0 v 0%Qc = 0%Qc ->
  zero_below j a -> zero_below (S j) (convolve_full a v).
Proof.
  intros Hv H k Hk. rewrite nth_convolve_full.
  apply (conv_at_shift v Hv a j k H). lia.
Qed.

Lemma convolve_times_shift (v : list num) (m : nat) :
  nth 0 v 0%Qc = 0%Qc ->
  forall n col out j,
    convolve_times n (Some m) col v = Ok out ->
    zero_below j col -> zero_below (j + n) out.
Proof.
  intros Hv. induction n as [|n IH]; intros col out j H Hz;
    cbn [convolve_times] in H.
  - inversion H; subst. now rewrite Nat.add_0_r.
  - destruct (convolve col v) as [c|] eqn:Hc; [|discriminate].
    cbn [bind] in H. apply convolve_Ok in Hc. destruct Hc as (_ & _ & ->).
    replace (j + S n) with (S j + n) by lia.
    apply (IH _ _ _ H). apply zero_below_firstn.
    now apply zero_below_convolve_shift.
Qed.

Lemma convolve_times_keeps_zeros (v : list num) (m : nat) :
  forall n col out j,
    convolve_times n (Some m) col v = Ok out ->
    zero_below j col -> zero_below j out.
Proof.
  induction n as [|n IH]; intros col out j H Hz; cbn [convolve_times] in H.
  - now inversion H; subst.
  - destruct (convolve col v) as [c|] eqn:Hc; [|discriminate].
    cbn [bind] in H. apply convolve_Ok in Hc. destruct Hc as (_ & _ & ->).
    apply (IH _ _ _ H). apply zero_below_firstn.
    now apply zero_below_convolve.
Qed.

Lemma correction_column_zeros (cv : list num) (m n i : nat)
    (p t col : list num) :
  nth 0 p 0%Qc = 0%Qc ->
  correction_column cv m n i p t = Ok col ->
  zero_below i col.
Proof.
  intros Hp H. unfold correction_column in H.
  destruct (convolve_times i (Some m) (firstn m cv) p) as [c|] eqn:Hc;
    [|discriminate].
  cbn [bind] in H.
  apply (convolve_times_keeps_zeros _ _ _ _ _ _ H).
  apply (convolve_times_shift p m Hp i _ c 0 Hc).
  intros k Hk. lia.
Qed.

(** X4.  With a purity that gives the unlabeled isotope the proportion zero, as
    the default [[0, 1]] does, the matrix is lower triangular: in the column
    of [i] labeled atoms the rows above [i] are zero. *)
Theorem pure_tracer_matrix_is_lower_triangular (elementDict : dict Z)
    (atomTracer : string) (NADistributions : dict (list num))
    (purityTracer : list num) (M : ndarray) :
  computeCorrectionMatrix elementDict atomTracer NADistributions purityTracer
  = Ok M ->
  nth 0 purityTracer 0%Qc = 0%Qc ->
  forall i r, i < ncols M -> r < i -> nth r (column M i) 0%Qc = 0%Qc.
Proof.
  intros HM Hp i r Hi Hr.
  destruct (computeCorrectionMatrix_spec _ _ _ _ _ HM)
    as (base & n & t & _ & _ & _ & _ & _ & _ & Hsh & Hcols).
  unfold shape in Hsh. injection Hsh as _ Hc.
  rewrite Hc in Hi.
  exact (correction_column_zeros _ _ _ _ _ _ _ Hp (Hcols i Hi) r Hr).
Qed.

Lemma acetate_matrix_is_lower_triangular :
  nth 0 (column Examples.acetate_matrix 1) 0%Qc = 0%Qc
  /\ nth 1 (column Examples.acetate_matrix 2) 0%Qc = 0%Qc.
Proof.
  split;
    apply (pure_tracer_matrix_is_lower_triangular Examples.acetate "C"
             getNaturalAbundanceDistributions [q 0; q 1]);
    try exact MatrixClaims.acetate_matrix_built;
    try reflexivity; vm_compute; lia.
Defined.

Lemma table_countable (atomTracer : string) (d : dict Z) :
  keys d = keys getNaturalAbundanceDistributions ->
  Forall (countable atomTracer getNaturalAbundanceDistributions) d.
Proof.
  intros Hk. apply Forall_forall. intros [k v] Hin. right. cbn [fst].
  assert (Hkey : In k (keys getNaturalAbundanceDistributions)).
  { rewrite <- Hk. unfold keys. apply in_map_iff. now exists (k, v). }
  destruct (dict_get_key _ _ Hkey) as (w & Hw & _).
  exists w. split; [exact Hw|]. exact (proj1 (proj2 (table_row _ _ Hw))).
Qed.

(** What [__init__] goes through for an entry with the chain notation. *)
Lemma init_steps (entry atomTracer : string) (purityTracer : list num)
    (FAMES CHOL : bool) (groups : string * string) :
  first_chain entry = Ok groups ->
  exists formula elementsDict base,
    getFAFormulaString entry FAMES CHOL = Ok formula
    /\ parseFormula getNaturalAbundanceDistributions formula = Ok elementsDict
    /\ keys elementsDict = keys getNaturalAbundanceDistributions
    /\ Forall (fun kv => (0 <= snd kv)%Z) elementsDict
    /\ calculateMassDistributionVector elementsDict atomTracer
         getNaturalAbundanceDistributions = Ok base
    /\ init entry atomTracer purityTracer FAMES CHOL
       = (correctionMatrix <-
            computeCorrectionMatrix elementsDict atomTracer
              getNaturalAbundanceDistributions purityTracer ;;
          Ok (mkSelf getNaturalAbundanceDistributions formula elementsDict
                atomTracer purityTracer correctionMatrix)).
Proof.
  intros Hchain.
  destruct (chain_numbers_found _ _ Hchain) as (n & d & Hn & Hd & _).
  assert (Hf : exists formula,
             getFAFormulaString entry FAMES CHOL = Ok formula).
  { unfold getFAFormulaString. rewrite Hchain. cbn [bind].
    rewrite Hn, Hd. cbn [bind]. eexists. reflexivity. }
  destruct Hf as (formula & Hf).
  destruct (parseFormula_spec getNaturalAbundanceDistributions formula)
    as (ed & Hed & Hkeys & Hnn).
  destruct (mass_distribution_loop_defined atomTracer
              getNaturalAbundanceDistributions ed [1%Qc]
              (table_countable atomTracer ed Hkeys))
    as (base & Hbase); [discriminate|].
  exists formula, ed, base.
  repeat (split; [assumption|]).
  unfold init. rewrite Hf. cbn [bind]. rewrite Hed. cbn [bind]. reflexivity.
Qed.

(** X5.  For an entry with the chain notation, a tracer of the table and a
    purity that is not empty, [__init__] builds the object; its matrix has
    one column more than the formula has tracer atoms, [n + 1], and
    [1 + n * (k - 1)] rows for a tracer of [k] isotopes. *)
Theorem init_builds_the_object (entry atomTracer : string)
    (purityTracer : list num) (FAMES CHOL : bool)
    (groups : string * string) :
  first_chain entry = Ok groups ->
  In atomTracer symbols ->
  purityTracer <> [] ->
  exists s n t,
    init entry atomTracer purityTracer FAMES CHOL = Ok s
    /\ dict_get (elementsDict s) atomTracer = Ok n
    /\ (0 <= n)%Z
    /\ dict_get getNaturalAbundanceDistributions atomTracer = Ok t
    /\ well_shaped (correctionMatrix s)
    /\ shape (correctionMatrix s)
       = (Z.to_nat (1 + n * (Z.of_nat (List.length t) - 1)),
          Z.to_nat (n + 1)).
Proof.
  intros Hchain Htr Hp.
  destruct (init_steps entry atomTracer purityTracer FAMES CHOL groups Hchain)
    as (formula & ed & base & Hf & Hed & Hkeys & Hnn & Hbase & Hinit).
  assert (Hin : In atomTracer (keys ed)) by (rewrite Hkeys; exact Htr).
  destruct (dict_get_key ed atomTracer Hin) as (n & Hn & Hnd).
  assert (Hn0 : (0 <= n)%Z).
  { rewrite Forall_forall in Hnn. exact (Hnn _ Hnd). }
  destruct (dict_get_key getNaturalAbundanceDistributions atomTracer Htr)
    as (t & Ht & _).
  destruct (table_row _ _ Ht) as (_ & Htne & _).
  destruct (computeCorrectionMatrix_defined ed atomTracer
              getNaturalAbundanceDistributions purityTracer base t n
              Hbase Hn Ht Hn0 Htne Hp) as (M & HM).
  destruct (computeCorrectionMatrix_spec _ _ _ _ _ HM)
    as (base' & n' & t' & _ & Hn' & Ht' & _ & _ & Hw & Hsh & _).
  rewrite Hn in Hn'. rewrite Ht in Ht'.
  injection Hn' as <-. injection Ht' as <-.
  eexists. exists n, t. rewrite Hinit, HM. cbn [bind].
  split; [reflexivity|]. cbn [elementsDict correctionMatrix].
  repeat (split; [assumption|]). exact Hsh.
Qed.

Lemma init_builds_the_object_for_palmitate :
  exists s n t,
    init "C16:0" "H" [q 0; q 1] true false = Ok s
    /\ dict_get (elementsDict s) "H" = Ok n
    /\ (0 <= n)%Z
    /\ dict_get getNaturalAbundanceDistributions "H" = Ok t
    /\ well_shaped (correctionMatrix s)
    /\ shape (correctionMatrix s)
       = (Z.to_nat (1 + n * (Z.of_nat (List.length t) - 1)),
          Z.to_nat (n + 1)).
Proof.
  apply (init_builds_the_object "C16:0" "H" [q 0; q 1] true false
           ("16", "0")).
  - reflexivity.
  - now left.
  - discriminate.
Defined.

(** X6.  For a tracer that is not an element of the table, [__init__] raises a
    [KeyError] when it looks the isotopes of the tracer up, after the
    warning of [computeCorrectionMatrix] that the tracer is not in the
    formula. *)
Theorem init_with_unknown_tracer_raises_KeyError (entry atomTracer : string)
    (purityTracer : list num) (FAMES CHOL : bool)
    (groups : string * string) :
  first_chain entry = Ok groups ->
  ~ In atomTracer symbols ->
  init entry atomTracer purityTracer FAMES CHOL = Raise KeyError.
Proof.
  intros Hchain Htr.
  destruct (init_steps entry atomTracer purityTracer FAMES CHOL groups Hchain)
    as (formula & ed & base & Hf & Hed & Hkeys & Hnn & Hbase & Hinit).
  rewrite Hinit. unfold computeCorrectionMatrix. rewrite Hbase. cbn [bind].
  rewrite (dict_get_no_key getNaturalAbundanceDistributions atomTracer Htr).
  reflexivity.
Qed.

Lemma init_with_deuterium_raises_KeyError :
  init "C16:0" "D" [q 0; q 1] true false = Raise KeyError.
Proof.
  apply (init_with_unknown_tracer_raises_KeyError "C16:0" "D" [q 0; q 1]
           true false ("16", "0")).
  - reflexivity.
  - cbn. intros H. repeat destruct H as [H|H]; try discriminate H. exact H.
Defined.

End ShapeFacts.

(** ** Correcting a frame: the methods and the shapes *)

Module MethodFacts.

Import Re Np NAProcess Library Notions Measures MatrixFacts CorrectionFacts
       DistributionFacts.

Local Open Scope nat_scope.

Lemma clamp_nonneg (x : num) : (0 <= clamp x)%Qc.
Proof.
  unfold clamp. destruct (Qclt_le_dec x 0) as [H|H];
    [apply Qcle_refl | exact H].
Qed.

Lemma nonneg_firstn (d : nat) (l : list num) :
  Forall (fun v => (0 <= v)%Qc) l -> Forall (fun v => (0 <= v)%Qc) (firstn d l).
Proof.
  intros H. revert d. induction H as [|x l Hx Hl IH]; intros [|d]; simpl;
    constructor; auto.
Qed.

(** X7.  No entry of a frame returned under the method SMC is negative, whatever
    the pseudo-inverse: the negative entries of the product are set to
    zero before the observed columns are cut out. *)
Theorem smc_output_is_nonnegative
    (pinv : ndarray -> ndarray)
    (minimize : (list num -> result (num * list num)) -> list num
                -> list bound -> result (list num))
    (s : self) (dataFrame out : DataFrame) :
  correctForNaturalAbundance pinv minimize s dataFrame "SMC" = Ok out ->
  Forall (Forall (fun v => (0 <= v)%Qc)) (rows (values out)).
Proof.
  intros H.
  destruct (correct_SMC_inv pinv minimize _ _ _ H)
    as (M & cd & _ & _ & _ & -> & _).
  cbn [values take_columns rows].
  apply Forall_map, Forall_map, Forall_forall. intros r _.
  apply nonneg_firstn, Forall_map, Forall_forall. intros x _.
  apply clamp_nonneg.
Qed.

Lemma smc_output_of_acetate :
  Forall (Forall (fun v => (0 <= v)%Qc))
         (rows (values Examples.narrow_output)).
Proof.
  exact (smc_output_is_nonnegative transpose_as_pinv stop_at_start
           Examples.acetate_process Examples.narrow_frame
           Examples.narrow_output CorrectionClaims.narrow_output_returned).
Defined.

(** X8.  The names of the methods are compared as they are written: for any
    other name, as for [lsc] in small letters, the matrix is built, nothing is
    corrected, and reading the corrected data raises [UnboundLocalError]. *)
Theorem other_method_raises_UnboundLocalError
    (pinv : ndarray -> ndarray)
    (minimize : (list num -> result (num * list num)) -> list num
                -> list bound -> result (list num))
    (s : self) (dataFrame : DataFrame) (method : string) (M : ndarray) :
  matrix_of s = Ok M ->
  method <> "SMC" -> method <> "LSC" ->
  correctForNaturalAbundance pinv minimize s dataFrame method
  = Raise UnboundLocalError.
Proof.
  intros HM H1 H2. unfold correctForNaturalAbundance.
  unfold matrix_of in HM. rewrite HM. cbn [bind].
  destruct (String.eqb_spec method "SMC") as [E|_]; [contradiction|].
  destruct (String.eqb_spec method "LSC") as [E|_]; [contradiction|].
  reflexivity.
Qed.

Lemma small_letters_raise_UnboundLocalError :
  correctForNaturalAbundance transpose_as_pinv stop_at_start
    Examples.acetate_process Examples.narrow_frame "lsc"
  = Raise UnboundLocalError.
Proof.
  apply (other_method_raises_UnboundLocalError transpose_as_pinv stop_at_start
           Examples.acetate_process Examples.narrow_frame "lsc"
           Examples.acetate_matrix).
  - exact MatrixClaims.acetate_matrix_built.
  - discriminate.
  - discriminate.
Defined.

(** X9.  On a frame without rows the method LSC raises [IndexError], when it
    reads the first row for the length of the initial point; the method SMC
    returns the frame without rows, when the matrix is square. *)
Theorem frame_without_rows
    (pinv : ndarray -> ndarray)
    (minimize : (list num -> result (num * list num)) -> list num
                -> list bound -> result (list num))
    (s : self) (dataFrame : DataFrame) (M : ndarray) :
  pinv_contract pinv -> minimize_contract minimize ->
  matrix_of s = Ok M ->
  nrows M = ncols M ->
  well_formed dataFrame ->
  ncols (values dataFrame) <= ncols M ->
  rows (values dataFrame) = [] ->
  correctForNaturalAbundance pinv minimize s dataFrame "LSC"
  = Raise IndexError
  /\ exists out,
       correctForNaturalAbundance pinv minimize s dataFrame "SMC" = Ok out
       /\ columns out = columns dataFrame
       /\ rows (values out) = [].
Proof.
  intros Hpinv Hmin HM Hsq Hwf Hle Hrows. split.
  - unfold correctForNaturalAbundance. unfold matrix_of in HM. rewrite HM.
    cbn [bind]. rewrite (proj2 (Nat.ltb_ge _ _) Hle).
    cbn [String.eqb Ascii.eqb Bool.eqb read bind].
    rewrite Hrows. reflexivity.
  - destruct (correct_returns pinv minimize s dataFrame "SMC" M
                Hpinv Hmin Hwf HM Hsq Hle (or_introl eq_refl)) as (out & Hout).
    exists out. split; [exact Hout|].
    destruct (correct_Ok_shape pinv minimize s dataFrame out "SMC" M
                Hwf HM Hout) as (Hc & [Hlen _] & Hn & _).
    split; [exact Hc|].
    destruct Hwf as [[Hr _] _]. rewrite Hrows in Hr. cbn [List.length] in Hr.
    rewrite Hn, <- Hr in Hlen. now apply length_zero_iff_nil.
Qed.

Lemma acetate_frame_without_rows :
  correctForNaturalAbundance transpose_as_pinv stop_at_start
    Examples.acetate_process (mkDataFrame ["M.0"; "M.1"] (mkArray 0 2 []))
    "LSC"
  = Raise IndexError
  /\ exists out,
       correctForNaturalAbundance transpose_as_pinv stop_at_start
         Examples.acetate_process (mkDataFrame ["M.0"; "M.1"] (mkArray 0 2 []))
         "SMC" = Ok out
       /\ columns out = ["M.0"; "M.1"]
       /\ rows (values out) = [].
Proof.
  apply (frame_without_rows transpose_as_pinv stop_at_start
           Examples.acetate_process
           (mkDataFrame ["M.0"; "M.1"] (mkArray 0 2 []))
           Examples.acetate_matrix).
  - exact transpose_meets_contract.
  - exact stop_at_start_meets_contract.
  - exact MatrixClaims.acetate_matrix_built.
  - reflexivity.
  - repeat constructor.
  - vm_compute. lia.
  - reflexivity.
Defined.

(** X10.  A tracer of three isotopes or more, as oxygen, silicon and sulphur in
    the table, gives for one tracer atom or more a matrix with more rows than
    columns.  Then no method returns: under SMC the product of the data and
    the transposed pseudo-inverse raises [ValueError], and under LSC the cost
    raises it at the initial point, for a minimiser that lets the exception of
    its first evaluation through. *)
Theorem tracer_of_three_isotopes_raises_ValueError
    (pinv : ndarray -> ndarray)
    (minimize : (list num -> result (num * list num)) -> list num
                -> list bound -> result (list num))
    (s : self) (dataFrame : DataFrame) (M : ndarray) (n : Z) (t : list num) :
  pinv_contract pinv ->
  (forall f x0 bounds e,
      Forall2 within x0 bounds -> f x0 = Raise e ->
      minimize f x0 bounds = Raise e) ->
  matrix_of s = Ok M ->
  dict_get (elementsDict s) (atomTracer s) = Ok n ->
  dict_get (NaturalAbundanceDistributions s) (atomTracer s) = Ok t ->
  (1 <= n)%Z -> 3 <= List.length t ->
  well_formed dataFrame ->
  ncols (values dataFrame) <= ncols M ->
  correctForNaturalAbundance pinv minimize s dataFrame "SMC"
  = Raise ValueError
  /\ (1 <= nrows (values dataFrame) ->
      correctForNaturalAbundance pinv minimize s dataFrame "LSC"
      = Raise ValueError).
Proof.
  intros Hpinv Hmin HM Hn Ht Hn1 Ht3 Hwf Hle.
  assert (HM' := HM). unfold matrix_of in HM'.
  destruct (computeCorrectionMatrix_spec _ _ _ _ _ HM')
    as (base & n' & t' & _ & Hn' & Ht' & _ & _ & HwM & Hsh & _).
  rewrite Hn in Hn'. rewrite Ht in Ht'.
  injection Hn' as <-. injection Ht' as <-.
  pose proof (f_equal fst Hsh) as Hr. pose proof (f_equal snd Hsh) as Hc.
  cbn [fst snd shape] in Hr, Hc. unfold matrix_height in Hr. clear Hsh.
  assert (Hz : (n + 1 < 1 + n * (Z.of_nat (List.length t) - 1))%Z) by nia.
  assert (Hskew : ncols M < nrows M) by lia.
  assert (Hc2 : 2 <= ncols M) by lia.
  pose proof (extended_well_shaped _ _ Hwf Hle) as [Her Hec].
  unfold correctForNaturalAbundance. rewrite HM'. cbn [bind].
  rewrite (proj2 (Nat.ltb_ge _ _) Hle).
  fold (extended (ncols M) dataFrame).
  split.
  - cbn [String.eqb Ascii.eqb Bool.eqb read bind].
    destruct (Hpinv M HwM) as [_ Hshape]. unfold shape in Hshape.
    injection Hshape as Hpr Hpc.
    unfold matmul. cbn [transpose nrows ncols extended].
    destruct (Nat.eqb_spec (ncols M) (ncols (pinv M))) as [E|E]; [lia|].
    reflexivity.
  - intros Hrows. cbn [String.eqb Ascii.eqb Bool.eqb read bind].
    destruct (rows (extended (ncols M) dataFrame)) as [|first rest] eqn:E.
    { cbn [extended nrows List.length] in Her. lia. }
    cbn [bind].
    inversion Hec as [|? ? Hfirst Hrest]. cbn [extended ncols] in Hfirst.
    cbn [minimize_rows]. unfold minimizeCost at 1.
    rewrite Hfirst.
    rewrite (Hmin _ _ _ ValueError).
    + reflexivity.
    + rewrite repeat_length. apply zeros_within.
    + unfold computeCost, dot_mv. rewrite repeat_length, Nat.eqb_refl.
      cbn [bind]. unfold vsub. rewrite length_map.
      destruct HwM as [HrM _]. rewrite HrM, Hfirst.
      destruct (Nat.eqb_spec (ncols M) (nrows M)) as [E'|_]; [lia|].
      destruct first as [|x1 [|x2 first]]; cbn [List.length] in Hfirst;
        try lia.
      destruct (rows M) as [|r1 [|r2 rs]]; cbn [List.length] in HrM;
        try lia.
      reflexivity.
Qed.

Lemma oxygen_tracer_raises_ValueError :
  correctForNaturalAbundance transpose_as_pinv stop_at_start
    (mkSelf getNaturalAbundanceDistributions "C2H4O2" Examples.acetate "O"
       [q 0; q 1] (zeros 0 0))
    Examples.narrow_frame "SMC"
  = Raise ValueError
  /\ (1 <= nrows (values Examples.narrow_frame) ->
      correctForNaturalAbundance transpose_as_pinv stop_at_start
        (mkSelf getNaturalAbundanceDistributions "C2H4O2" Examples.acetate "O"
           [q 0; q 1] (zeros 0 0))
        Examples.narrow_frame "LSC"
      = Raise ValueError).
Proof.
  eapply (tracer_of_three_isotopes_raises_ValueError transpose_as_pinv
            stop_at_start _ Examples.narrow_frame _ 2%Z
            [q 0.99757; q 0.00038; q 0.00205]).
  - exact transpose_meets_contract.
  - intros f x0 bounds e Hw Hf. unfold stop_at_start.
    rewrite (proj2 (all_within_spec _ _) Hw), Hf. reflexivity.
  - vm_compute. reflexivity.
  - reflexivity.
  - reflexivity.
  - lia.
  - simpl. lia.
  - exact CorrectionClaims.narrow_frame_well_formed.
  - vm_compute. lia.
Defined.

(** *** The cost *)

Lemma square_nonneg (x : num) : (0 <= x * x)%Qc.
Proof.
  destruct (Qclt_le_dec x 0) as [H|H].
  - replace (x * x)%Qc with ((- x) * (- x))%Qc by ring.
    assert (Hx : (0 <= - x)%Qc).
    { apply Qclt_le_weak in H. apply Qcle_minus_iff in H.
      now rewrite Qcplus_0_l in H. }
    now apply nonneg_mult.
  - now apply nonneg_mult.
Qed.

Lemma vdot_square_nonneg (d : list num) : (0 <= vdot d d)%Qc.
Proof.
  induction d as [|x d IH]; cbn [vdot]; [apply Qcle_refl|].
  apply nonneg_plus; [apply square_nonneg | exact IH].
Qed.

Lemma nonneg_sum_zero (a b : num) :
  (0 <= a)%Qc -> (0 <= b)%Qc -> (a + b)%Qc = 0%Qc -> a = 0%Qc /\ b = 0%Qc.
Proof.
  intros Ha Hb H.
  assert (Ha' : (a <= 0)%Qc).
  { apply Qcle_minus_iff. rewrite Qcplus_0_l.
    replace (- a)%Qc with b; [exact Hb|].
    replace b with ((a + b) - a)%Qc by ring. rewrite H. ring. }
  assert (E : a = 0%Qc) by now apply Qcle_antisym.
  split; [exact E|]. subst a. now rewrite Qcplus_0_l in H.
Qed.

Lemma vdot_square_zero (d : list num) :
  vdot d d = 0%Qc <-> Forall (fun x => x = 0%Qc) d.
Proof.
  induction d as [|x d IH]; cbn [vdot].
  - split; [constructor | reflexivity].
  - split.
    + intros H.
      destruct (nonneg_sum_zero _ _ (square_nonneg x) (vdot_square_nonneg d) H)
        as [Hx Hd].
      constructor; [|now apply IH].
      now destruct (Qcmult_integral _ _ Hx).
    + intros H. inversion H as [|? ? Hx Hd]; subst.
      rewrite (proj2 IH Hd). ring.
Qed.

Lemma difference_zero (a b : list num) :
  List.length a = List.length b ->
  Forall (fun x => x = 0%Qc) (map (fun p => (fst p - snd p)%Qc) (combine a b))
  <-> a = b.
Proof.
  revert b; induction a as [|x a IH]; intros [|y b] Hlen;
    try discriminate Hlen.
  - split; [reflexivity | constructor].
  - cbn [combine map fst snd]. injection Hlen as Hlen. split.
    + intros H. inversion H as [|? ? Hx Hd]; subst.
      f_equal; [|now apply IH].
      replace x with ((x - y) + y)%Qc by ring. rewrite Hx. ring.
    + intros H. injection H as -> ->. constructor; [ring|].
      now apply IH.
Qed.

(** X11.  The cost that [_computeCost] returns is never negative, and for a
    target of the height of the matrix it is zero exactly when the product of
    the matrix and the current point is the target. *)
Theorem cost_is_a_squared_distance (currentMID target : list num)
    (correctionMatrix : ndarray) (cost : num) (gradient : list num) :
  computeCost currentMID target correctionMatrix = Ok (cost, gradient) ->
  (0 <= cost)%Qc
  /\ (well_shaped correctionMatrix ->
      List.length target = nrows correctionMatrix ->
      (cost = 0%Qc <-> dot_mv correctionMatrix currentMID = Ok target)).
Proof.
  unfold computeCost. intros H.
  destruct (dot_mv correctionMatrix currentMID) as [product|] eqn:Hp;
    [|discriminate].
  cbn [bind] in H.
  destruct (vsub target product) as [difference|] eqn:Hd; [|discriminate].
  cbn [bind] in H.
  destruct (dot_mv (transpose correctionMatrix) difference) as [g|];
    [|discriminate].
  cbn [bind] in H. injection H as <- _.
  split; [apply vdot_square_nonneg|].
  intros [Hr _] Hlen.
  assert (Hpl : List.length product = nrows correctionMatrix).
  { unfold dot_mv in Hp. destruct (_ =? _); [|discriminate].
    injection Hp as <-. now rewrite length_map. }
  unfold vsub in Hd. rewrite Hlen, Hpl, Nat.eqb_refl in Hd.
  injection Hd as <-.
  rewrite vdot_square_zero, difference_zero by congruence.
  split; [intros -> | intros E; injection E as <-]; reflexivity.
Qed.

Lemma cost_of_acetate_at_the_origin :
  (0 <= vdot [q 0.7; q 0.2; q 0.1] [q 0.7; q 0.2; q 0.1])%Qc
  /\ (well_shaped Examples.acetate_matrix ->
      List.length [q 0.7; q 0.2; q 0.1] = nrows Examples.acetate_matrix ->
      (vdot [q 0.7; q 0.2; q 0.1] [q 0.7; q 0.2; q 0.1] = 0%Qc
       <-> dot_mv Examples.acetate_matrix [0%Qc; 0%Qc; 0%Qc]
           = Ok [q 0.7; q 0.2; q 0.1])).
Proof.
  eapply (cost_is_a_squared_distance [0%Qc; 0%Qc; 0%Qc]
            [q 0.7; q 0.2; q 0.1] Examples.acetate_matrix).
  vm_compute. reflexivity.
Defined.

End MethodFacts.

(** * Further facts about [MSDataContainer] *)

(** ** The two files *)

Module FilesFacts.

Import Files.

Local Open Scope nat_scope.

Lemma first_filter_none {A : Type} (f : A -> bool) (l : list A) (e : exn) :
  first (filter f l) = Raise e ->
  e = IndexError /\ Forall (fun x => f x = false) l.
Proof.
  intros H. destruct (filter f l) as [|y l'] eqn:E; [|discriminate].
  injection H as <-. split; [reflexivity|].
  apply Forall_forall. intros x Hx.
  destruct (f x) eqn:Hf; [|reflexivity].
  assert (Hin : In x (filter f l)) by (apply filter_In; now split).
  rewrite E in Hin. contradiction.
Qed.

(** X12.  Of two names of which one has the keyword [template], the one without
    it is the data file and the other the template file, in whichever
    order the two are given. *)
Theorem two_files_in_any_order (data template : string) :
  contains "template" data = false ->
  contains "template" template = true ->
  init_fileNames [data; template] = Ok (data, template)
  /\ init_fileNames [template; data] = Ok (data, template).
Proof.
  intros Hd Ht.
  assert (Hne : String.eqb template data = false).
  { apply String.eqb_neq. intros ->. congruence. }
  unfold init_fileNames, getDataAndTemplateFileNames.
  cbn [List.length Nat.eqb filter]. rewrite Hd, Ht. cbn [negb first bind].
  cbn [filter]. rewrite String.eqb_refl, Hne. cbn [negb first bind].
  split; reflexivity.
Qed.

Lemma two_files_of_an_experiment :
  init_fileNames ["run1.xlsx"; "template_run1.xlsx"]
  = Ok ("run1.xlsx", "template_run1.xlsx")
  /\ init_fileNames ["template_run1.xlsx"; "run1.xlsx"]
     = Ok ("run1.xlsx", "template_run1.xlsx").
Proof.
  apply (two_files_in_any_order "run1.xlsx" "template_run1.xlsx");
    reflexivity.
Defined.

(** X13.  The files are refused in three cases only: they are not two
    ([AssertionError]); each of the two has the keyword, so that none is the
    data file; or the two names are the same, so that none is left for the
    template (an [IndexError] in both cases).  Two different names without
    the keyword are accepted. *)
Theorem refused_files (fileNames : list string) (e : exn) :
  init_fileNames fileNames = Raise e ->
  (e = AssertionError /\ List.length fileNames <> 2)
  \/ (e = IndexError
      /\ exists a b,
           fileNames = [a; b]
           /\ ((contains "template" a = true /\ contains "template" b = true)
               \/ a = b)).
Proof.
  unfold init_fileNames.
  destruct (Nat.eqb_spec (List.length fileNames) 2) as [Hlen|Hlen].
  2:{ intros H. injection H as <-. now left. }
  destruct fileNames as [|a [|b [|c l]]]; try discriminate Hlen.
  intros H. right. unfold getDataAndTemplateFileNames in H.
  destruct (first (filter _ [a; b])) as [d|e1] eqn:Hd.
  - cbn [bind] in H.
    destruct (first (filter (fun fileName => negb (String.eqb fileName d))
                            [a; b])) as [t|e2] eqn:Ht; [discriminate|].
    cbn [bind] in H. injection H as <-.
    destruct (first_filter_none _ _ _ Ht) as [-> Hall].
    split; [reflexivity|]. exists a, b. split; [reflexivity|]. right.
    inversion Hall as [|? ? Ha Hall']; subst.
    inversion Hall' as [|? ? Hb _]; subst.
    apply negb_false_iff, String.eqb_eq in Ha, Hb. congruence.
  - cbn [bind] in H. injection H as <-.
    destruct (first_filter_none _ _ _ Hd) as [-> Hall].
    split; [reflexivity|]. exists a, b. split; [reflexivity|]. left.
    inversion Hall as [|? ? Ha Hall']; subst.
    inversion Hall' as [|? ? Hb _]; subst.
    apply negb_false_iff in Ha, Hb. now split.
Qed.

Lemma refused_twice_the_same_file :
  (IndexError = AssertionError /\ List.length ["run1.xlsx"; "run1.xlsx"] <> 2)
  \/ (IndexError = IndexError
      /\ exists a b,
           ["run1.xlsx"; "run1.xlsx"] = [a; b]
           /\ ((contains "template" a = true /\ contains "template" b = true)
               \/ a = b)).
Proof.
  apply (refused_files ["run1.xlsx"; "run1.xlsx"] IndexError). reflexivity.
Defined.

End FilesFacts.

(** ** Samples and standards *)

Module SamplesFacts.

Import Samples.

Local Open Scope N_scope.

Lemma span_decimal_app (decimal : N -> bool) (ds rest : str) :
  forallb decimal ds = true -> no_decimal_ahead decimal rest ->
  span_decimal decimal (ds ++ rest) = (ds, rest).
Proof.
  intros Hds Hr. induction ds as [|c ds IH]; cbn [app span_decimal].
  - destruct rest as [|c rest]; [reflexivity|].
    cbn [no_decimal_ahead] in Hr. cbn [span_decimal]. now rewrite Hr.
  - cbn [forallb] in Hds. apply andb_prop in Hds. destruct Hds as [Hc Hds].
    now rewrite Hc, (IH Hds).
Qed.

Lemma forallb_weaken (f g : N -> bool) (l : list N) :
  (forall c, f c = true -> g c = true) ->
  forallb f l = true -> forallb g l = true.
Proof.
  intros Hfg. rewrite !forallb_forall. auto.
Qed.

(** X14.  Whatever decimal digits [\d] matches besides [0] to [9], the two
    patterns that tell the rows of the samples from the rows of the standards
    do not split the names in two.  A name that is not taken for a sample
    starts with [neg], or is taken for a standard, or is [S] and a decimal
    digit that is not one of [0] to [9].  A name made of [S], digits from
    [0] to [9] and more text, as [S1b], is taken for both, and without more
    text, also with a newline at its end, for a standard only.  A name made
    of [S] and decimal digits of which the first is not one of [0] to [9] is
    taken for neither. *)
Theorem samples_and_standards_overlap (decimal : N -> bool) :
  (forall c, ascii_digit c = true -> decimal c = true) ->
  (forall sampleName,
      isSample decimal sampleName = false ->
      starts_with (text "neg") sampleName = true
      \/ isStandard sampleName = true
      \/ exists c r,
           sampleName = 83 :: c :: r
           /\ decimal c = true /\ ascii_digit c = false)
  /\ (forall ds rest,
         ds <> [] -> forallb ascii_digit ds = true ->
         no_decimal_ahead decimal rest ->
         isStandard (83 :: ds ++ rest) = true
         /\ isSample decimal (83 :: ds ++ rest) = negb (at_end rest))
  /\ (forall c ds,
         decimal c = true -> ascii_digit c = false ->
         forallb decimal ds = true ->
         isStandard (83 :: c :: ds) = false
         /\ isSample decimal (83 :: c :: ds) = false).
Proof.
  intros Hdec. split; [|split].
  - intros name H. unfold isSample in H. apply negb_false_iff in H.
    apply orb_prop in H. destruct H as [H|H]; [now left|]. right.
    unfold standard_code in H.
    destruct name as [|c r]; [discriminate|].
    apply andb_prop in H. destruct H as [Hc H].
    apply N.eqb_eq in Hc. subst c.
    destruct r as [|d r]; [discriminate|].
    cbn [span_decimal] in H.
    destruct (decimal d) eqn:Hd; [|discriminate].
    destruct (ascii_digit d) eqn:Ha.
    + left. cbn [isStandard]. now rewrite Ha.
    + right. now exists d, r.
  - intros ds rest Hne Hd Hr.
    destruct ds as [|c ds]; [contradiction|].
    split.
    + cbn [app isStandard]. cbn [forallb] in Hd.
      apply andb_prop in Hd. now rewrite (proj1 Hd).
    + unfold isSample, standard_code.
      rewrite (span_decimal_app decimal (c :: ds) rest
                 (forallb_weaken _ _ _ Hdec Hd) Hr).
      reflexivity.
  - intros c ds Hc Ha Hds. split.
    + cbn [isStandard]. now rewrite Ha.
    + unfold isSample, standard_code.
      rewrite <- (app_nil_r (c :: ds)).
      rewrite (span_decimal_app decimal (c :: ds) []);
        [reflexivity | | exact I].
      cbn [forallb]. now rewrite Hc.
Qed.

Lemma ascii_or_fullwidth_names :
  (forall sampleName,
      isSample ascii_or_fullwidth sampleName = false ->
      starts_with (text "neg") sampleName = true
      \/ isStandard sampleName = true
      \/ exists c r,
           sampleName = 83 :: c :: r
           /\ ascii_or_fullwidth c = true /\ ascii_digit c = false)
  /\ (forall ds rest,
         ds <> [] -> forallb ascii_digit ds = true ->
         no_decimal_ahead ascii_or_fullwidth rest ->
         isStandard (83 :: ds ++ rest) = true
         /\ isSample ascii_or_fullwidth (83 :: ds ++ rest)
            = negb (at_end rest))
  /\ (forall c ds,
         ascii_or_fullwidth c = true -> ascii_digit c = false ->
         forallb ascii_or_fullwidth ds = true ->
         isStandard (83 :: c :: ds) = false
         /\ isSample ascii_or_fullwidth (83 :: c :: ds) = false).
Proof.
  apply (samples_and_standards_overlap ascii_or_fullwidth).
  intros c H. unfold ascii_or_fullwidth. rewrite H. reflexivity.
Defined.

End SamplesFacts.

(** ** The standard curves and the quantification *)

Module CurveFacts.

Import Np NAProcess Standards Measures.

Local Open Scope nat_scope.

(** What the mask of [computeStandardFits] keeps of the two columns. *)
Lemma select_originalMask :
  forall xvals yvals xs ys,
    select xvals (originalMask xvals yvals) = Ok xs ->
    select yvals (originalMask xvals yvals) = Ok ys ->
    List.length xvals = List.length yvals
    /\ List.length xs = List.length ys
    /\ Forall (fun x => x <> None) xs
    /\ Forall (fun y => exists v, y = Some v /\ v <> 0%Qc) ys.
Proof.
  induction xvals as [|x xvals IH]; intros [|y yvals] xs ys Hx Hy;
    cbn [originalMask combine map select] in Hx, Hy; try discriminate.
  - injection Hx as <-. injection Hy as <-. repeat split; constructor.
  - fold (originalMask xvals yvals) in Hx, Hy.
    destruct (select xvals (originalMask xvals yvals)) as [xs'|] eqn:Ex;
      [|discriminate].
    destruct (select yvals (originalMask xvals yvals)) as [ys'|] eqn:Ey;
      [|discriminate].
    cbn [bind fst snd] in Hx, Hy.
    destruct (IH _ _ _ Ex Ey) as (Hl & Hl' & Hxs & Hys).
    injection Hx as <-. injection Hy as <-.
    split; [cbn [List.length]; congruence|].
    destruct x as [x|], y as [y|]; cbn [isnan is_zero orb negb andb];
      try (now repeat split).
    destruct (Qc_eq_bool y 0) eqn:E0; cbn [orb negb andb];
      [now repeat split|].
    split; [cbn [List.length]; congruence|].
    split; constructor; try assumption; [discriminate|].
    exists y. split; [reflexivity|].
    intros ->. now rewrite Qc_eq_bool_refl in E0 || discriminate E0.
Qed.

(** X15.  [linregress] is called on calibration points only: on as many [x] as
    [y] values, two or more, of which none is NaN and no [y] is zero.  The
    fit of a column is the same for two regressions that agree on such
    points. *)
Theorem linregress_is_called_on_calibration_points
    (linregress1 linregress2 : list value -> list value -> result fit)
    (xvals yvals : list value) :
  (forall xs ys,
      calibration_points xs ys -> linregress1 xs ys = linregress2 xs ys) ->
  fit_column linregress1 xvals yvals = fit_column linregress2 xvals yvals.
Proof.
  intros Hagree. unfold fit_column.
  destruct (select xvals (originalMask xvals yvals)) as [xs|] eqn:Ex;
    [|reflexivity].
  destruct (select yvals (originalMask xvals yvals)) as [ys|] eqn:Ey;
    [|reflexivity].
  cbn [bind].
  destruct (select_originalMask _ _ _ _ Ex Ey) as (_ & Hl & Hxs & Hys).
  rewrite <- Hl.
  rewrite StandardsFacts.not_enough_values_below_two.
  destruct (Nat.ltb_spec (List.length xs) 2) as [Hlt|Hge]; [reflexivity|].
  rewrite (Hagree xs ys); [reflexivity|].
  repeat split; assumption.
Qed.

Lemma linregress_on_two_points :
  fit_column (fun xs ys => Ok (q 1, q 0, q 1))
    [Some (q 1); Some (q 5); None] [Some (q 1); Some (q 5); Some (q 2)]
  = fit_column
      (fun xs ys =>
         if 2 <=? List.length xs then Ok (q 1, q 0, q 1)
         else Raise ValueError)
      [Some (q 1); Some (q 5); None] [Some (q 1); Some (q 5); Some (q 2)].
Proof.
  apply (linregress_is_called_on_calibration_points
           (fun xs ys => Ok (q 1, q 0, q 1))
           (fun xs ys =>
              if 2 <=? List.length xs then Ok (q 1, q 0, q 1)
              else Raise ValueError)).
  intros xs ys (_ & H2 & _).
  now rewrite (proj2 (Nat.leb_le _ _) H2).
Defined.

(** X16.  The quantification inverts the line of the fit: a signal on the line
    at [x] nanomoles is quantified as [x], when the slope is not zero; and
    a signal that is NaN stays NaN. *)
Theorem quantify_inverts_the_fit (slope intercept r2 x : num) :
  slope <> 0%Qc ->
  quantify (slope, intercept, r2) (Some (slope * x + intercept)%Qc) = Some x
  /\ quantify (slope, intercept, r2) None = None.
Proof.
  intros Hs. split; [|reflexivity]. unfold quantify. cbn [fst snd].
  destruct (Qc_eq_bool slope 0) eqn:E.
  - apply Qc_eq_bool_correct in E. contradiction.
  - f_equal. field. exact Hs.
Qed.

Lemma quantify_on_a_line :
  quantify (q 2, q 1, q 1) (Some (q 2 * q 5 + q 1)%Qc) = Some (q 5)
  /\ quantify (q 2, q 1, q 1) None = None.
Proof.
  apply (quantify_inverts_the_fit (q 2) (q 1) (q 1) (q 5)). discriminate.
Defined.

Section Fits.

Variable linregress : list value -> list value -> result fit.
Variable parentalIonOf : string -> option string.

Lemma standard_fits_loop_keys :
  forall stdAbsorbance standardDf_nMoles fitDf fits,
    standard_fits_loop linregress parentalIonOf stdAbsorbance
      standardDf_nMoles fitDf = Ok fits ->
    exists added,
      fits = fitDf ++ added
      /\ subsequence (keys added) (keys stdAbsorbance).
Proof.
  induction stdAbsorbance as [|[col yvals] rest IH];
    intros nMoles fitDf fits H; cbn [standard_fits_loop] in H.
  - injection H as <-. exists []. rewrite app_nil_r. split; [reflexivity|].
    constructor.
  - cbn [fst].
    assert (Hskip : forall fits',
               standard_fits_loop linregress parentalIonOf rest nMoles fitDf
               = Ok fits' ->
               exists added,
                 fits' = fitDf ++ added
                 /\ subsequence (keys added) (keys ((col, yvals) :: rest))).
    { intros fits' H'. destruct (IH _ _ _ H') as (added & E & Hsub).
      exists added. split; [exact E|]. now constructor. }
    match type of H with
    | match ?xv with _ => _ end = _ => destruct xv as [xvals|]
    end; [|now apply Hskip].
    destruct (fit_column linregress xvals yvals) as [[f|]|] eqn:Hf;
      cbn [bind] in H; [| now apply Hskip | discriminate].
    destruct (IH _ _ _ H) as (added & E & Hsub).
    exists ((col, f) :: added). split.
    + rewrite E, <- app_assoc. reflexivity.
    + cbn [keys map fst]. now constructor.
Qed.

Lemma quantification_loop_columns :
  forall standardFits dataDf_norm resultsDf,
    quantification_loop standardFits dataDf_norm = Ok resultsDf ->
    keys resultsDf = keys standardFits
    /\ Forall2 (fun column f =>
                  exists signal,
                    dict_get dataDf_norm (fst f) = Ok signal
                    /\ snd column = map (quantify (snd f)) signal)
               resultsDf standardFits.
Proof.
  induction standardFits as [|[col f] rest IH]; intros norm res H;
    cbn [quantification_loop] in H.
  - injection H as <-. split; [reflexivity | constructor].
  - destruct (dict_get norm col) as [signal|] eqn:Hs; [|discriminate].
    cbn [bind] in H.
    destruct (quantification_loop rest norm) as [res'|] eqn:Hr;
      [|discriminate].
    cbn [bind] in H. injection H as <-.
    destruct (IH _ _ Hr) as [Hk Hall]. split.
    + unfold keys in *. cbn [map fst]. now rewrite Hk.
    + constructor; [|exact Hall]. exists signal. now split.
Qed.

End Fits.

(** X17.  For standards whose columns have distinct names, a quantification that
    is returned has one column for each standard that was fitted, under its
    name; these are columns of the standards, in their order, without those
    that were skipped; and each holds the normalized signal of that column,
    sample by sample, put through the inverse of its fit. *)
Theorem quantification_has_the_fitted_columns
    (linregress : list value -> list value -> result fit)
    (parentalIonOf : string -> option string)
    (stdAbsorbance standardDf_nMoles dataDf_norm resultsDf
     : dict (list value)) :
  NoDup (keys stdAbsorbance) ->
  computeQuantificationFromStandardFits linregress parentalIonOf
    stdAbsorbance standardDf_nMoles dataDf_norm = Ok resultsDf ->
  exists standardFits,
    computeStandardFits linregress parentalIonOf stdAbsorbance
      standardDf_nMoles = Ok standardFits
    /\ keys resultsDf = keys standardFits
    /\ subsequence (keys standardFits) (keys stdAbsorbance)
    /\ Forall2 (fun column f =>
                  exists signal,
                    dict_get dataDf_norm (fst f) = Ok signal
                    /\ snd column = map (quantify (snd f)) signal)
               resultsDf standardFits.
Proof.
  unfold computeQuantificationFromStandardFits. intros _ H.
  destruct (computeStandardFits linregress parentalIonOf stdAbsorbance
              standardDf_nMoles) as [fits|] eqn:Hfits; [|discriminate].
  cbn [bind] in H. exists fits. split; [reflexivity|].
  destruct (quantification_loop_columns _ _ _ H) as [Hk Hall].
  split; [exact Hk|]. split; [|exact Hall].
  unfold computeStandardFits in Hfits.
  destruct (_ =? _); [|discriminate].
  destruct (standard_fits_loop_keys _ _ _ _ _ _ Hfits) as (added & -> & Hsub).
  exact Hsub.
Qed.

Lemma quantification_of_two_points :
  exists resultsDf,
    computeQuantificationFromStandardFits
      (fun xs ys => Ok (q 2, q 1, q 1)) (fun col => None)
      Examples.two_point_absorbance Examples.two_point_nMoles
      [("C16:0 (270)", [Some (q 0.3)])] = Ok resultsDf
    /\ exists standardFits,
         computeStandardFits (fun xs ys => Ok (q 2, q 1, q 1))
           (fun col => None)
           Examples.two_point_absorbance Examples.two_point_nMoles
         = Ok standardFits
         /\ keys resultsDf = keys standardFits
         /\ subsequence (keys standardFits)
              (keys Examples.two_point_absorbance)
         /\ Forall2 (fun column f =>
                       exists signal,
                         dict_get [("C16:0 (270)", [Some (q 0.3)])] (fst f)
                         = Ok signal
                         /\ snd column = map (quantify (snd f)) signal)
                    resultsDf standardFits.
Proof.
  eexists. split; [vm_compute; reflexivity|].
  apply (quantification_has_the_fitted_columns
           (fun xs ys => Ok (q 2, q 1, q 1)) (fun col => None)
           Examples.two_point_absorbance Examples.two_point_nMoles
           [("C16:0 (270)", [Some (q 0.3)])]).
  - constructor; [intros [] | constructor].
  - vm_compute. reflexivity.
Defined.

End CurveFacts.

(** ** The labeled proportion *)

Module ProportionFacts.

Import Np NAProcess Standards Proportions Measures DistributionFacts.

Local Open Scope nat_scope.

Lemma nansum_nonneg (row : list value) :
  Forall (fun v => match v with Some x => (0 <= x)%Qc | None => True end) row ->
  (0 <= nansum row)%Qc.
Proof.
  induction 1 as [|[x|] row Hx _ IH]; cbn [nansum];
    [apply Qcle_refl | now apply nonneg_plus | exact IH].
Qed.

Lemma nansum_silent (row : list value) :
  Forall (fun v => v = None \/ v = Some 0%Qc) row -> nansum row = 0%Qc.
Proof.
  induction 1 as [|v row [-> | ->] _ IH]; cbn [nansum];
    [reflexivity | exact IH | rewrite IH; ring].
Qed.

(** X18.  For a row without negative entries, as the correction for natural
    abundance returns them, the labeled proportion lies between zero and
    one when it is a number; it is zero when no column after the first,
    M.0, has a signal, and one when M.0 has none. *)
Theorem labeled_proportion_is_a_proportion (row : list value) (p : num) :
  Forall (fun v => match v with Some x => (0 <= x)%Qc | None => True end) row ->
  calculateLabeledProportion row = Ok (Some p) ->
  (0 <= p)%Qc /\ (p <= 1)%Qc
  /\ (Forall (fun v => v = None \/ v = Some 0%Qc) (tl row) -> p = 0%Qc)
  /\ (hd None row = Some 0%Qc -> p = 1%Qc).
Proof.
  intros Hrow H. unfold calculateLabeledProportion in H.
  destruct row as [|[m0|] rest]; try discriminate.
  cbv zeta in H. injection H as H. cbn [nansum tl hd] in *.
  set (r := nansum rest) in *.
  destruct (Qc_eq_bool (m0 + r) 0) eqn:E; [discriminate H|].
  injection H as <-.
  inversion Hrow as [|? ? Hm0 Hrest]; subst.
  pose proof (nansum_nonneg _ Hrest) as Hr. fold r in Hr.
  assert (Hne : (m0 + r)%Qc <> 0%Qc).
  { intros E0. rewrite E0 in E. discriminate E. }
  assert (Hpos : (0 < m0 + r)%Qc).
  { destruct (Qcle_lt_or_eq _ _ (nonneg_plus _ _ Hm0 Hr)) as [Hlt|Heq];
      [exact Hlt | now symmetry in Heq]. }
  assert (Hp : ((m0 + r - m0) / (m0 + r) * (m0 + r) = r)%Qc).
  { field. exact Hne. }
  set (p := ((m0 + r - m0) / (m0 + r))%Qc) in *.
  split; [|split; [|split]].
  - apply (Qcmult_lt_0_le_reg_r _ _ _ Hpos). rewrite Hp, Qcmult_0_l.
    exact Hr.
  - apply (Qcmult_lt_0_le_reg_r _ _ _ Hpos). rewrite Hp, Qcmult_1_l.
    rewrite <- (Qcplus_0_l r) at 1. apply Qcplus_le_compat;
      [exact Hm0 | apply Qcle_refl].
  - intros Hsilent. apply nansum_silent in Hsilent. fold r in Hsilent.
    rewrite Hsilent in Hp, Hne.
    destruct (Qcmult_integral _ _ Hp) as [H0|H0]; [exact H0|contradiction].
  - intros E1. injection E1 as E1.
    subst p. rewrite E1. field. rewrite E1 in Hne.
    intros Hr0. apply Hne. rewrite Hr0. ring.
Qed.

Lemma labeled_proportion_of_a_row :
  exists p,
    calculateLabeledProportion [Some (q 0.7); Some (q 0.2); None; Some (q 0.1)]
    = Ok (Some p)
    /\ (0 <= p)%Qc /\ (p <= 1)%Qc
    /\ (Forall (fun v => v = None \/ v = Some 0%Qc)
               (tl [Some (q 0.7); Some (q 0.2); None; Some (q 0.1)]) ->
        p = 0%Qc)
    /\ (hd None [Some (q 0.7); Some (q 0.2); None; Some (q 0.1)]
        = Some 0%Qc ->
        p = 1%Qc).
Proof.
  eexists. split; [vm_compute; reflexivity|].
  apply (labeled_proportion_is_a_proportion
           [Some (q 0.7); Some (q 0.2); None; Some (q 0.1)]).
  - repeat constructor; discriminate.
  - vm_compute. reflexivity.
Defined.

End ProportionFacts.

(** ** The names of the columns *)

Module ColumnsFacts.

Import Re MSDataContainer NAProcess Files Columns Notions Measures.
Import FormulaFacts ParsingFacts MSDataContainerFacts ClusterFacts.

Local Open Scope nat_scope.

(** *** Strings *)

Lemma append_assoc (a b c : string) :
  ((a ++ b) ++ c)%string = (a ++ (b ++ c))%string.
Proof.
  induction a as [|x a IH]; cbn [append]; [reflexivity | now rewrite IH].
Qed.

Lemma substring_whole (s : string) : substring 0 (String.length s) s = s.
Proof. induction s as [|c s IH]; cbn; [reflexivity | now rewrite IH]. Qed.

Lemma every_app (f : ascii -> bool) (a b : string) :
  every f (a ++ b) = every f a && every f b.
Proof.
  induction a as [|c a IH]; cbn [append every]; [reflexivity|].
  now rewrite IH, andb_assoc.
Qed.

Lemma every_impl (f g : ascii -> bool) (s : string) :
  (forall c, f c = true -> g c = true) ->
  every f s = true -> every g s = true.
Proof.
  intros Hfg. induction s as [|c s IH]; cbn [every]; [reflexivity|].
  intros H. apply andb_prop in H. destruct H as [Hc Hs].
  now rewrite (Hfg c Hc), (IH Hs).
Qed.

Lemma all_digits_every (s : string) : all_digits s = every is_digit s.
Proof. induction s as [|c s IH]; cbn; [reflexivity | now rewrite IH]. Qed.

Lemma every_substring (f : ascii -> bool) (s : string) :
  every f s = true -> forall n m, every f (substring n m s) = true.
Proof.
  induction s as [|c s IH]; intros H n m.
  - now destruct n, m.
  - cbn [every] in H. apply andb_prop in H. destruct H as [Hc Hs].
    destruct n as [|n]; cbn [substring].
    + destruct m as [|m]; [reflexivity|]. cbn [every].
      now rewrite Hc, (IH Hs).
    + now apply IH.
Qed.

Lemma prefix_every (f : ascii -> bool) :
  forall p s,
    String.prefix p s = true -> every f s = true -> every f p = true.
Proof.
  induction p as [|a p IH]; intros s Hp Hs; [reflexivity|].
  destruct s as [|b s]; [discriminate|]. cbn [String.prefix] in Hp.
  destruct (ascii_dec a b) as [->|]; [|discriminate].
  cbn [every] in *. apply andb_prop in Hs. destruct Hs as [Hb Hs].
  now rewrite Hb, (IH s Hp Hs).
Qed.

Lemma contains_every (f : ascii -> bool) (p : string) :
  forall s, contains p s = true -> every f s = true -> every f p = true.
Proof.
  induction s as [|b s IH]; intros Hc Hs; cbn [contains] in Hc.
  - rewrite orb_false_r in Hc. eapply prefix_every; eassumption.
  - apply orb_prop in Hc. destruct Hc as [Hc|Hc].
    + eapply prefix_every; eassumption.
    + cbn [every] in Hs. apply andb_prop in Hs. now apply IH.
Qed.

Lemma prefix_app (p s : string) : String.prefix p (p ++ s) = true.
Proof.
  induction p as [|a p IH]; cbn [append String.prefix].
  - now destruct s.
  - destruct (ascii_dec a a); [exact IH | contradiction].
Qed.

Lemma contains_prefix (p s : string) :
  String.prefix p s = true -> contains p s = true.
Proof. intros H. destruct s; cbn [contains]; now rewrite H. Qed.

(** Two strings without a closing bracket, each followed by one: when the
    first is a prefix of the second, with what follows, they are equal. *)
Lemma prefix_to_bracket (b b' x y : string) :
  every (fun c => negb (Ascii.eqb c ")")) b = true ->
  every (fun c => negb (Ascii.eqb c ")")) b' = true ->
  String.prefix (b ++ ")" ++ x) (b' ++ ")" ++ y) = true -> b = b'.
Proof.
  revert b'. induction b as [|a b IH]; intros [|a' b'] Hb Hb' Hp;
    cbn [append String.prefix every] in *.
  - reflexivity.
  - destruct (ascii_dec ")" a') as [<-|]; [discriminate Hb' | discriminate Hp].
  - destruct (ascii_dec a ")") as [->|]; [discriminate Hb | discriminate Hp].
  - destruct (ascii_dec a a') as [<-|]; [|discriminate Hp].
    apply andb_prop in Hb, Hb'. f_equal.
    apply IH; [apply Hb | apply Hb' | exact Hp].
Qed.

(** *** Numbers and digits *)

Lemma str_int_nonneg (z : Z) :
  (0 <= z)%Z ->
  str_int z <> EmptyString
  /\ all_digits (str_int z) = true
  /\ int (str_int z) = Ok z.
Proof.
  intros Hz. destruct (Z.eq_dec z 0) as [->|Hne].
  - repeat split. discriminate.
  - destruct (str_int_positive z) as (c & ds & E & Hd & Hi); [lia|].
    repeat split; try assumption. rewrite E. discriminate.
Qed.

Lemma digit_is_plain (c : ascii) :
  is_digit c = true ->
  negb (Ascii.eqb c "C") && negb (Ascii.eqb c ")") && negb (Ascii.eqb c "-")
  = true.
Proof.
  destruct c as [[] [] [] [] [] [] [] []]; intros H;
    try discriminate H; reflexivity.
Qed.

Lemma not_digit_span (c : ascii) (s : string) :
  is_digit c = false -> span_digits (String c s) = (EmptyString, String c s).
Proof. intros H. cbn [span_digits]. now rewrite H. Qed.

(** *** Reading the name of a column *)

Lemma match_colName_formatted
    (ionID ionMass fraction description rest : string) :
  ionID <> EmptyString -> all_digits ionID = true ->
  ionMass <> EmptyString -> all_digits ionMass = true ->
  description <> EmptyString -> all_digits description = true ->
  all_digits fraction = true ->
  no_digit_ahead rest ->
  match_colName (ionID ++ "_" ++ ionMass ++ "_" ++ description ++ rest)
  = Some (ionID, ionMass, description)
  /\ (fraction <> EmptyString ->
      match_colName (ionID ++ "_" ++ ionMass ++ "." ++ fraction ++ "_"
                       ++ description ++ rest)
      = Some (ionID, ionMass, description)).
Proof.
  intros Hi Hid Hm Hmd Hd Hdd Hfd Hr.
  destruct ionID as [|i0 ionID]; [contradiction|].
  destruct ionMass as [|m0 ionMass]; [contradiction|].
  destruct description as [|d0 description]; [contradiction|].
  pose proof (span_digits_app (String d0 description) rest Hdd Hr) as Hs3.
  split.
  - unfold match_colName.
    rewrite (span_digits_app (String i0 ionID)) by (assumption || reflexivity).
    cbn [append]. fold (append ionMass).
    change (String m0 (ionMass ++ String "_" (String d0 (description ++ rest))))
      with (String m0 ionMass ++ "_" ++ String d0 description ++ rest)%string.
    rewrite (span_digits_app (String m0 ionMass))
      by (assumption || reflexivity).
    cbn [append skip_fraction].
    change (String d0 (description ++ rest))
      with (String d0 description ++ rest)%string.
    now rewrite Hs3.
  - intros Hf. destruct fraction as [|f0 fraction]; [contradiction|].
    unfold match_colName.
    rewrite (span_digits_app (String i0 ionID)) by (assumption || reflexivity).
    cbn [append].
    change (String m0
              (ionMass
               ++ String "."
                    (String f0
                       (fraction
                        ++ String "_" (String d0 (description ++ rest))))))
      with (String m0 ionMass ++ "." ++ String f0 fraction ++ "_"
              ++ String d0 description ++ rest)%string.
    rewrite (span_digits_app (String m0 ionMass))
      by (assumption || reflexivity).
    cbn [append skip_fraction].
    change (String f0
              (fraction ++ String "_" (String d0 (description ++ rest))))
      with (String f0 fraction ++ "_" ++ String d0 description ++ rest)%string.
    rewrite (span_digits_app (String f0 fraction))
      by (assumption || reflexivity).
    cbn [append].
    change (String d0 (description ++ rest))
      with (String d0 description ++ rest)%string.
    now rewrite Hs3.
Qed.

Lemma first_colName_skip (prefix s : string) :
  no_digits prefix = true ->
  first_colName (prefix ++ s) = first_colName s.
Proof.
  unfold no_digits. induction prefix as [|c p IH]; intros H; [reflexivity|].
  cbn [every] in H. apply andb_prop in H. destruct H as [Hc Hp].
  apply negb_true_iff in Hc.
  cbn [append first_colName]. unfold match_colName at 1.
  rewrite (not_digit_span c _ Hc). now apply IH.
Qed.

Lemma first_colName_found (s : string) (groups : string * string * string) :
  match_colName s = Some groups -> first_colName s = Ok groups.
Proof. intros H. destruct s; cbn [first_colName]; now rewrite H. Qed.

(** X19.  The name of a column is read back: the text before the first digit is
    passed over, the number of the ion and its mass are read as integers,
    a fraction of the mass is dropped, and the description is the run of
    digits after the second underscore. *)
Theorem parseIon_reads_the_column_name
    (prefix fraction description rest : string) (ionID ionMass : Z) :
  no_digits prefix = true ->
  (0 <= ionID)%Z -> (0 <= ionMass)%Z ->
  all_digits fraction = true ->
  description <> EmptyString -> all_digits description = true ->
  no_digit_ahead rest ->
  parseIon (prefix ++ str_int ionID ++ "_" ++ str_int ionMass ++ "_"
              ++ description ++ rest)
  = Ok (mkIon ionID ionMass description)
  /\ (fraction <> EmptyString ->
      parseIon (prefix ++ str_int ionID ++ "_" ++ str_int ionMass ++ "."
                  ++ fraction ++ "_" ++ description ++ rest)
      = Ok (mkIon ionID ionMass description)).
Proof.
  intros Hp Hi Hm Hfd Hd Hdd Hr.
  destruct (str_int_nonneg ionID Hi) as (Hi1 & Hi2 & Hi3).
  destruct (str_int_nonneg ionMass Hm) as (Hm1 & Hm2 & Hm3).
  destruct (match_colName_formatted (str_int ionID) (str_int ionMass)
              fraction description rest Hi1 Hi2 Hm1 Hm2 Hd Hdd Hfd Hr)
    as [H1 H2].
  split; [|intros Hf; specialize (H2 Hf)];
    unfold parseIon; rewrite (first_colName_skip _ _ Hp);
    [rewrite (first_colName_found _ _ H1)
    |rewrite (first_colName_found _ _ H2)];
    cbn [bind fst snd]; rewrite Hi3, Hm3; reflexivity.
Qed.

Lemma parseIon_reads_an_area_column :
  parseIon "Area 7_270_160" = Ok (mkIon 7 270 "160")
  /\ parseIon "Area 7_270.2_160" = Ok (mkIon 7 270 "160").
Proof.
  assert (H := parseIon_reads_the_column_name "Area " "2" "160" "" 7 270
                 eq_refl ltac:(lia) ltac:(lia) eq_refl ltac:(discriminate)
                 eq_refl I).
  split; [exact (proj1 H) | apply (proj2 H); discriminate].
Defined.

Lemma match_colName_digits (s : string) (groups : string * string * string) :
  match_colName s = Some groups ->
  snd groups <> EmptyString /\ all_digits (snd groups) = true
  /\ fst (fst groups) <> EmptyString /\ all_digits (fst (fst groups)) = true
  /\ snd (fst groups) <> EmptyString /\ all_digits (snd (fst groups)) = true.
Proof.
  unfold match_colName.
  pose proof (span_digits_all s) as H1.
  destruct (span_digits s) as [[|c1 g1] r1]; [discriminate|].
  destruct r1 as [|u s1]; [discriminate|].
  destruct (Ascii.eqb_spec u "_") as [->|Hu].
  2:{ destruct u as [[] [] [] [] [] [] [] []]; try discriminate.
      now contradiction Hu. }
  pose proof (span_digits_all s1) as H2.
  destruct (span_digits s1) as [[|c2 g2] s2]; [discriminate|].
  destruct (skip_fraction s2) as [s3|]; [|discriminate].
  pose proof (span_digits_all s3) as H3.
  destruct (span_digits s3) as [[|c3 g3] r3]; [discriminate|].
  intros H. injection H as <-. cbn [fst snd] in *.
  repeat split; try discriminate; assumption.
Qed.

Lemma first_colName_digits (s : string) (groups : string * string * string) :
  first_colName s = Ok groups ->
  snd groups <> EmptyString /\ all_digits (snd groups) = true
  /\ fst (fst groups) <> EmptyString /\ all_digits (fst (fst groups)) = true
  /\ snd (fst groups) <> EmptyString /\ all_digits (snd (fst groups)) = true.
Proof.
  induction s as [|c s IH]; cbn [first_colName].
  - discriminate.
  - destruct (match_colName (String c s)) as [g|] eqn:E; [|exact IH].
    intros H. injection H as <-. exact (match_colName_digits _ _ E).
Qed.

(** An ion that is read has a description made of digits, and its number
    and its mass are not negative. *)
Lemma parseIon_Ok (name : string) (ion : MSDataContainer.ion) :
  parseIon name = Ok ion ->
  description ion <> EmptyString
  /\ all_digits (description ion) = true
  /\ (0 <= mass ion)%Z /\ (0 <= ion_id ion)%Z.
Proof.
  unfold parseIon. intros H.
  destruct (first_colName name) as [groups|] eqn:Hg; [|discriminate].
  cbn [bind] in H.
  destruct (int (fst (fst groups))) as [i|] eqn:Hi; [|discriminate].
  cbn [bind] in H.
  destruct (int (snd (fst groups))) as [m|] eqn:Hm; [|discriminate].
  cbn [bind] in H. injection H as <-. cbn [description mass ion_id].
  destruct (first_colName_digits _ _ Hg) as (H1 & H2 & _).
  repeat split; try assumption; eapply int_nonneg; eassumption.
Qed.

Lemma parseSampleColumns_Ok :
  forall columnNames ions,
    parseSampleColumns columnNames = Ok ions ->
    List.length ions = List.length columnNames
    /\ Forall (fun ion => description ion <> EmptyString
                          /\ all_digits (description ion) = true
                          /\ (0 <= mass ion)%Z) ions.
Proof.
  induction columnNames as [|name names IH]; intros ions H;
    cbn [parseSampleColumns] in H.
  - injection H as <-. split; [reflexivity | constructor].
  - destruct (parseIon name) as [ion|] eqn:Hion; [|discriminate].
    cbn [bind] in H.
    destruct (parseSampleColumns names) as [ions'|] eqn:Hions;
      [|discriminate].
    cbn [bind] in H. injection H as <-.
    destruct (IH _ eq_refl) as [Hlen Hall].
    split; [cbn [List.length]; now rewrite Hlen|].
    constructor; [|exact Hall].
    destruct (parseIon_Ok _ _ Hion) as (H1 & H2 & H3 & _). now repeat split.
Qed.

(** *** From the name of a column to the formula *)

Lemma take_drop_three (c1 c2 c3 : ascii) (r : string) :
  str_take2 (String c1 (String c2 (String c3 r)))
  = String c1 (String c2 EmptyString)
  /\ str_drop2 (String c1 (String c2 (String c3 r))) = String c3 r.
Proof.
  unfold str_take2, str_drop2. cbn [substring String.length Nat.sub].
  split; [reflexivity|]. now rewrite substring_whole.
Qed.

Lemma first_chain_without_C (s : string) :
  every (fun c => negb (Ascii.eqb c "C")) s = true ->
  first_chain s = Raise IndexError.
Proof.
  induction s as [|c s IH]; intros H; [reflexivity|].
  cbn [every] in H. apply andb_prop in H. destruct H as [Hc Hs].
  cbn [first_chain].
  assert (Hm : match_chain (String c s) = None).
  { unfold match_chain.
    destruct c as [[] [] [] [] [] [] [] []]; try reflexivity.
    discriminate Hc. }
  rewrite Hm. now apply IH.
Qed.

Lemma digits_without_C (s : string) :
  all_digits s = true -> every (fun c => negb (Ascii.eqb c "C")) s = true.
Proof.
  rewrite all_digits_every. apply every_impl. intros c Hc.
  pose proof (digit_is_plain c Hc) as H.
  apply andb_prop in H. destruct H as [H _].
  apply andb_prop in H. now destruct H.
Qed.

Lemma take_drop_short (s : string) :
  String.length s <= 2 -> str_take2 s = s /\ str_drop2 s = EmptyString.
Proof.
  destruct s as [|c1 [|c2 [|c3 r]]]; cbn [String.length]; intros H;
    try lia; now split.
Qed.

Lemma first_chain_step (c : ascii) (s : string) :
  match_chain (String c s) = None ->
  first_chain (String c s) = first_chain s.
Proof. intros H. cbn [first_chain]. now rewrite H. Qed.

(** A name without double bonds: no chain is found in it. *)
Lemma first_chain_without_bonds (ds m : string) :
  ds <> EmptyString -> all_digits ds = true -> all_digits m = true ->
  first_chain ("C" ++ ds ++ ":" ++ "" ++ " (" ++ m ++ ")")
  = Raise IndexError.
Proof.
  intros Hne Hd Hm. cbn [append].
  rewrite first_chain_step.
  - apply first_chain_without_C.
    change (String ":" (String " " (String "(" (m ++ ")"))))
      with (": (" ++ m ++ ")")%string.
    rewrite every_app, (digits_without_C _ Hd).
    change (": (" ++ m ++ ")")%string
      with (String ":" (String " " (String "(" (m ++ ")")))).
    cbn [every Ascii.eqb Bool.eqb negb andb].
    rewrite every_app, (digits_without_C _ Hm). reflexivity.
  - unfold match_chain.
    change (String ":" (String " " (String "(" (m ++ ")"))))
      with (":" ++ " (" ++ m ++ ")")%string.
    rewrite (span_digits_app ds) by (assumption || reflexivity).
    destruct ds as [|d0 ds]; [contradiction|].
    cbn [append span_digits].
    change (is_digit " ") with false. reflexivity.
Qed.

(** X20.  The name that a column is given is read by [NAProcess] as a chain when
    the description of the ion has three digits or more: the first two are
    the number of carbons, the others the number of double bonds.  For a
    description of one or two digits the name has no double bonds written,
    and [getFAFormulaString] raises [IndexError] on it. *)
Theorem column_name_is_read_as_a_chain (name : string)
    (ion : MSDataContainer.ion) :
  parseIon name = Ok ion ->
  (3 <= String.length (description ion) ->
   exists carbon doubleBond,
     int (str_take2 (description ion)) = Ok carbon
     /\ int (str_drop2 (description ion)) = Ok doubleBond
     /\ chain_numbers (dataColName ion) = Ok (carbon, doubleBond))
  /\ (String.length (description ion) <= 2 ->
      forall FAMES CHOL,
        getFAFormulaString (dataColName ion) FAMES CHOL = Raise IndexError).
Proof.
  intros Hion. destruct (parseIon_Ok _ _ Hion) as (Hne & Hd & Hm & _).
  destruct (str_int_nonneg _ Hm) as (_ & Hmd & _).
  unfold dataColName. set (m := str_int (mass ion)) in *.
  split.
  - intros Hlen.
    destruct (description ion) as [|c1 [|c2 [|c3 r]]] eqn:Edesc;
      cbn [String.length] in Hlen; try lia.
    destruct (take_drop_three c1 c2 c3 r) as [-> ->].
    cbn [all_digits] in Hd. apply andb_prop in Hd. destruct Hd as [H1 Hd].
    apply andb_prop in Hd. destruct Hd as [H2 Hd3].
    assert (Hd12 : all_digits (String c1 (String c2 "")) = true).
    { cbn [all_digits]. now rewrite H1, H2. }
    destruct (int_digits (String c1 (String c2 ""))) as (n & Hn & _);
      [discriminate | exact Hd12 |].
    destruct (int_digits (String c3 r)) as (d & Hdb & _);
      [discriminate | exact Hd3 |].
    exists n, d. split; [exact Hn|]. split; [exact Hdb|].
    unfold chain_numbers.
    assert (Hchain : first_chain
                       ("C" ++ String c1 (String c2 "") ++ ":"
                            ++ String c3 r ++ " (" ++ m ++ ")")
                     = Ok (String c1 (String c2 ""), String c3 r)).
    { cbn [append first_chain]. unfold match_chain.
      change (String c1
                (String c2
                   (String ":"
                      (String c3
                         (r ++ String " " (String "(" (m ++ ")")))))))
        with (String c1 (String c2 "") ++ ":" ++ String c3 r ++ " ("
                ++ m ++ ")")%string.
      rewrite (span_digits_app (String c1 (String c2 "")))
        by (assumption || reflexivity).
      cbn [append].
      change (String c3 (r ++ String " " (String "(" (m ++ ")"))))
        with (String c3 r ++ " (" ++ m ++ ")")%string.
      rewrite (span_digits_app (String c3 r)) by (assumption || reflexivity).
      reflexivity. }
    rewrite Hchain. cbn [bind fst snd]. rewrite Hn, Hdb. reflexivity.
  - intros Hlen FAMES CHOL.
    destruct (take_drop_short _ Hlen) as [-> ->].
    unfold getFAFormulaString.
    rewrite (first_chain_without_bonds _ m Hne Hd Hmd). reflexivity.
Qed.

Lemma palmitate_column_is_read_as_a_chain :
  (exists carbon doubleBond,
      int (str_take2 "160") = Ok carbon
      /\ int (str_drop2 "160") = Ok doubleBond
      /\ chain_numbers (dataColName (mkIon 7 270 "160"))
         = Ok (carbon, doubleBond))
  /\ (forall FAMES CHOL,
         getFAFormulaString (dataColName (mkIon 8 74 "16")) FAMES CHOL
         = Raise IndexError).
Proof.
  split.
  - apply (proj1 (column_name_is_read_as_a_chain "7_270_160"
                    (mkIon 7 270 "160") eq_refl)).
    cbn. lia.
  - apply (proj2 (column_name_is_read_as_a_chain "8_74_16"
                    (mkIon 8 74 "16") eq_refl)).
    cbn. lia.
Defined.

(** *** The groups and the names of their columns *)

Lemma groupby_keys {A : Type} (key : A -> string) (l : list A) :
  Forall (fun g => Forall (fun x => key x = fst g) (snd g)) (groupby key l).
Proof.
  induction l as [|x l IH]; cbn [groupby]; [constructor|].
  destruct (groupby key l) as [|[k g] rest].
  - repeat constructor.
  - inversion IH as [|? ? Hg Hrest]; subst. cbn [fst snd] in Hg.
    destruct (String.eqb_spec (key x) k) as [E|E].
    + constructor; [|exact Hrest]. cbn [fst snd]. now constructor.
    + constructor; [repeat constructor|]. now constructor.
Qed.

Lemma before_dash_plain (k rest : string) :
  every (fun c => negb (Ascii.eqb c "-")) k = true ->
  before_dash k = k /\ before_dash (k ++ String "-" rest) = k.
Proof.
  induction k as [|c k IH]; intros H; [now split|].
  cbn [every] in H. apply andb_prop in H. destruct H as [Hc Hk].
  apply negb_true_iff in Hc. destruct (IH Hk) as [H1 H2].
  cbn [append before_dash]. rewrite Hc. now rewrite H1, H2.
Qed.

Lemma digits_without_dash (s : string) :
  all_digits s = true -> every (fun c => negb (Ascii.eqb c "-")) s = true.
Proof.
  rewrite all_digits_every. apply every_impl. intros c Hc.
  pose proof (digit_is_plain c Hc) as H.
  apply andb_prop in H. now destruct H.
Qed.

Lemma split_group_named (k : string) (g : list indexed_ion) :
  all_digits k = true -> g <> [] ->
  Forall (fun e => idescription e = k) g ->
  Forall named_after_key (split_group k g).
Proof.
  intros Hk Hne Hall. apply Forall_forall. intros [key c] Hin.
  assert (Hc : In c (runs g)).
  { rewrite <- (split_group_runs k g). apply in_map_iff.
    now exists (key, c). }
  assert (Hkey : before_dash key = k).
  { assert (Hkin : In key (map fst (split_group k g))).
    { apply in_map_iff. now exists (key, c). }
    pose proof (digits_without_dash _ Hk) as Hplain.
    unfold split_group in Hkin.
    destruct (List.length g =? 1).
    { cbn in Hkin. destruct Hkin as [<-|[]].
      exact (proj1 (before_dash_plain k "" Hplain)). }
    destruct (where_not_one 0 (differences (map imass g))) as [|i idx].
    { cbn in Hkin. destruct Hkin as [<-|[]].
      exact (proj1 (before_dash_plain k "" Hplain)). }
    rewrite split_loop_keys in Hkin. apply in_map_iff in Hkin.
    destruct Hkin as (j & <- & _).
    exact (proj2 (before_dash_plain k _ Hplain)). }
  split; cbn [fst snd].
  - pose proof (runs_nonempty g Hne) as Hr. rewrite Forall_forall in Hr.
    now apply Hr.
  - rewrite Hkey. apply Forall_forall. intros e He.
    rewrite Forall_forall in Hall. apply Hall.
    rewrite <- (runs_concat g). apply in_concat. now exists c.
Qed.

Lemma groups_named (ionsDetected : list MSDataContainer.ion) :
  Forall (fun ion => all_digits (description ion) = true) ionsDetected ->
  Forall named_after_key (getIonParentedGroups ionsDetected).
Proof.
  intros Hd. unfold getIonParentedGroups, groupsIntraSorted.
  apply Forall_flat_map, Forall_map, Forall_forall. intros [k g] Hin.
  cbn [fst snd].
  pose proof (groupby_keys idescription (enumerate ionsDetected)) as Hkeys.
  pose proof (groupby_nonempty idescription (enumerate ionsDetected)) as Hne.
  rewrite Forall_forall in Hkeys, Hne.
  specialize (Hkeys _ Hin). specialize (Hne _ Hin). cbn [fst snd] in *.
  assert (Hg : forall e, In e g -> idescription e = k /\ all_digits k = true).
  { intros e He. rewrite Forall_forall in Hkeys.
    split; [now apply Hkeys|]. rewrite <- (Hkeys e He).
    assert (Hall : In e (enumerate ionsDetected)).
    { rewrite <- (groupby_concat idescription (enumerate ionsDetected)).
      apply in_concat. exists g. split; [|exact He].
      apply in_map_iff. now exists (k, g). }
    assert (Hs : In (snd e) ionsDetected).
    { unfold enumerate in Hall.
      rewrite <- (enumerate_from_snd 0 ionsDetected). now apply in_map. }
    rewrite Forall_forall in Hd. exact (Hd _ Hs). }
  destruct g as [|e0 g']; [contradiction|].
  apply split_group_named.
  - exact (proj2 (Hg e0 (or_introl eq_refl))).
  - intros E. pose proof (sorted_perm imass (e0 :: g')) as Hp.
    rewrite E in Hp. apply Permutation_nil in Hp. discriminate Hp.
  - apply Forall_forall. intros e He. apply Hg.
    eapply Permutation_in; [apply sorted_perm | exact He].
Qed.

Lemma ionName_of_parental (first e : indexed_ion) (n : nat) (k : string) :
  idescription e = k ->
  ionName first n e
  = (("C" ++ str_take2 k ++ ":" ++ str_drop2 k ++ " ("
          ++ str_int (imass first) ++ ")") ++ " M." ++ str_nat n)%string.
Proof.
  intros <-. unfold ionName.
  repeat (progress (rewrite ?append_assoc; cbn [append])). reflexivity.
Qed.

Lemma names_of_group (first : indexed_ion) (P : string) (k : string) :
  P = ("C" ++ str_take2 k ++ ":" ++ str_drop2 k ++ " ("
           ++ str_int (imass first) ++ ")")%string ->
  forall l start,
    Forall (fun e => idescription e = k) l ->
    map (fun ne => ionName first (fst ne) (snd ne)) (enumerate_from start l)
    = map (fun n => (P ++ " M." ++ str_nat n)%string)
          (seq start (List.length l)).
Proof.
  intros ->. induction l as [|e l IH]; intros start Hall; [reflexivity|].
  inversion Hall as [|? ? He Hl]; subst.
  cbn [enumerate_from map List.length seq fst snd].
  rewrite (ionName_of_parental first e start _ eq_refl). f_equal.
  now apply IH.
Qed.

Lemma positions_of_group (l : list indexed_ion) :
  forall start,
    map (fun ne : nat * indexed_ion => fst (snd ne)) (enumerate_from start l)
    = map fst l.
Proof.
  induction l as [|e l IH]; intros start; [reflexivity|].
  cbn [enumerate_from map fst snd]. now rewrite IH.
Qed.

(** The names of the columns of each group, from the name of its parental
    ion. *)
Lemma names_of_groups :
  forall gs,
    Forall named_after_key gs ->
    exists refs,
      parentalNames gs = Ok refs
      /\ List.length refs = List.length gs
      /\ map snd (sortedIonNames gs)
         = flat_map (fun rg =>
                       map (fun n => (fst rg ++ " M." ++ str_nat n)%string)
                           (seq 0 (List.length (snd rg))))
                    (combine refs (map snd gs))
      /\ map fst (sortedIonNames gs) = map fst (List.concat (map snd gs)).
Proof.
  induction gs as [|[key g] gs IH]; intros Hall.
  - exists []. repeat split.
  - inversion Hall as [|? ? [Hne Hg] Hall']; subst. cbn [fst snd] in *.
    destruct (IH Hall') as (refs & H1 & H2 & H3 & H4).
    destruct g as [|first rest]; [contradiction|].
    eexists. cbn [parentalNames]. unfold parentalName at 1. cbn [fst snd].
    rewrite H1. cbn [bind].
    split; [reflexivity|]. split; [cbn [List.length]; now rewrite H2|].
    unfold sortedIonNames in *. cbn [flat_map map combine fst snd].
    rewrite !map_app, H3, H4. cbn [List.concat]. rewrite map_app.
    split; f_equal.
    + unfold groupIonNames. rewrite map_map. cbn [snd].
      apply (names_of_group first _ (before_dash key) eq_refl
               (first :: rest) 0 Hg).
    + unfold groupIonNames. rewrite map_map. cbn [fst].
      apply positions_of_group.
Qed.

Lemma parsed_descriptions (columnNames : list string)
    (ions : list MSDataContainer.ion) :
  parseSampleColumns columnNames = Ok ions ->
  Forall (fun ion => all_digits (description ion) = true) ions.
Proof.
  intros H. destruct (parseSampleColumns_Ok _ _ H) as [_ Hall].
  eapply Forall_impl; [|exact Hall]. intros ion (_ & Hd & _). exact Hd.
Qed.

Lemma labeled_columns_facts (columnsOfInterest : list string)
    (ionsDetected : list MSDataContainer.ion) :
  parseSampleColumns columnsOfInterest = Ok ionsDetected ->
  exists refs,
    parentalNames (getIonParentedGroups ionsDetected) = Ok refs
    /\ List.length refs = List.length (getIonParentedGroups ionsDetected)
    /\ map snd (sortedIonNames (getIonParentedGroups ionsDetected))
       = flat_map (fun rg =>
                     map (fun n => (fst rg ++ " M." ++ str_nat n)%string)
                         (seq 0 (List.length (snd rg))))
                  (combine refs
                     (map snd (getIonParentedGroups ionsDetected)))
    /\ Permutation
         (map fst (sortedIonNames (getIonParentedGroups ionsDetected)))
         (seq 0 (List.length columnsOfInterest)).
Proof.
  intros Hparse.
  destruct (names_of_groups (getIonParentedGroups ionsDetected)
              (groups_named _ (parsed_descriptions _ _ Hparse)))
    as (refs & H1 & H2 & H3 & H4).
  exists refs. repeat (split; [assumption|]).
  rewrite H4.
  destruct (parseSampleColumns_Ok _ _ Hparse) as [Hlen _].
  rewrite <- Hlen, <- (enumerate_from_fst 0 ionsDetected).
  apply Permutation_map. apply getIonParentedGroups_perm.
Qed.

(** X21.  In a labeled experiment the columns are taken in a new order, which is
    a permutation of their positions, and each is named after the parental
    ion of its group: the name of the parental ion, as it stands in
    [internalRefList], followed by [M.0], [M.1] and so on along the group.
    No group is empty, so that every group has a parental ion. *)
Theorem labeled_columns_are_named_after_the_parental_ion
    (columnsOfInterest : list string)
    (ionsDetected : list MSDataContainer.ion) :
  parseSampleColumns columnsOfInterest = Ok ionsDetected ->
  let finalGroups := getIonParentedGroups ionsDetected in
  exists refs,
    parentalNames finalGroups = Ok refs
    /\ List.length refs = List.length finalGroups
    /\ map snd (sortedIonNames finalGroups)
       = flat_map (fun rg =>
                     map (fun n => (fst rg ++ " M." ++ str_nat n)%string)
                         (seq 0 (List.length (snd rg))))
                  (combine refs (map snd finalGroups))
    /\ Permutation (map fst (sortedIonNames finalGroups))
                   (seq 0 (List.length columnsOfInterest)).
Proof.
  intros Hparse finalGroups.
  pose proof (groups_named _ (parsed_descriptions _ _ Hparse)) as Hnamed.
  destruct (names_of_groups finalGroups Hnamed) as (refs & H1 & H2 & H3 & H4).
  exists refs. repeat (split; [assumption|]).
  rewrite H4.
  destruct (parseSampleColumns_Ok _ _ Hparse) as [Hlen _].
  rewrite <- Hlen, <- (enumerate_from_fst 0 ionsDetected).
  apply Permutation_map. apply getIonParentedGroups_perm.
Qed.

Lemma labeled_columns_of_palmitate :
  exists ionsDetected,
    parseSampleColumns ["1_270_160"; "2_271_160"; "3_272_160"]
    = Ok ionsDetected
    /\ let finalGroups := getIonParentedGroups ionsDetected in
       exists refs,
         parentalNames finalGroups = Ok refs
         /\ List.length refs = List.length finalGroups
         /\ map snd (sortedIonNames finalGroups)
            = flat_map (fun rg =>
                          map (fun n => (fst rg ++ " M." ++ str_nat n)%string)
                              (seq 0 (List.length (snd rg))))
                       (combine refs (map snd finalGroups))
         /\ Permutation (map fst (sortedIonNames finalGroups))
                        (seq 0 (List.length
                                  ["1_270_160"; "2_271_160"; "3_272_160"])).
Proof.
  eexists. split; [vm_compute; reflexivity|].
  apply (labeled_columns_are_named_after_the_parental_ion
           ["1_270_160"; "2_271_160"; "3_272_160"]).
  vm_compute. reflexivity.
Defined.

(** *** The columns that [filter(like=parentalIon)] keeps *)

Lemma final_group_ions (columnNames : list string)
    (ions : list MSDataContainer.ion) (g : string * list indexed_ion)
    (e : indexed_ion) :
  parseSampleColumns columnNames = Ok ions ->
  In g (getIonParentedGroups ions) -> In e (snd g) ->
  all_digits (idescription e) = true /\ (0 <= imass e)%Z.
Proof.
  intros Hparse Hg He.
  assert (Hin : In e (enumerate ions)).
  { eapply Permutation_in; [apply getIonParentedGroups_perm|].
    apply in_concat. exists (snd g). split; [now apply in_map | exact He]. }
  assert (Hs : In (snd e) ions).
  { unfold enumerate in Hin.
    rewrite <- (enumerate_from_snd 0 ions). now apply in_map. }
  destruct (parseSampleColumns_Ok _ _ Hparse) as [_ Hall].
  rewrite Forall_forall in Hall. destruct (Hall _ Hs) as (_ & Hd & Hm).
  now split.
Qed.

(** The name of a parental ion: [C], a text without [C] and without closing
    bracket, and the closing bracket. *)
Lemma parentalName_shape (columnNames : list string)
    (ions : list MSDataContainer.ion) (g : string * list indexed_ion)
    (P : string) :
  parseSampleColumns columnNames = Ok ions ->
  In g (getIonParentedGroups ions) ->
  parentalName g = Ok P ->
  exists b,
    P = ("C" ++ b ++ ")")%string
    /\ every (fun c => negb (Ascii.eqb c "C")) b = true
    /\ every (fun c => negb (Ascii.eqb c ")")) b = true.
Proof.
  intros Hparse Hg HP.
  pose proof (groups_named _ (parsed_descriptions _ _ Hparse)) as Hnamed.
  rewrite Forall_forall in Hnamed. destruct (Hnamed _ Hg) as [_ Hkey].
  unfold parentalName in HP.
  destruct (snd g) as [|first rest] eqn:Eg; [discriminate|].
  injection HP as <-.
  destruct (final_group_ions _ _ g first Hparse Hg) as [Hd Hm].
  { rewrite Eg. now left. }
  inversion Hkey as [|? ? Hk _]; subst. rewrite <- Hk.
  set (k := idescription first) in *.
  destruct (str_int_nonneg _ Hm) as (_ & Hmd & _).
  exists (str_take2 k ++ ":" ++ str_drop2 k ++ " ("
            ++ str_int (imass first))%string.
  split.
  { repeat (progress (rewrite ?append_assoc; cbn [append])). reflexivity. }
  assert (Hplain : forall s,
             all_digits s = true ->
             every (fun c => negb (Ascii.eqb c "C") && negb (Ascii.eqb c ")"))
                   s = true).
  { intros s Hs. rewrite all_digits_every in Hs.
    eapply every_impl; [|exact Hs]. intros c Hc.
    pose proof (digit_is_plain c Hc) as H.
    apply andb_prop in H. now destruct H. }
  assert (Hbody : every (fun c => negb (Ascii.eqb c "C")
                                  && negb (Ascii.eqb c ")"))
                        (str_take2 k ++ ":" ++ str_drop2 k ++ " ("
                           ++ str_int (imass first)) = true).
  { rewrite every_app. unfold str_take2, str_drop2.
    rewrite (every_substring _ _ (Hplain _ Hd)).
    change (":" ++ substring 2 (String.length k - 2) k ++ " ("
              ++ str_int (imass first))%string
      with (String ":" (substring 2 (String.length k - 2) k ++ " ("
                          ++ str_int (imass first))).
    cbn [every Ascii.eqb Bool.eqb negb andb].
    rewrite every_app, (every_substring _ _ (Hplain _ Hd)).
    change (" (" ++ str_int (imass first))%string
      with (String " " (String "(" (str_int (imass first)))).
    cbn [every Ascii.eqb Bool.eqb negb andb].
    now rewrite (Hplain _ Hmd). }
  split; (eapply every_impl; [|exact Hbody]); intros c Hc;
    apply andb_prop in Hc; now destruct Hc.
Qed.

Lemma parentalNames_In :
  forall gs refs P,
    parentalNames gs = Ok refs -> In P refs ->
    exists g, In g gs /\ parentalName g = Ok P.
Proof.
  induction gs as [|g gs IH]; intros refs P H Hin; cbn [parentalNames] in H.
  - injection H as <-. contradiction.
  - destruct (parentalName g) as [name|] eqn:Hg; [|discriminate].
    cbn [bind] in H.
    destruct (parentalNames gs) as [names|] eqn:Hgs; [|discriminate].
    cbn [bind] in H. injection H as <-.
    destruct Hin as [<-|Hin].
    + exists g. split; [now left | exact Hg].
    + destruct (IH _ _ eq_refl Hin) as (g' & Hg' & HP).
      exists g'. split; [now right | exact HP].
Qed.

Lemma label_same (b : string) (n : nat) :
  contains ("C" ++ b ++ ")") (("C" ++ b ++ ")") ++ " M." ++ str_nat n) = true
  /\ String.prefix (("C" ++ b ++ ")") ++ " M.")
       (("C" ++ b ++ ")") ++ " M." ++ str_nat n) = true.
Proof.
  split.
  - apply contains_prefix, prefix_app.
  - rewrite <- (append_assoc ("C" ++ b ++ ")") " M." (str_nat n)).
    apply prefix_app.
Qed.

Lemma label_prefix_inv (b b' : string) (n : nat) :
  every (fun c => negb (Ascii.eqb c ")")) b = true ->
  every (fun c => negb (Ascii.eqb c ")")) b' = true ->
  String.prefix (("C" ++ b ++ ")") ++ " M.")
                (("C" ++ b' ++ ")") ++ " M." ++ str_nat n) = true ->
  b = b'.
Proof.
  intros Hb Hb' Hp.
  repeat (progress (rewrite ?append_assoc in Hp; cbn [append] in Hp)).
  cbn [String.prefix] in Hp.
  destruct (ascii_dec "C" "C"); [|contradiction].
  exact (prefix_to_bracket b b' " M." (" M." ++ str_nat n) Hb Hb' Hp).
Qed.

Lemma label_contains_inv (b b' : string) (n : nat) :
  every (fun c => negb (Ascii.eqb c "C")) b' = true ->
  every (fun c => negb (Ascii.eqb c ")")) b = true ->
  every (fun c => negb (Ascii.eqb c ")")) b' = true ->
  contains ("C" ++ b ++ ")") (("C" ++ b' ++ ")") ++ " M." ++ str_nat n)
  = true ->
  b = b'.
Proof.
  intros HC Hb Hb' Hc.
  repeat (progress (rewrite ?append_assoc in Hc; cbn [append] in Hc)).
  cbn [contains] in Hc. apply orb_prop in Hc. destruct Hc as [Hc|Hc].
  - cbn [String.prefix] in Hc.
    destruct (ascii_dec "C" "C"); [|contradiction].
    exact (prefix_to_bracket b b' "" (" M." ++ str_nat n) Hb Hb' Hc).
  - exfalso.
    assert (Hall : every (fun c => negb (Ascii.eqb c "C"))
                         (b' ++ String ")" (String " " (String "M"
                             (String "." (str_nat n))))) = true).
    { rewrite every_app, HC. cbn [every Ascii.eqb Bool.eqb negb andb].
      apply digits_without_C. apply all_digits_string_of_uint. }
    pose proof (contains_every _ _ _ Hc Hall) as H.
    discriminate H.
Qed.

(** The label [P' M.n] of a column has the name [P] inside exactly when it
    begins with [P M.], that is when [P'] is [P]. *)
Lemma label_of_parental (b b' : string) (n : nat) :
  every (fun c => negb (Ascii.eqb c "C")) b' = true ->
  every (fun c => negb (Ascii.eqb c ")")) b = true ->
  every (fun c => negb (Ascii.eqb c ")")) b' = true ->
  contains ("C" ++ b ++ ")") (("C" ++ b' ++ ")") ++ " M." ++ str_nat n)
  = String.prefix (("C" ++ b ++ ")") ++ " M.")
                  (("C" ++ b' ++ ")") ++ " M." ++ str_nat n).
Proof.
  intros HC Hb Hb'.
  pose proof (label_contains_inv b b' n HC Hb Hb') as H1.
  pose proof (label_prefix_inv b b' n Hb Hb') as H2.
  destruct (contains ("C" ++ b ++ ")")
              (("C" ++ b' ++ ")") ++ " M." ++ str_nat n)) eqn:Hc.
  - rewrite <- (H1 eq_refl). symmetry. apply label_same.
  - destruct (String.prefix (("C" ++ b ++ ")") ++ " M.")
                (("C" ++ b' ++ ")") ++ " M." ++ str_nat n)) eqn:Hp;
      [|reflexivity].
    rewrite <- (H2 eq_refl) in Hc.
    rewrite (proj1 (label_same b n)) in Hc. discriminate Hc.
Qed.

(** X22.  For the name of a parental ion of a labeled experiment,
    [filter(like=parentalIon)] keeps no column that comes before the data,
    and of the data it keeps the columns named [parentalIon M.n]: the
    columns of the groups of that parental ion, and of no other. *)
Theorem filter_like_keeps_the_columns_of_the_parental_ion
    (columnsOfInterest : list string)
    (ionsDetected : list MSDataContainer.ion)
    (refs : list string) (parentalIon : string) :
  parseSampleColumns columnsOfInterest = Ok ionsDetected ->
  let finalGroups := getIonParentedGroups ionsDetected in
  let labels := map snd (sortedIonNames finalGroups) in
  parentalNames finalGroups = Ok refs ->
  In parentalIon refs ->
  filter_like parentalIon (metaColumns ++ labels)
  = filter (String.prefix (parentalIon ++ " M.")) labels.
Proof.
  intros Hparse finalGroups labels Hrefs HP.
  destruct (parentalNames_In _ _ _ Hrefs HP) as (g & Hg & HPg).
  destruct (parentalName_shape _ _ _ _ Hparse Hg HPg) as (b & -> & HbC & Hb).
  unfold filter_like. rewrite filter_app.
  assert (Hmeta : filter (contains ("C" ++ b ++ ")")) metaColumns = []).
  { assert (Hno : forall s,
               every (fun c => negb (Ascii.eqb c ")")) s = true ->
               contains ("C" ++ b ++ ")") s = false).
    { intros s Hs. destruct (contains ("C" ++ b ++ ")") s) eqn:Hc;
        [|reflexivity].
      pose proof (contains_every _ _ _ Hc Hs) as H.
      cbn [append every] in H. rewrite every_app in H.
      cbn [every Ascii.eqb Bool.eqb negb andb] in H.
      rewrite andb_false_r in H. discriminate H. }
    unfold metaColumns. cbn [filter].
    rewrite !Hno by reflexivity. reflexivity. }
  rewrite Hmeta. cbn [app].
  apply filter_ext_in. intros N HN.
  destruct (names_of_groups finalGroups
              (groups_named _ (parsed_descriptions _ _ Hparse)))
    as (refs' & H1 & _ & H3 & _).
  fold finalGroups in Hrefs. rewrite Hrefs in H1. injection H1 as <-.
  unfold labels in HN. rewrite H3 in HN. apply in_flat_map in HN.
  destruct HN as ([P' c] & Hin & HN). cbn [fst snd] in HN.
  apply in_map_iff in HN. destruct HN as (n & <- & _).
  apply in_combine_l in Hin.
  destruct (parentalNames_In _ _ _ Hrefs Hin) as (g' & Hg' & HPg').
  destruct (parentalName_shape _ _ _ _ Hparse Hg' HPg')
    as (b' & -> & HbC' & Hb').
  now apply label_of_parental.
Qed.

Lemma filter_like_on_palmitate_columns :
  exists ionsDetected refs,
    parseSampleColumns ["1_270_160"; "2_271_160"; "3_298_180"] = Ok ionsDetected
    /\ parentalNames (getIonParentedGroups ionsDetected) = Ok refs
    /\ In "C16:0 (270)" refs
    /\ filter_like "C16:0 (270)"
         (metaColumns
            ++ map snd (sortedIonNames (getIonParentedGroups ionsDetected)))
       = filter (String.prefix ("C16:0 (270)" ++ " M."))
           (map snd (sortedIonNames (getIonParentedGroups ionsDetected))).
Proof.
  eexists. eexists.
  split; [vm_compute; reflexivity|].
  split; [vm_compute; reflexivity|].
  split; [now left|].
  apply (filter_like_keeps_the_columns_of_the_parental_ion
           ["1_270_160"; "2_271_160"; "3_298_180"] _
           ["C16:0 (270)"; "C18:0 (298)"]).
  - vm_compute. reflexivity.
  - vm_compute. reflexivity.
  - now left.
Defined.

(** *** What is stored about the columns *)

Lemma isLabeledExperiment_spec (ionsDetected : list MSDataContainer.ion) :
  isLabeledExperiment ionsDetected
  = match ionsDetected with
    | [] => Raise ZeroDivisionError
    | _ :: _ =>
        Ok (5 * List.length (nodup string_dec (map description ionsDetected))
            <? 3 * List.length ionsDetected)
    end.
Proof.
  unfold isLabeledExperiment. rewrite length_map.
  destruct ionsDetected as [|ion ions]; [reflexivity|].
  cbn [List.length]. f_equal.
  set (u := List.length (nodup string_dec (map description (ion :: ions)))).
  set (n := List.length ions).
  assert (Hn : Z.pos (Pos.of_nat (S n)) = Z.of_nat (S n)).
  { rewrite <- positive_nat_Z, Nat2Pos.id; [reflexivity | discriminate]. }
  destruct (Qlt_le_dec (Z.of_nat u # Pos.of_nat (S n)) 0.6) as [H|H];
    unfold Qlt, Qle in H; cbn [Qnum Qden] in H; rewrite Hn in H;
    symmetry; [apply Nat.ltb_lt | apply Nat.ltb_ge]; lia.
Qed.

Lemma parseIon_raises (name : string) (e : exn) :
  parseIon name = Raise e -> e = IndexError.
Proof.
  unfold parseIon. intros H.
  destruct (first_colName name) as [groups|e'] eqn:Hg.
  - destruct (first_colName_digits _ _ Hg) as (_ & _ & N1 & D1 & N2 & D2).
    destruct (int_digits _ N1 D1) as (i & Hi & _).
    destruct (int_digits _ N2 D2) as (m & Hm & _).
    cbn [bind] in H. rewrite Hi, Hm in H. discriminate H.
  - cbn [bind] in H. injection H as <-.
    induction name as [|c name IH]; cbn [first_colName] in Hg.
    + now injection Hg as <-.
    + destruct (match_colName (String c name)); [discriminate | now apply IH].
Qed.

Lemma parseSampleColumns_raises :
  forall columnNames e,
    parseSampleColumns columnNames = Raise e ->
    e = IndexError
    /\ exists name, In name columnNames /\ parseIon name = Raise IndexError.
Proof.
  induction columnNames as [|name names IH]; intros e H;
    cbn [parseSampleColumns] in H; [discriminate|].
  destruct (parseIon name) as [ion|e'] eqn:Hion.
  - cbn [bind] in H.
    destruct (parseSampleColumns names) as [ions|e''] eqn:Hions;
      [discriminate|].
    cbn [bind] in H. injection H as <-.
    destruct (IH _ eq_refl) as [-> (n & Hn & Hr)].
    split; [reflexivity|]. exists n. split; [now right | exact Hr].
  - cbn [bind] in H. injection H as <-.
    pose proof (parseIon_raises _ _ Hion) as ->.
    split; [reflexivity|]. exists name. split; [now left | exact Hion].
Qed.

Lemma sortedIonNames_length (columnNames : list string)
    (ions : list MSDataContainer.ion) :
  parseSampleColumns columnNames = Ok ions ->
  List.length (sortedIonNames (getIonParentedGroups ions))
  = List.length columnNames.
Proof.
  intros Hparse.
  destruct (labeled_columns_facts columnNames ions Hparse)
    as (refs & _ & _ & _ & Hperm).
  apply Permutation_length in Hperm.
  now rewrite length_map, length_seq in Hperm.
Qed.

(** X23.  The names that are stored cover the columns: there is one name for
    each column of interest.  The experiment is taken as labeled when fewer
    than three in five of the descriptions are distinct; then the columns are
    taken in an order that is a permutation of their positions, and the
    internal references are the parental ions of the groups.  Otherwise the
    columns keep their order and each is an internal reference. *)
Theorem column_attributes_cover_the_columns (letter : string)
    (columnsOfInterest : list string) (a : attributes) :
  computeFileAttributes letter columnsOfInterest = Ok a ->
  List.length (dataColNames a) = List.length columnsOfInterest
  /\ exists ionsDetected,
       parseSampleColumns columnsOfInterest = Ok ionsDetected
       /\ if 5 * List.length (nodup string_dec
                                (map description ionsDetected))
             <? 3 * List.length columnsOfInterest
          then experimentType a = "Labeled"
               /\ (exists order,
                      orderedIdx a = Some order
                      /\ Permutation order
                           (seq 0 (List.length columnsOfInterest)))
               /\ parentalNames (getIonParentedGroups ionsDetected)
                  = Ok (internalRefList a)
          else experimentType a = "Not Labeled"
               /\ orderedIdx a = None
               /\ dataColNames a = map dataColName ionsDetected
               /\ internalRefList a = dataColNames a.
Proof.
  unfold computeFileAttributes. intros H.
  destruct (parseSampleColumns columnsOfInterest) as [ions|] eqn:Hparse;
    [|discriminate].
  cbn [bind] in H.
  destruct (parseSampleColumns_Ok _ _ Hparse) as [Hlen _].
  rewrite isLabeledExperiment_spec in H.
  destruct ions as [|ion ions]; [discriminate|].
  cbn [bind] in H. rewrite Hlen in H.
  set (ionsDetected := ion :: ions) in *.
  destruct (5 * List.length (nodup string_dec (map description ionsDetected))
            <? 3 * List.length columnsOfInterest) eqn:Hlab.
  - destruct (if String.eqb letter "F" then Ok tt
              else if List.length (getIonParentedGroups ionsDetected) =? 2
                   then Ok tt else Raise AssertionError) as [[]|];
      [|discriminate].
    cbn [bind] in H.
    destruct (sortedIonNames (getIonParentedGroups ionsDetected))
      as [|n0 names] eqn:Hnames; [discriminate|].
    cbn [bind] in H. rewrite <- Hnames in H.
    destruct (parentalNames (getIonParentedGroups ionsDetected))
      as [refs|] eqn:Hrefs; [|discriminate].
    cbn [bind] in H. injection H as <-.
    cbn [dataColNames experimentType orderedIdx internalRefList].
    split; [rewrite length_map; now apply sortedIonNames_length|].
    exists ionsDetected. split; [reflexivity|]. rewrite Hlab.
    split; [reflexivity|]. split; [|exact Hrefs].
    eexists. split; [reflexivity|].
    destruct (labeled_columns_facts _ _ Hparse) as (_ & _ & _ & _ & Hperm).
    exact Hperm.
  - injection H as <-.
    cbn [dataColNames experimentType orderedIdx internalRefList].
    split; [rewrite <- Hlen; exact (length_map dataColName ionsDetected)|].
    exists ionsDetected. split; [reflexivity|]. rewrite Hlab.
    repeat split.
Qed.

Lemma column_attributes_of_palmitate :
  exists a,
    computeFileAttributes "F" ["1_270_160"; "2_271_160"; "3_272_160"] = Ok a
    /\ List.length (dataColNames a)
       = List.length ["1_270_160"; "2_271_160"; "3_272_160"]
    /\ exists ionsDetected,
         parseSampleColumns ["1_270_160"; "2_271_160"; "3_272_160"]
         = Ok ionsDetected
         /\ if 5 * List.length (nodup string_dec
                                  (map description ionsDetected))
               <? 3 * List.length ["1_270_160"; "2_271_160"; "3_272_160"]
            then experimentType a = "Labeled"
                 /\ (exists order,
                        orderedIdx a = Some order
                        /\ Permutation order
                             (seq 0 (List.length
                                       ["1_270_160"; "2_271_160";
                                        "3_272_160"])))
                 /\ parentalNames (getIonParentedGroups ionsDetected)
                    = Ok (internalRefList a)
            else experimentType a = "Not Labeled"
                 /\ orderedIdx a = None
                 /\ dataColNames a = map dataColName ionsDetected
                 /\ internalRefList a = dataColNames a.
Proof.
  eexists. split; [vm_compute; reflexivity|].
  apply (column_attributes_cover_the_columns "F"
           ["1_270_160"; "2_271_160"; "3_272_160"]).
  vm_compute. reflexivity.
Defined.

(** X24.  The columns are refused in three cases only: the name of a column is
    not read ([IndexError]); there is no column, so that the share of the
    distinct descriptions is a division by zero ([ZeroDivisionError]); or
    the experiment is labeled, its first letter is not [F], and the groups
    are not two ([AssertionError]).  No group is without a parental ion. *)
Theorem refused_columns (letter : string) (columnsOfInterest : list string)
    (e : exn) :
  computeFileAttributes letter columnsOfInterest = Raise e ->
  (e = IndexError
   /\ exists name,
        In name columnsOfInterest /\ parseIon name = Raise IndexError)
  \/ (e = ZeroDivisionError /\ columnsOfInterest = [])
  \/ (e = AssertionError /\ letter <> "F"
      /\ exists ionsDetected,
           parseSampleColumns columnsOfInterest = Ok ionsDetected
           /\ List.length (getIonParentedGroups ionsDetected) <> 2).
Proof.
  unfold computeFileAttributes. intros H.
  destruct (parseSampleColumns columnsOfInterest) as [ions|e'] eqn:Hparse.
  2:{ cbn [bind] in H. injection H as <-. left.
      exact (parseSampleColumns_raises _ _ Hparse). }
  cbn [bind] in H. right.
  destruct (parseSampleColumns_Ok _ _ Hparse) as [Hlen _].
  rewrite isLabeledExperiment_spec in H.
  destruct ions as [|ion ions].
  { cbn [bind] in H. injection H as <-. left. split; [reflexivity|].
    destruct columnsOfInterest; [reflexivity | discriminate Hlen]. }
  cbn [bind] in H. right.
  set (ionsDetected := ion :: ions) in *.
  destruct (5 * List.length (nodup string_dec (map description ionsDetected))
            <? 3 * List.length ionsDetected); [|discriminate].
  destruct (String.eqb_spec letter "F") as [EF|EF].
  - exfalso. cbn [bind] in H.
    pose proof (sortedIonNames_length _ _ Hparse) as Hn.
    destruct (sortedIonNames (getIonParentedGroups ionsDetected))
      as [|n0 names] eqn:Hnames.
    { rewrite <- Hlen in Hn. discriminate Hn. }
    cbn [bind] in H.
    destruct (labeled_columns_facts _ _ Hparse) as (refs & Hrefs & _).
    rewrite Hrefs in H. discriminate H.
  - destruct (Nat.eqb_spec (List.length (getIonParentedGroups ionsDetected)) 2)
      as [E2|E2].
    + exfalso. cbn [bind] in H.
      pose proof (sortedIonNames_length _ _ Hparse) as Hn.
      destruct (sortedIonNames (getIonParentedGroups ionsDetected))
        as [|n0 names] eqn:Hnames.
      { rewrite <- Hlen in Hn. discriminate Hn. }
      cbn [bind] in H.
      destruct (labeled_columns_facts _ _ Hparse) as (refs & Hrefs & _).
      rewrite Hrefs in H. discriminate H.
    + cbn [bind] in H. injection H as <-.
      split; [reflexivity|]. split; [exact EF|].
      exists ionsDetected. now split.
Qed.

Lemma refused_without_columns :
  (ZeroDivisionError = IndexError
   /\ exists name, In name [] /\ parseIon name = Raise IndexError)
  \/ (ZeroDivisionError = ZeroDivisionError /\ @nil string = [])
  \/ (ZeroDivisionError = AssertionError /\ "F" <> "F"
      /\ exists ionsDetected,
           parseSampleColumns [] = Ok ionsDetected
           /\ List.length (getIonParentedGroups ionsDetected) <> 2).
Proof.
  apply (refused_columns "F" [] ZeroDivisionError). reflexivity.
Defined.

End ColumnsFacts.

(** ** The parental ion of a column of the standards *)

Module ParentalIonFacts.

Import Re ParentalIon Notions Measures.
Import FormulaFacts ParsingFacts MSDataContainerFacts.

Local Open Scope nat_scope.

Lemma match_ion_mass (ion carbon mass : string) :
  match_ion ion = Some (carbon, mass) ->
  mass <> EmptyString /\ all_digits mass = true.
Proof.
  unfold match_ion. destruct ion as [|c s1]; [discriminate|].
  destruct (Ascii.eqb_spec c "C") as [->|Hc].
  2:{ destruct c as [[] [] [] [] [] [] [] []]; try discriminate.
      now contradiction Hc. }
  destruct (span_digits s1) as [[|a1 d1] [|u1 s2]]; try discriminate.
  destruct (Ascii.eqb_spec u1 ":") as [->|Hu].
  2:{ destruct u1 as [[] [] [] [] [] [] [] []]; try discriminate.
      now contradiction Hu. }
  destruct (span_digits s2) as [[|a2 d2] [|u2 [|u3 s3]]]; try discriminate.
  { destruct u2 as [[] [] [] [] [] [] [] []]; discriminate. }
  destruct (Ascii.eqb_spec u2 " ") as [->|Hu2].
  2:{ destruct u2 as [[] [] [] [] [] [] [] []]; try discriminate.
      now contradiction Hu2. }
  destruct (Ascii.eqb_spec u3 "(") as [->|Hu3].
  2:{ destruct u3 as [[] [] [] [] [] [] [] []]; try discriminate.
      now contradiction Hu3. }
  pose proof (span_digits_all s3) as H3.
  destruct (span_digits s3) as [[|a3 d3] [|u4 s4]]; try discriminate.
  destruct (Ascii.eqb_spec u4 ")") as [->|Hu4].
  2:{ destruct u4 as [[] [] [] [] [] [] [] []]; try discriminate.
      now contradiction Hu4. }
  intros H. injection H as _ <-. split; [discriminate | exact H3].
Qed.

(** What the list of the masses is made of. *)
Lemma massOfMatchingCarbons_spec (carbon : string) :
  forall l start masses,
    massOfMatchingCarbons carbon (enumerate_from start l) = Ok masses ->
    map fst masses = seq start (List.length l)
    /\ Forall2 (fun column im =>
                  exists m, match_mass carbon column = Some m
                            /\ int m = Ok (snd im))
               l masses.
Proof.
  induction l as [|column l IH]; intros start masses H;
    cbn [enumerate_from massOfMatchingCarbons] in H.
  - injection H as <-. split; [reflexivity | constructor].
  - destruct (match_mass carbon column) as [m|] eqn:Hm; [|discriminate].
    destruct (int m) as [z|] eqn:Hz; [|discriminate].
    cbn [bind] in H.
    destruct (massOfMatchingCarbons carbon (enumerate_from (S start) l))
      as [masses'|] eqn:Hrest; [|discriminate].
    cbn [bind] in H. injection H as <-.
    destruct (IH _ _ Hrest) as [H1 H2]. split.
    + cbn [map fst List.length seq]. now rewrite H1.
    + constructor; [|exact H2]. exists m. now split.
Qed.

Lemma massOfMatchingCarbons_fails (carbon : string) :
  forall l start column,
    In column l -> match_mass carbon column = None ->
    exists e, massOfMatchingCarbons carbon (enumerate_from start l) = Raise e.
Proof.
  induction l as [|c l IH]; intros start column Hin Hm; [contradiction|].
  cbn [enumerate_from massOfMatchingCarbons].
  destruct Hin as [->|Hin].
  - rewrite Hm. now exists ValueError.
  - destruct (match_mass carbon c) as [m|]; [|now exists ValueError].
    destruct (int m) as [z|e]; [|now exists e]. cbn [bind].
    destruct (IH (S start) column Hin Hm) as (e & ->). now exists e.
Qed.

Lemma strongly_sorted_last {A : Type} (key : A -> Z) (x : A) :
  forall l,
    StronglySorted (key_le key) (l ++ [x]) ->
    Forall (fun y => (key y <= key x)%Z) (l ++ [x]).
Proof.
  induction l as [|a l IH]; intros H; cbn [app] in *.
  - constructor; [lia | constructor].
  - inversion H as [|? ? Hs Hall]; subst. constructor; [|now apply IH].
    rewrite Forall_forall in Hall. apply Hall. apply in_or_app. right.
    now left.
Qed.

(** The last entry of a sorted list has the greatest key. *)
Lemma sorted_last_is_greatest {A : Type} (key : A -> Z) (l : list A)
    (x : A) (rest : list A) :
  rev (sorted key l) = x :: rest ->
  In x l /\ Forall (fun y => (key y <= key x)%Z) l.
Proof.
  intros H.
  assert (Hs : sorted key l = rev rest ++ [x]).
  { rewrite <- (rev_involutive (sorted key l)), H. reflexivity. }
  pose proof (sorted_sorted key l) as Hsorted.
  apply Sorted_LocallySorted_iff in Hsorted.
  apply Sorted_StronglySorted in Hsorted.
  2:{ intros a b c Hab Hbc. unfold key_le in *. lia. }
  rewrite Hs in Hsorted. apply strongly_sorted_last in Hsorted.
  rewrite <- Hs in Hsorted.
  pose proof (sorted_perm key l) as Hperm.
  split.
  - eapply Permutation_in; [exact Hperm|]. rewrite Hs.
    apply in_or_app. right. now left.
  - rewrite Forall_forall in *. intros y Hy. apply Hsorted.
    eapply Permutation_in; [apply Permutation_sym; exact Hperm | exact Hy].
Qed.

Lemma Forall2_nth_error {A B : Type} (R : A -> B -> Prop) :
  forall l1 l2 n b,
    Forall2 R l1 l2 -> nth_error l2 n = Some b ->
    exists a, nth_error l1 n = Some a /\ R a b.
Proof.
  intros l1 l2 n b H. revert n. induction H as [|a b' l1 l2 Hab _ IH];
    intros [|n] Hn; cbn in Hn; try discriminate.
  - injection Hn as <-. exists a. now split.
  - now apply IH.
Qed.

Lemma Forall2_In_l {A B : Type} (R : A -> B -> Prop) :
  forall l1 l2 a,
    Forall2 R l1 l2 -> In a l1 -> exists b, In b l2 /\ R a b.
Proof.
  intros l1 l2 a H. induction H as [|a' b l1 l2 Hab _ IH]; intros Hin;
    [contradiction|].
  destruct Hin as [->|Hin].
  - exists b. split; [now left | exact Hab].
  - destruct (IH Hin) as (b' & Hb' & HR). exists b'. split; [now right|].
    exact HR.
Qed.

Lemma seq_entry {B : Type} (masses : list (nat * B)) (n : nat) :
  map fst masses = seq 0 n ->
  forall i z, In (i, z) masses -> nth_error masses i = Some (i, z).
Proof.
  intros Hseq i z Hin. apply In_nth_error in Hin. destruct Hin as (j & Hj).
  assert (Hij : nth_error (map fst masses) j = Some i).
  { rewrite nth_error_map, Hj. reflexivity. }
  rewrite Hseq, nth_error_seq in Hij.
  destruct (Nat.ltb_spec j n) as [_|Hge]; [|discriminate Hij].
  injection Hij as <-. exact Hj.
Qed.

(** X25.  The parental ion that is returned for a column is a column of the
    standards that begins with the chain of the column and has a mass written
    after it, and among the columns of the standards that begin with that
    chain none has a greater mass. *)
Theorem parental_ion_is_the_heaviest_standard (columns : list string)
    (ion parentalIon : string) :
  checkIfParentalIonDataExistsFor columns ion = Some parentalIon ->
  exists carbon mass m z,
    match_ion ion = Some (carbon, mass)
    /\ In parentalIon columns
    /\ String.prefix carbon parentalIon = true
    /\ match_mass carbon parentalIon = Some m
    /\ int m = Ok z
    /\ forall column,
         In column columns -> String.prefix carbon column = true ->
         exists m' z',
           match_mass carbon column = Some m'
           /\ int m' = Ok z' /\ (z' <= z)%Z.
Proof.
  unfold checkIfParentalIonDataExistsFor. intros H.
  destruct (match_ion ion) as [[carbon mass]|] eqn:Hion; [|discriminate].
  destruct (int mass) as [zi|]; [|discriminate].
  set (matching := filter (String.prefix carbon) columns) in *.
  destruct matching as [|c0 matching'] eqn:Em; [discriminate|].
  rewrite <- Em in H.
  destruct (massOfMatchingCarbons carbon (enumerate matching))
    as [masses|] eqn:Hmasses; [|discriminate].
  destruct (rev (sorted (fun entry : nat * Z => snd entry) masses))
    as [|[idx zmax] rest] eqn:Hrev; [discriminate|].
  unfold enumerate in Hmasses.
  destruct (massOfMatchingCarbons_spec _ _ _ _ Hmasses) as [Hidx Hall].
  destruct (sorted_last_is_greatest _ _ _ _ Hrev) as [Hin Hmax].
  cbn [snd] in Hmax.
  pose proof (seq_entry masses _ Hidx idx zmax Hin) as Hnth.
  destruct (Forall2_nth_error _ _ _ _ _ Hall Hnth) as (p & Hp & m & Hm & Hz).
  rewrite Hp in H. injection H as <-. cbn [snd] in Hz.
  assert (Hpin : In p matching) by (eapply nth_error_In; exact Hp).
  subst matching. apply filter_In in Hpin. destruct Hpin as [Hpc Hpp].
  exists carbon, mass, m, zmax.
  repeat (split; [assumption || reflexivity|]).
  intros column Hc Hpre.
  assert (Hcm : In column (filter (String.prefix carbon) columns)).
  { apply filter_In. now split. }
  destruct (Forall2_In_l _ _ _ _ Hall Hcm) as ([i z'] & Hiz & m' & Hm' & Hz').
  exists m', z'. cbn [snd] in Hz'. repeat split; try assumption.
  rewrite Forall_forall in Hmax. exact (Hmax _ Hiz).
Qed.

Lemma parental_ion_of_a_palmitate_fragment :
  exists carbon mass m z,
    match_ion "C16:0 (268) M.1" = Some (carbon, mass)
    /\ In "C16:0 (270)" ["C14:0 (242)"; "C16:0 (270)"; "C16:0 (256)"]
    /\ String.prefix carbon "C16:0 (270)" = true
    /\ match_mass carbon "C16:0 (270)" = Some m
    /\ int m = Ok z
    /\ forall column,
         In column ["C14:0 (242)"; "C16:0 (270)"; "C16:0 (256)"] ->
         String.prefix carbon column = true ->
         exists m' z',
           match_mass carbon column = Some m'
           /\ int m' = Ok z' /\ (z' <= z)%Z.
Proof.
  apply (parental_ion_is_the_heaviest_standard
           ["C14:0 (242)"; "C16:0 (270)"; "C16:0 (256)"]
           "C16:0 (268) M.1" "C16:0 (270)").
  vm_compute. reflexivity.
Defined.

(** X26.  The mass of the column is read and not used: two columns of one chain
    have the same parental ion.  And a column of the standards that begins
    with the chain without being that chain followed by a mass, as
    [C16:01 (300)] for the chain [C16:0], leaves every column of that chain
    without a parental ion. *)
Theorem parental_ion_depends_on_the_chain_only (columns : list string)
    (ion ion' carbon mass mass' : string) :
  match_ion ion = Some (carbon, mass) ->
  match_ion ion' = Some (carbon, mass') ->
  checkIfParentalIonDataExistsFor columns ion
  = checkIfParentalIonDataExistsFor columns ion'
  /\ (forall column,
         In column columns -> String.prefix carbon column = true ->
         match_mass carbon column = None ->
         checkIfParentalIonDataExistsFor columns ion = None).
Proof.
  intros H H'.
  destruct (match_ion_mass _ _ _ H) as [Hne Hd].
  destruct (match_ion_mass _ _ _ H') as [Hne' Hd'].
  destruct (int_digits _ Hne Hd) as (z & Hz & _).
  destruct (int_digits _ Hne' Hd') as (z' & Hz' & _).
  unfold checkIfParentalIonDataExistsFor. rewrite H, H', Hz, Hz'.
  split; [reflexivity|].
  intros column Hin Hpre Hnone.
  assert (Hcm : In column (filter (String.prefix carbon) columns)).
  { apply filter_In. now split. }
  destruct (filter (String.prefix carbon) columns) as [|c0 l] eqn:E;
    [reflexivity|].
  destruct (massOfMatchingCarbons_fails carbon (c0 :: l) 0 column Hcm Hnone)
    as (e & He).
  unfold enumerate. now rewrite He.
Qed.

Lemma parental_ion_hidden_by_a_longer_chain :
  checkIfParentalIonDataExistsFor ["C16:0 (270)"; "C16:01 (300)"]
    "C16:0 (268) M.1"
  = checkIfParentalIonDataExistsFor ["C16:0 (270)"; "C16:01 (300)"]
      "C16:0 (999)"
  /\ checkIfParentalIonDataExistsFor ["C16:0 (270)"; "C16:01 (300)"]
       "C16:0 (268) M.1" = None.
Proof.
  destruct (parental_ion_depends_on_the_chain_only
              ["C16:0 (270)"; "C16:01 (300)"]
              "C16:0 (268) M.1" "C16:0 (999)" "C16:0" "268" "999"
              eq_refl eq_refl) as [H1 H2].
  split; [exact H1|].
  apply (H2 "C16:01 (300)"); [right; now left | reflexivity | reflexivity].
Defined.

End ParentalIonFacts.

(** ** The correction of all the ions *)

Module ContainerFacts.

Import Np NAProcess Library Files Columns Container Notions Measures.
Import MatrixFacts CorrectionFacts.

Local Open Scope nat_scope.

Lemma pick_filter {A : Type} (f : A -> bool) (l : list A) :
  pick (map f l) l = filter f l.
Proof.
  unfold pick. induction l as [|x l IH]; [reflexivity|].
  cbn [map combine filter fst]. destruct (f x); cbn [map snd]; now rewrite IH.
Qed.

Lemma pick_length {A B : Type} (keep : list bool) :
  forall (l1 : list A) (l2 : list B),
    List.length l1 = List.length l2 ->
    List.length (pick keep l1) = List.length (pick keep l2).
Proof.
  unfold pick. induction keep as [|k keep IH]; intros [|x l1] [|y l2] H;
    try discriminate H; try reflexivity.
  cbn [combine filter fst]. injection H as H.
  destruct k; cbn [map List.length]; now rewrite (IH l1 l2 H).
Qed.

Lemma filter_frame_spec (parentalIon : string) (df : DataFrame) :
  well_formed df ->
  well_formed (filter_frame parentalIon df)
  /\ nrows (values (filter_frame parentalIon df)) = nrows (values df)
  /\ columns (filter_frame parentalIon df)
     = filter_like parentalIon (columns df).
Proof.
  intros [[Hr Hc] Hcols]. unfold filter_frame, filter_like.
  cbn [columns values nrows ncols rows].
  repeat split; cbn [values columns rows nrows ncols].
  - now rewrite length_map.
  - apply Forall_map. eapply Forall_impl; [|exact Hc].
    intros r Hlen. cbn beta. apply pick_length. congruence.
  - apply pick_filter.
Qed.

Lemma concat_columns_spec (a b : DataFrame) :
  well_formed a -> well_formed b ->
  nrows (values a) = nrows (values b) ->
  well_formed (concat_columns a b)
  /\ nrows (values (concat_columns a b)) = nrows (values a)
  /\ columns (concat_columns a b) = columns a ++ columns b.
Proof.
  intros [[Hra Hca] Hcolsa] [[Hrb Hcb] Hcolsb] Hn.
  unfold concat_columns. repeat split; cbn [values columns rows nrows ncols].
  - rewrite length_map, length_combine. lia.
  - apply Forall_map, Forall_forall. intros [ra rb] Hin. cbn [fst snd].
    rewrite length_app. rewrite Forall_forall in Hca, Hcb.
    rewrite (Hca ra (in_combine_l _ _ _ _ Hin)).
    rewrite (Hcb rb (in_combine_r _ _ _ _ Hin)). reflexivity.
  - rewrite length_app. congruence.
Qed.

(** The object holds the matrix that its correction builds again. *)
Lemma init_matrix (entry tracer : string) (purity : list num)
    (FAMES CHOL : bool) (s : self) :
  init entry tracer purity FAMES CHOL = Ok s ->
  matrix_of s = Ok (correctionMatrix s).
Proof.
  unfold init, matrix_of. intros H.
  destruct (getFAFormulaString entry FAMES CHOL) as [f|]; [|discriminate].
  cbn [bind] in H.
  destruct (parseFormula getNaturalAbundanceDistributions f) as [d|];
    [|discriminate].
  cbn [bind] in H.
  destruct (computeCorrectionMatrix d tracer
              getNaturalAbundanceDistributions purity) as [M|] eqn:HM;
    [|discriminate].
  cbn [bind] in H. injection H as <-.
  cbn [elementsDict atomTracer NaturalAbundanceDistributions
       purityTracer correctionMatrix]. exact HM.
Qed.

(** What the loop over the parental ions adds to the frame. *)
Lemma correction_loop_spec
    (pinv : ndarray -> ndarray)
    (minimize : (list num -> result (num * list num)) -> list num
                -> list bound -> result (list num))
    (tracer : string) (tracerPurity : list num) (cholesterol : bool)
    (NACMethod : string) (dataDf : DataFrame) :
  well_formed dataDf ->
  forall parentalIons correctedData out,
    well_formed correctedData ->
    nrows (values correctedData) = nrows (values dataDf) ->
    correction_loop pinv minimize tracer tracerPurity cholesterol NACMethod
      dataDf parentalIons correctedData = Ok out ->
    well_formed out
    /\ nrows (values out) = nrows (values dataDf)
    /\ columns out
       = columns correctedData
           ++ flat_map (fun parentalIon =>
                          filter_like parentalIon (columns dataDf))
                       parentalIons.
Proof.
  intros Hdf parentalIons. induction parentalIons as [|P refs IH];
    intros correctedData out Hwf Hn H; cbn [correction_loop] in H.
  - injection H as <-. cbn [flat_map]. rewrite app_nil_r.
    split; [exact Hwf|]. split; [exact Hn | reflexivity].
  - destruct (filter_frame_spec P dataDf Hdf) as (Hfw & Hfn & Hfc).
    destruct (ncols (values (filter_frame P dataDf)) <=? 1).
    + destruct (concat_columns_spec correctedData (filter_frame P dataDf)
                  Hwf Hfw) as (Hcw & Hcn & Hcc); [congruence|].
      destruct (IH _ _ Hcw (eq_trans Hcn Hn) H) as (H1 & H2 & H3).
      split; [exact H1|]. split; [exact H2|].
      rewrite H3, Hcc, Hfc, <- app_assoc. reflexivity.
    + destruct (init P tracer tracerPurity true cholesterol) as [ionNA|] eqn:Hi;
        [|discriminate].
      cbn [bind] in H.
      destruct (NAProcess.correctForNaturalAbundance pinv minimize ionNA
                  (filter_frame P dataDf) NACMethod) as [cd|] eqn:Hcd;
        [|discriminate].
      cbn [bind] in H.
      destruct (correct_Ok_shape pinv minimize ionNA _ cd NACMethod _
                  Hfw (init_matrix _ _ _ _ _ _ Hi) Hcd)
        as (Hcols & Hw & Hrows & Hc & _).
      assert (Hcdw : well_formed cd).
      { split; [exact Hw|]. rewrite Hc, Hcols. apply Hfw. }
      destruct (concat_columns_spec correctedData cd Hwf Hcdw)
        as (Hcw & Hcn & Hcc); [congruence|].
      destruct (IH _ _ Hcw (eq_trans Hcn Hn) H) as (H1 & H2 & H3).
      split; [exact H1|]. split; [exact H2|].
      rewrite H3, Hcc, Hcols, Hfc, <- app_assoc. reflexivity.
Qed.

(** X27.  For parental ions whose names are inside none of the columns
    that come before the data, when the correction of all the ions returns,
    the frame has the rows of the data and, after the columns that come
    before the data, for each parental ion in turn the columns of the data
    that have its name inside, under their names: the isotopologues of an ion
    stay together and keep their order, and a column is there once for each
    parental ion whose name it has inside. *)
Theorem corrected_data_keep_rows_and_columns
    (pinv : ndarray -> ndarray)
    (minimize : (list num -> result (num * list num)) -> list num
                -> list bound -> result (list num))
    (tracer : string) (tracerPurity : list num) (cholesterol : bool)
    (NACMethod : string) (metaDf dataDf out : DataFrame)
    (parentalIons : list string) :
  well_formed dataDf ->
  well_formed metaDf ->
  nrows (values metaDf) = nrows (values dataDf) ->
  Forall (fun parentalIon => filter_like parentalIon (columns metaDf) = [])
         parentalIons ->
  Container.correctForNaturalAbundance pinv minimize tracer tracerPurity
    cholesterol NACMethod metaDf dataDf parentalIons = Ok out ->
  well_formed out
  /\ nrows (values out) = nrows (values dataDf)
  /\ columns out
     = columns metaDf
         ++ flat_map (fun parentalIon =>
                        filter_like parentalIon (columns dataDf))
                     parentalIons.
Proof.
  intros Hdf Hmeta Hn _ H.
  unfold Container.correctForNaturalAbundance in H.
  exact (correction_loop_spec pinv minimize tracer tracerPurity cholesterol
           NACMethod dataDf Hdf parentalIons metaDf out Hmeta Hn H).
Qed.

Lemma corrected_data_of_acetate :
  exists out,
    Container.correctForNaturalAbundance transpose_as_pinv stop_at_start
      "C" [q 0; q 1] false "SMC"
      (mkDataFrame ["SampleWeight"] (mkArray 1 1 [[q 1]]))
      (mkDataFrame ["C2:0 (74) M.0"; "C2:0 (74) M.1"; "C4:0 (102)"]
         (mkArray 1 3 [[q 0.7; q 0.3; q 1]]))
      ["C2:0 (74)"; "C4:0 (102)"] = Ok out
    /\ well_formed out
    /\ nrows (values out) = 1
    /\ columns out
       = ["SampleWeight"]
           ++ flat_map
                (fun parentalIon =>
                   filter_like parentalIon
                     ["C2:0 (74) M.0"; "C2:0 (74) M.1"; "C4:0 (102)"])
                ["C2:0 (74)"; "C4:0 (102)"].
Proof.
  eexists. split; [vm_compute; reflexivity|].
  apply (corrected_data_keep_rows_and_columns transpose_as_pinv stop_at_start
           "C" [q 0; q 1] false "SMC"
           (mkDataFrame ["SampleWeight"] (mkArray 1 1 [[q 1]]))
           (mkDataFrame ["C2:0 (74) M.0"; "C2:0 (74) M.1"; "C4:0 (102)"]
              (mkArray 1 3 [[q 0.7; q 0.3; q 1]]))
           _ ["C2:0 (74)"; "C4:0 (102)"]).
  - repeat constructor.
  - repeat constructor.
  - reflexivity.
  - repeat constructor.
  - vm_compute. reflexivity.
Defined.

End ContainerFacts.
